(** * sasmodels [compare.py]: a shallow embedding of the comparison driver

    The development follows [src/sasmodels/compare.py]: the seed scope
    ([push_seed]), the range heuristic ([parameter_range]), the randomizer
    ([_randomize_one], [_random_pd], [randomize_pars]), constraint repair
    ([constrain_pars]), the polydispersity and magnetism switches
    ([suppress_pd], [suppress_magnetism]), the timed evaluator
    ([time_calculation]), the comparison engine ([run_models],
    [_show_invalid], [_print_stats]) and the column layout of the model
    list ([columnize]); and, from [src/sasmodels/models/polymer_micelle.py],
    the model's own randomizer hook ([random]).

    Conventions.
    - Python exceptions are values of [exn]; a computation that may raise
      returns a [result].
    - Code that reads or writes process state (the global numpy generator,
      dict objects reachable from several names, the clock, standard
      output) runs in the state-and-exception monad [M].
    - Arithmetic is kept behind the interface [Number].  The instance
      [float_number] is IEEE binary64, which is what CPython and numpy
      execute.  Properties of rounded results are stated on the real
      values of the binary64 numbers ([float_value]) and proved from the
      specification of the primitive operations ([SpecFloat]).
    - numpy itself is not part of the repository: its generator is the
      interface [NumpyRandom], its masked arrays are modelled in
      [Section MaskedArrays] from numpy.ma's documented behaviour. *)

From Stdlib Require Import Reals Lra ZArith Floats Lia Ascii String DecimalString.
From stdpp Require Import gmap strings list fin_maps sorting.

Set Default Proof Using "Type*".

(* ================================================================== *)
(** * Exceptions, results, the state-and-exception monad *)
(* ================================================================== *)

(** The Python exception classes the modelled code can raise. *)
Inductive exn : Type :=
  | ImportError
  | TypeError
  | ValueError
  | KeyError (key : string)
  | IndexError
  | ZeroDivisionError
  | OverflowError
  | RuntimeError.

Inductive result (A : Type) : Type :=
  | Ok (a : A)
  | Raise (e : exn).
Arguments Ok {A} a.
Arguments Raise {A} e.


Definition result_bind {A B} (r : result A) (k : A -> result B) : result B :=
  match r with Ok a => k a | Raise e => Raise e end.

(** [M S A]: a computation over process state [S] that returns an [A] or
    raises.  Effects performed before a raise persist. *)
Definition M (S A : Type) : Type := S -> result A * S.

Definition ret {S A} (a : A) : M S A := fun s => (Ok a, s).
Definition raise {S A} (e : exn) : M S A := fun s => (Raise e, s).
Definition bind {S A B} (m : M S A) (k : A -> M S B) : M S B :=
  fun s => match m s with
           | (Ok a, s') => k a s'
           | (Raise e, s') => (Raise e, s')
           end.
Definition lift_result {S A} (r : result A) : M S A := fun s => (r, s).
Definition get_st {S} : M S S := fun s => (Ok s, s).
Definition modify_st {S} (f : S -> S) : M S unit := fun s => (Ok tt, f s).

(** [try: m except e: h] -- only exceptions accepted by [catches] are
    handled, the others propagate. *)
Definition try_except {S A} (m : M S A) (catches : exn -> bool)
    (handler : exn -> M S A) : M S A :=
  fun s => match m s with
           | (Ok a, s') => (Ok a, s')
           | (Raise e, s') => if catches e then handler e s' else (Raise e, s')
           end.

(** [try: m except Exception: ...] with the outcome reified. *)
Definition attempt {S A} (m : M S A) : M S (result A) :=
  fun s => let '(r, s') := m s in (Ok r, s').

Declare Scope monad_scope.
Delimit Scope monad_scope with monad.
Notation "'let*' x := c1 'in' c2" := (bind c1 (fun x => c2))
  (at level 10, x name, c1 at level 100, c2 at level 200) : monad_scope.
Notation "'let*' ' pat := c1 'in' c2" :=
  (bind c1 (fun x => match x with pat => c2 end))
  (at level 10, pat pattern, c1 at level 100, c2 at level 200) : monad_scope.
Notation "c1 ;; c2" := (bind c1 (fun _ => c2))
  (at level 100, c2 at level 200, right associativity) : monad_scope.
Open Scope monad_scope.

(** [for x in xs: body x] *)
Fixpoint for_each {S A} (xs : list A) (body : A -> M S unit) : M S unit :=
  match xs with
  | [] => ret tt
  | x :: xs' => body x ;; for_each xs' body
  end.

(** A list comprehension / generator whose element expression has effects. *)
Fixpoint map_M {S A B} (f : A -> M S B) (xs : list A) : M S (list B) :=
  match xs with
  | [] => ret []
  | x :: xs' => let* y := f x in let* ys := map_M f xs' in ret (y :: ys)
  end.

(* ================================================================== *)
(** * Python strings *)
(* ================================================================== *)

(** [p.startswith(s)] *)
Definition startswith (p s : string) : bool := String.prefix s p.

(** [p.endswith(s)] *)
Definition endswith (p s : string) : bool :=
  String.prefix (String.rev s) (String.rev p).

(** [s in p] *)
Fixpoint contains (s p : string) : bool :=
  String.prefix s p ||
  match p with
  | EmptyString => false
  | String _ p' => contains s p'
  end.

(** [p[:-n]] for a positive literal [n] *)
Definition drop_last (n : nat) (p : string) : string :=
  String.substring 0 (String.length p - n) p.

(** [str(n)] for a non-negative integer *)
Definition str_of_nat (n : nat) : string :=
  NilZero.string_of_uint (Nat.to_uint n).

(** [s * n] *)
Fixpoint str_repeat (s : string) (n : nat) : string :=
  match n with
  | O => EmptyString
  | S n' => String.append s (str_repeat s n')
  end.

(** [name.split('*')[0]]: the part before the first occurrence of [c]. *)
Fixpoint split_head (c : ascii) (s : string) : string :=
  match s with
  | EmptyString => EmptyString
  | String a s' => if Ascii.eqb a c then EmptyString else String a (split_head c s')
  end.

(* ================================================================== *)
(** * Numbers *)
(* ================================================================== *)

(** The arithmetic the driver uses.  Division here is the total, numpy
    one; Python's scalar division, which raises on a zero divisor, is
    [py_truediv] below.  [trunc] is the integer part that [int(x)] takes
    of a finite [x]; [tiny] is [np.finfo(float).tiny], the smallest
    positive normal number. *)
Class Number (num : Type) : Type := {
  of_Z : Z -> num;
  nadd : num -> num -> num;
  nsub : num -> num -> num;
  nmul : num -> num -> num;
  ndiv : num -> num -> num;
  nabs : num -> num;
  neqb : num -> num -> bool;
  nltb : num -> num -> bool;
  isfinite : num -> bool;
  isnan : num -> bool;
  trunc : num -> Z;
  tiny : num
}.

(** External elementary functions: [np.sqrt], [np.log] and [x ** y]. *)
Class MathLib (num : Type) : Type := {
  np_sqrt : num -> num;
  np_log : num -> num;
  py_pow : num -> num -> num
}.

(** ** binary64 *)

Definition float_of_Z (z : Z) : float :=
  SF2Prim (binary_normalize prec emax z 0 false).

Definition float_trunc (x : float) : Z :=
  match Prim2SF x with
  | S754_finite s m e => let a := Z.shiftl (Z.pos m) e in if s then (- a)%Z else a
  | _ => 0%Z
  end.

Definition float_isfinite (x : float) : bool :=
  negb (PrimFloat.is_nan x || PrimFloat.is_infinity x).

#[export] Instance float_number : Number float := {|
  of_Z := float_of_Z;
  nadd := PrimFloat.add;
  nsub := PrimFloat.sub;
  nmul := PrimFloat.mul;
  ndiv := PrimFloat.div;
  nabs := PrimFloat.abs;
  neqb := PrimFloat.eqb;
  nltb := PrimFloat.ltb;
  isfinite := float_isfinite;
  isnan := PrimFloat.is_nan;
  trunc := float_trunc;
  tiny := 0x1p-1022%float
|}.

(** binary64 has a square root; logarithm and power are supplied. *)
Definition float_math (log : float -> float) (pow : float -> float -> float)
    : MathLib float :=
  {| np_sqrt := PrimFloat.sqrt; np_log := log; py_pow := pow |}.

(* ================================================================== *)
(** * Python values and dicts *)
(* ================================================================== *)

(** What a parameter set holds: floats, ints ([0], [35]) and strings
    (['gaussian']). *)
Inductive value (num : Type) : Type :=
  | VFloat (x : num)
  | VInt (n : Z)
  | VStr (s : string).
Arguments VFloat {num} x.
Arguments VInt {num} n.
Arguments VStr {num} s.

(** A dict is its items in iteration order; keys are unique. *)
Abbreviation pdict num := (list (string * value num)).

Section Values.
Context {num : Type} `{Number num}.

(** A decimal literal [m / 10^e], e.g. [dec 98 2] for [0.98]. *)
Definition dec (m : Z) (e : nat) : num := ndiv (of_Z m) (of_Z (10 ^ Z.of_nat e)).

(** Use of a value as a float operand; a string operand is a TypeError. *)
Definition to_num (v : value num) : result num :=
  match v with
  | VFloat x => Ok x
  | VInt n => Ok (of_Z n)
  | VStr _ => Raise TypeError
  end.

(** [a < b] on values (Python 3: numbers with numbers, strings with
    strings). *)
Definition py_lt (a b : value num) : result bool :=
  match a, b with
  | VInt m, VInt n => Ok (m <? n)%Z
  | VStr s, VStr t => Ok (String.ltb s t)
  | VStr _, _ | _, VStr _ => Raise TypeError
  | _, _ => result_bind (to_num a) (fun x =>
            result_bind (to_num b) (fun y => Ok (nltb x y)))
  end.

(** [a != 0] and [a == 0] on values *)
Definition py_is_zero (a : value num) : bool :=
  match a with
  | VFloat x => neqb x (of_Z 0)
  | VInt n => (n =? 0)%Z
  | VStr _ => false
  end.

(** Python's scalar [x / y]: a zero divisor raises. *)
Definition py_truediv (x y : num) : result num :=
  if neqb y (of_Z 0) then Raise ZeroDivisionError else Ok (ndiv x y).

(** [x / n] for an int [n]: the divisor converts to zero exactly when
    the int is zero. *)
Definition py_truediv_int (x : num) (n : Z) : result num :=
  if (n =? 0)%Z then Raise ZeroDivisionError else Ok (ndiv x (of_Z n)).

(** [int(x)] on a float: NaN and infinities cannot be converted. *)
Definition py_int (x : num) : result Z :=
  if isnan x then Raise ValueError
  else if isfinite x then Ok (trunc x)
  else Raise OverflowError.

(** [max(a, b)] and [min(a, b)] as Python evaluates them: the first
    argument is kept unless the second is strictly better. *)
Definition py_max (a b : num) : num := if nltb a b then b else a.
Definition py_min (a b : num) : num := if nltb b a then b else a.

(** [d.get(k)] *)
Fixpoint dict_get (k : string) (d : pdict num) : option (value num) :=
  match d with
  | [] => None
  | (k', v) :: d' => if String.eqb k' k then Some v else dict_get k d'
  end.

(** [d[k]] *)
Definition getitem (k : string) (d : pdict num) : result (value num) :=
  match dict_get k d with
  | Some v => Ok v
  | None => Raise (KeyError k)
  end.

(** [d[k] = v]: an existing key keeps its place, a new key goes last. *)
Fixpoint dict_set (k : string) (v : value num) (d : pdict num) : pdict num :=
  match d with
  | [] => [(k, v)]
  | (k', v') :: d' =>
      if String.eqb k' k then (k', v) :: d' else (k', v') :: dict_set k v d'
  end.

(** [d.update(other)] *)
Definition dict_update (d other : pdict num) : pdict num :=
  fold_left (fun acc kv => dict_set (fst kv) (snd kv) acc) other d.

(** [dict(items)] *)
Definition dict_of_items (items : list (string * value num)) : pdict num :=
  dict_update [] items.

(** [list(d)]: the keys in iteration order *)
Definition dict_keys (d : pdict num) : list string := map fst d.

(* ================================================================ *)
(** * [parameter_range] (compare.py, lines 264-293) *)
(* ================================================================ *)

(** [any(s in p for s in ('theta', 'phi', 'psi'))] *)
Definition is_orientation_name (p : string) : bool :=
  existsb (fun s => contains s p) ["theta"; "phi"; "psi"]%string.

Definition parameter_range (p : string) (v : value num) : result (num * num) :=
  if endswith p "_pd_n" then Ok (of_Z 0, of_Z 100)
  else if endswith p "_pd_nsigma" then Ok (of_Z 0, of_Z 5)
  else if endswith p "_pd_type" then Raise ValueError
  else if is_orientation_name p then
    if endswith p "_pd" then Ok (of_Z 0, of_Z 45)
    else Ok (of_Z (-180), of_Z 180)
  else if endswith p "_pd" then Ok (of_Z 0, of_Z 1)
  else if contains "sld" p then Ok (dec (-5) 1, of_Z 10)
  else if String.eqb p "background" then Ok (of_Z 0, of_Z 10)
  else if String.eqb p "scale" then Ok (of_Z 0, of_Z 1000)
  else
    result_bind (to_num v) (fun x =>
      if nltb x (of_Z 0) then Ok (nmul (of_Z 2) x, nmul (of_Z (-2)) x)
      else Ok (of_Z 0, if nltb (of_Z 0) x then nmul (of_Z 2) x else of_Z 1)).

(** The range heuristic as the specification words it: its ten rules in
    their order, each a guard on the name (rules 9 and 10 on the value)
    with its outcome; rules 4 and 10 have two cases each.  The first
    entry whose guard holds decides. *)
Definition range_rules (x : num)
    : list ((string -> bool) * result (num * num)) :=
  [ (fun p => endswith p "_pd_n",       Ok (of_Z 0, of_Z 100));
    (fun p => endswith p "_pd_nsigma",  Ok (of_Z 0, of_Z 5));
    (fun p => endswith p "_pd_type",    Raise ValueError);
    (fun p => is_orientation_name p && endswith p "_pd",
                                        Ok (of_Z 0, of_Z 45));
    (fun p => is_orientation_name p,    Ok (of_Z (-180), of_Z 180));
    (fun p => endswith p "_pd",         Ok (of_Z 0, of_Z 1));
    (fun p => contains "sld" p,         Ok (dec (-5) 1, of_Z 10));
    (fun p => String.eqb p "background", Ok (of_Z 0, of_Z 10));
    (fun p => String.eqb p "scale",     Ok (of_Z 0, of_Z 1000));
    (fun _ => nltb x (of_Z 0),          Ok (nmul (of_Z 2) x, nmul (of_Z (-2)) x));
    (fun _ => nltb (of_Z 0) x,          Ok (of_Z 0, nmul (of_Z 2) x));
    (fun _ => true,                     Ok (of_Z 0, of_Z 1)) ].

Fixpoint first_match {A} (p : string) (rules : list ((string -> bool) * A))
    (default : A) : A :=
  match rules with
  | [] => default
  | (guard, outcome) :: rest =>
      if guard p then outcome else first_match p rest default
  end.

Definition spec_range_for (p : string) (x : num) : result (num * num) :=
  first_match p (range_rules x) (Ok (of_Z 0, of_Z 1)).

End Values.

(* ================================================================== *)
(** * The global numpy generator *)
(* ================================================================== *)

(** [numpy.random] as the driver uses it.  A state is what
    [np.random.get_state()] returns; every draw is a function of the
    state and yields the advanced state.  [np_choice n k] is
    [np.random.choice(n, size=k)], which draws [k] indices below [n]
    independently (numpy's default [replace=True]); [np_choice1 n] is
    [np.random.choice(a)] for a sequence of [n] elements, as an index. *)
Class NumpyRandom (num : Type) : Type := {
  rng_state : Type;
  seed_state : Z -> rng_state;
  np_rand : rng_state -> num * rng_state;
  np_uniform : num -> num -> rng_state -> num * rng_state;
  np_beta : num -> num -> rng_state -> num * rng_state;
  np_randint : Z -> rng_state -> Z * rng_state;
  np_choice1 : nat -> rng_state -> nat * rng_state;
  np_choice : nat -> nat -> rng_state -> list nat * rng_state;
  np_choice1_lt : forall n s, (0 < n)%nat -> (fst (np_choice1 n s) < n)%nat;
  np_choice_length : forall n k s, length (fst (np_choice n k s)) = k;
  np_choice_lt : forall n k s, (0 < n)%nat ->
    Forall (fun i => (i < n)%nat) (fst (np_choice n k s))
}.

(** The part of the process a seed scope can see: the generator's state
    and the operating system's entropy, which [np.random.seed(None)]
    reads.  [os_entropy i] is the state the [i]-th such read produces. *)
Record rng_world (num : Type) {G : NumpyRandom num} : Type := {
  np_random : rng_state;
  os_entropy : nat -> rng_state;
  reseeds : nat
}.
Arguments np_random {num G} _.
Arguments os_entropy {num G} _ _.
Arguments reseeds {num G} _.

(** Modelled from the spec: the model descriptor of [modelinfo.py], which
    is not among the sources; the fields are those the driver reads
    (section 3, Model Descriptor: name, limits or choice list, role tag,
    polydispersity flag, length control; the optional random-parameter
    hook).  [par_limits] is a pair, or a longer list for a choice list. *)
Record ParameterInfo (num : Type) : Type := {
  par_name : string;
  par_type : string;
  par_limits : list num;
  par_polydisperse : bool;
  par_length_control : option string;
  par_length : nat
}.
Arguments par_name {num} _.
Arguments par_type {num} _.
Arguments par_limits {num} _.
Arguments par_polydisperse {num} _.
Arguments par_length_control {num} _.
Arguments par_length {num} _.

(** Modelled from the spec: the parameter table of [modelinfo.py];
    [table_getitem] is [parameters[name]], which raises KeyError on a
    name the model does not declare. *)
Record ParameterTable (num : Type) : Type := {
  kernel_parameters : list (ParameterInfo num);
  call_parameters : list (ParameterInfo num)
}.
Arguments kernel_parameters {num} _.
Arguments call_parameters {num} _.

Definition table_getitem {num} (t : ParameterTable num) (key : string)
    : result (ParameterInfo num) :=
  match List.find (fun par => String.eqb (par_name par) key) (call_parameters t) with
  | Some par => Ok par
  | None => Raise (KeyError key)
  end.

(** Modelled from the spec: the model descriptor record of
    [modelinfo.py]: identifier, parameter table, the optional
    no-argument [random] hook (it draws from the global generator and
    returns overrides), and whether [Iq] is a Python callable. *)
Record ModelInfo (num : Type) {G : NumpyRandom num} : Type := {
  id : string;
  parameters : ParameterTable num;
  random : option (rng_state -> pdict num * rng_state);
  Iq_callable : bool
}.
Arguments id {num G} _.
Arguments parameters {num G} _.
Arguments random {num G} _.
Arguments Iq_callable {num G} _.

Section SeedScope.
Context {num : Type} {G : NumpyRandom num}.

(** A draw from the global generator, as a step of a seed scope's block *)
Definition lift_rng {A} (f : rng_state -> A * rng_state) : M (rng_world num) A :=
  fun w => let '(a, st) := f (np_random w) in
           (Ok a, {| np_random := st; os_entropy := os_entropy w;
                     reseeds := reseeds w |}).

(** [np.random.get_state()] *)
Definition np_random_get_state : M (rng_world num) rng_state :=
  fun w => (Ok (np_random w), w).

(** [np.random.set_state(st)] *)
Definition np_random_set_state (st : rng_state) : M (rng_world num) unit :=
  fun w => (Ok tt, {| np_random := st; os_entropy := os_entropy w;
                      reseeds := reseeds w |}).

(** The integer seeds [np.random.seed] accepts. *)
Definition valid_seed (s : Z) : Prop := (0 <= s < 2 ^ 32)%Z.

(** [np.random.seed(seed)]: an integer seed must lie in [0, 2**32) and
    determines the state; with [None] numpy seeds the generator from
    fresh operating-system entropy. *)
Definition np_random_seed (seed : option Z) : M (rng_world num) unit :=
  match seed with
  | Some s =>
      if ((0 <=? s) && (s <? 2 ^ 32))%Z
      then np_random_set_state (seed_state s)
      else raise ValueError
  | None =>
      fun w => (Ok tt, {| np_random := os_entropy w (reseeds w);
                          os_entropy := os_entropy w;
                          reseeds := S (reseeds w) |})
  end.

(** ** class [push_seed] (compare.py, lines 162-232) *)

Record push_seed : Type := { _state : rng_state }.

(** [__init__] *)
Definition push_seed_init (seed : option Z) : M (rng_world num) push_seed :=
  let* st := np_random_get_state in
  np_random_seed seed ;;
  ret {| _state := st |}.

(** [__enter__] *)
Definition push_seed_enter (self : push_seed) : M (rng_world num) unit :=
  ret tt.

(** [__exit__]: returns [None], so an exception of the block is not
    suppressed. *)
Definition push_seed_exit (self : push_seed) (exc : option exn)
    : M (rng_world num) bool :=
  np_random_set_state (_state self) ;;
  ret false.

(** Python's [with mgr: body].  The result is [None] when the block
    raised and the manager's [__exit__] suppressed the exception. *)
Definition with_stmt {S Mgr A} (init : M S Mgr) (enter : Mgr -> M S unit)
    (exit : Mgr -> option exn -> M S bool) (body : M S A) : M S (option A) :=
  let* mgr := init in
  enter mgr ;;
  let* r := attempt body in
  match r with
  | Ok a => exit mgr None ;; ret (Some a)
  | Raise e =>
      let* suppress := exit mgr (Some e) in
      if suppress then ret None else raise e
  end.

(** [with push_seed(seed): body] *)
Definition with_push_seed {A} (seed : option Z) (body : M (rng_world num) A)
    : M (rng_world num) (option A) :=
  with_stmt (push_seed_init seed) push_seed_enter push_seed_exit body.

(** A block that draws, runs an inner seed scope inside a
    [try ... except Exception], and draws again -- the shape of the
    nested example in [push_seed]'s docstring. *)
Definition nested_block {A B C} (before : rng_state -> A * rng_state)
    (inner_seed : option Z) (inner : M (rng_world num) B)
    (after : rng_state -> C * rng_state) : M (rng_world num) (A * C) :=
  let* a := lift_rng before in
  attempt (with_push_seed inner_seed inner) ;;
  let* c := lift_rng after in
  ret (a, c).

(** The same block without the inner scope. *)
Definition plain_block {A C} (before : rng_state -> A * rng_state)
    (after : rng_state -> C * rng_state) : M (rng_world num) (A * C) :=
  let* a := lift_rng before in
  let* c := lift_rng after in
  ret (a, c).

End SeedScope.

(* ================================================================== *)
(** * The randomizer (compare.py, lines 296-431) *)
(* ================================================================== *)

Section Randomizer.
Context {num : Type} {N : Number num} {ML : MathLib num} {G : NumpyRandom num}.

(** One call into [np.random] *)
Definition draw {A} (f : rng_state -> A * rng_state) : M rng_state A :=
  fun s => let '(a, s') := f s in (Ok a, s').

(** [l[i]] on a list *)
Definition list_getitem {A} (l : list A) (i : nat) : result A :=
  match nth_error l i with
  | Some x => Ok x
  | None => Raise IndexError
  end.

(** [np.random.uniform( *limits )]: missing bounds default to 0 and 1 *)
Definition uniform_star (limits : list num) : M rng_state num :=
  match limits with
  | [] => draw (np_uniform (of_Z 0) (of_Z 1))
  | [lo] => draw (np_uniform lo (of_Z 1))
  | [lo; hi] => draw (np_uniform lo hi)
  | _ => raise TypeError
  end.

Definition _randomize_one (model_info : ModelInfo num) (name : string)
    (v : value num) : M rng_state (value num) :=
  if endswith name "_pd" then
    let* par := lift_result (table_getitem (parameters model_info) (drop_last 3 name)) in
    if String.eqb (par_type par) "orientation" then
      let* b := draw (np_beta (dec 25 1) (of_Z 20)) in
      ret (VFloat (nmul (of_Z 180) b))
    else
      let* b := draw (np_beta (dec 15 1) (of_Z 7)) in
      ret (VFloat b)
  else if endswith name "_pd_n" then ret (VInt 0)
  else if endswith name "_pd_type" then ret (VStr "gaussian")
  else if endswith name "_pd_nsigma" then ret (VFloat (of_Z 3))
  else if String.eqb name "background" then
    let* u := draw (np_uniform (of_Z (-2)) (of_Z 0)) in
    ret (VFloat (py_pow (of_Z 10) u))
  else if String.eqb name "scale" then
    let* u := draw (np_uniform (of_Z (-3)) (dec (-5) 1)) in
    ret (VFloat (py_pow (of_Z 10) u))
  else
    let* par := lift_result (table_getitem (parameters model_info) name) in
    if (2 <? length (par_limits par))%nat then
      let* k := draw (np_randint (Z.of_nat (length (par_limits par)))) in
      ret (VInt k)
    else if forallb isfinite (par_limits par) then
      let* x := uniform_star (par_limits par) in
      ret (VFloat x)
    else if String.eqb (par_type par) "sld" then
      let* x := draw (np_uniform (dec (-5) 1) (of_Z 12)) in
      ret (VFloat x)
    else if startswith (par_name par) "M0:" then
      let* x := draw (np_uniform (of_Z 0) (of_Z 5)) in
      ret (VFloat x)
    else if String.eqb (par_type par) "volume"
            && (contains "length" (par_name par)
                || contains "radius" (par_name par)
                || contains "thick" (par_name par)) then
      let* u := draw (np_uniform (of_Z 2) (of_Z 4)) in
      ret (VFloat (py_pow (of_Z 10) u))
    else
      let* '(low, high) := lift_result (parameter_range (par_name par) v) in
      let* l0 := lift_result (list_getitem (par_limits par) 0) in
      let* l1 := lift_result (list_getitem (par_limits par) 1) in
      let* x := draw (np_uniform (py_max l0 low) (py_min l1 high)) in
      ret (VFloat x).

(** [name+str(k+1) for k in range(n)] *)
Definition numbered (name : string) (n : nat) : list string :=
  map (fun k => String.append name (str_of_nat (k + 1))) (seq 0 n).

(** The first loop of [_random_pd]: the volume candidates and the
    orientation names among the polydisperse parameters. *)
Fixpoint collect_pd (pd : list (ParameterInfo num)) (pars : pdict num)
    (pd_volume pd_oriented : list string) : result (list string * list string) :=
  match pd with
  | [] => Ok (pd_volume, pd_oriented)
  | p :: rest =>
      if String.eqb (par_type p) "orientation" then
        collect_pd rest pars pd_volume (pd_oriented ++ [par_name p])
      else
        match par_length_control p with
        | Some control =>
            result_bind (to_num (default (VInt 1) (dict_get control pars))) (fun x =>
            result_bind (py_int (nadd x (dec 5 1))) (fun n =>
              collect_pd rest pars
                (pd_volume ++ numbered (par_name p) (Z.to_nat n)) pd_oriented))
        | None =>
            if (1 <? par_length p)%nat then
              collect_pd rest pars
                (pd_volume ++ numbered (par_name p) (par_length p)) pd_oriented
            else
              collect_pd rest pars (pd_volume ++ [par_name p]) pd_oriented
        end
  end.

(** [pars[pd_volume[i] + "_pd_n"] = points] *)
Definition activate (pd_volume : list string) (i : nat) (points : Z)
    (pars : pdict num) : result (pdict num) :=
  result_bind (list_getitem pd_volume i) (fun name =>
    Ok (dict_set (String.append name "_pd_n") (VInt points) pars)).

(** [_random_pd] updates [pars] in place; here the updated dict is the
    result. *)
Definition _random_pd (model_info : ModelInfo num) (pars : pdict num)
    : M rng_state (pdict num) :=
  let kernel := kernel_parameters (parameters model_info) in
  let pd := List.filter par_polydisperse kernel in
  let* '(pd_volume, pd_oriented) := lift_result (collect_pd pd pars [] []) in
  let* u := draw np_rand in
  let n := length pd_volume in
  let* pars :=
    if nltb u (dec 1 2) || (n <? 1)%nat then ret pars
    else if nltb u (dec 86 2) || (n <? 2)%nat then
      let* i := draw (np_choice1 n) in
      lift_result (activate pd_volume i 35 pars)
    else if nltb u (dec 99 2) || (n <? 3)%nat then
      let* choices := draw (np_choice n 2) in
      let* c0 := lift_result (list_getitem choices 0) in
      let* pars := lift_result (activate pd_volume c0 25 pars) in
      let* c1 := lift_result (list_getitem choices 1) in
      lift_result (activate pd_volume c1 10 pars)
    else
      let* choices := draw (np_choice n 3) in
      let* c0 := lift_result (list_getitem choices 0) in
      let* pars := lift_result (activate pd_volume c0 25 pars) in
      let* c1 := lift_result (list_getitem choices 1) in
      let* pars := lift_result (activate pd_volume c1 10 pars) in
      let* c2 := lift_result (list_getitem choices 2) in
      lift_result (activate pd_volume c2 5 pars)
  in
  match pd_oriented with
  | [] => ret pars
  | _ :: _ =>
      let pars := dict_set "theta_pd_n" (VInt 20) pars in
      let* u1 := draw np_rand in
      let pars := if nltb u1 (dec 1 1) then dict_set "phi_pd_n" (VInt 5) pars
                  else pars in
      let* u2 := draw np_rand in
      ret (if nltb u2 (dec 1 1)
              && existsb (fun p => String.eqb (par_name p) "psi") kernel
           then dict_set "psi_pd_n" (VInt 5) pars
           else pars)
  end.

(** The order [sorted(pars.items())] compares items in: by key, since
    the keys of a dict are distinct. *)
Definition item_le (a b : string * value num) : Prop :=
  String.le (fst a) (fst b).

#[export] Instance item_le_dec : RelDecision item_le.
Proof. intros a b. unfold item_le. apply _. Defined.

(** [sorted(pars.items())] *)
Definition sorted_items (pars : pdict num) : list (string * value num) :=
  merge_sort item_le pars.

(** The generator expression of [randomize_pars]: one [_randomize_one]
    per item, in the order the items are given. *)
Definition randomize_items (model_info : ModelInfo num)
    (items : list (string * value num)) : M rng_state (list (string * value num)) :=
  map_M (fun pv => let* r := _randomize_one model_info (fst pv) (snd pv) in
                   ret (fst pv, r)) items.

Definition randomize_pars (model_info : ModelInfo num) (pars : pdict num)
    : M rng_state (pdict num) :=
  let* drawn := randomize_items model_info (sorted_items pars) in
  let random_pars := dict_of_items drawn in
  let* random_pars :=
    match random model_info with
    | Some hook =>
        let* overrides := draw hook in
        ret (dict_update random_pars overrides)
    | None => ret random_pars
    end in
  _random_pd model_info random_pars.

End Randomizer.

(* ================================================================== *)
(** * Process state: dict objects, clock, calculators, standard output *)
(* ================================================================== *)

(** A reference to a dict object. *)
Definition loc : Type := nat.

(** The five figures of a statistics line. *)
Record stats (num : Type) : Type := {
  st_max : num;
  st_median : num;
  st_p98 : num;
  st_rms : num;
  st_zero_offset : num
}.
Arguments st_max {num} _.
Arguments st_median {num} _.
Arguments st_p98 {num} _.
Arguments st_rms {num} _.
Arguments st_zero_offset {num} _.

(** What the driver prints, before formatting. *)
Inductive output (num : Type) : Type :=
  | EngineLine (engine : string) (time : num) (intensity : num)
  | InvalidLine (bad : list (num * num))
  | TracebackLine (e : exn)
  | StatsLine (label : string) (figures : option (stats num)).
Arguments EngineLine {num} _ _ _.
Arguments InvalidLine {num} _.
Arguments TracebackLine {num} _.
Arguments StatsLine {num} _ _.

Record process (num : Type) : Type := {
  heap : gmap loc (pdict num);
  clock : Z;
  calls : list (string * pdict num);
  stdout : list (output num)
}.
Arguments heap {num} _.
Arguments clock {num} _.
Arguments calls {num} _.
Arguments stdout {num} _.

(** A calculator: its engine tag and its behaviour.  A call receives the
    keyword arguments and may depend on every call made so far in the
    process; it yields an array or raises, and takes some microseconds. *)
Record Calculator (num : Type) : Type := {
  engine : string;
  behave : pdict num -> list (string * pdict num) -> result (list num) * Z
}.
Arguments engine {num} _.
Arguments behave {num} _ _ _.

Section Process.
Context {num : Type} {N : Number num}.

Definition set_heap (h : gmap loc (pdict num)) (w : process num) : process num :=
  {| heap := h; clock := clock w; calls := calls w; stdout := stdout w |}.

(** The dict a reference denotes.  Every reference the driver holds is
    live; a dangling one is reported as a RuntimeError. *)
Definition deref (r : loc) : M (process num) (pdict num) :=
  fun w => match heap w !! r with
           | Some d => (Ok d, w)
           | None => (Raise RuntimeError, w)
           end.

Definition write (r : loc) (d : pdict num) : M (process num) unit :=
  fun w => (Ok tt, set_heap (<[r := d]> (heap w)) w).

(** A new dict object *)
Definition new_dict (d : pdict num) : M (process num) loc :=
  fun w => let r := fresh (dom (heap w)) in
           (Ok r, set_heap (<[r := d]> (heap w)) w).

(** [pars.copy()] *)
Definition dict_copy (r : loc) : M (process num) loc :=
  let* d := deref r in new_dict d.

(** [list(pars)] *)
Definition ref_keys (r : loc) : M (process num) (list string) :=
  let* d := deref r in ret (dict_keys d).

(** [pars[k]] *)
Definition ref_getitem (r : loc) (k : string) : M (process num) (value num) :=
  let* d := deref r in lift_result (getitem k d).

(** [pars.get(k, dflt)] *)
Definition ref_get (r : loc) (k : string) (dflt : value num)
    : M (process num) (value num) :=
  let* d := deref r in ret (default dflt (dict_get k d)).

(** [k in pars] *)
Definition ref_contains (r : loc) (k : string) : M (process num) bool :=
  let* d := deref r in ret (bool_decide (is_Some (dict_get k d))).

(** [pars[k] = v] *)
Definition ref_setitem (r : loc) (k : string) (v : value num)
    : M (process num) unit :=
  let* d := deref r in write r (dict_set k v d).

(** [pars.update(other)] *)
Definition ref_update (r other : loc) : M (process num) unit :=
  let* d := deref r in
  let* d' := deref other in
  write r (dict_update d d').

(** A loop that threads local variables *)
Fixpoint fold_M {S A B} (f : B -> A -> M S B) (xs : list A) (b : B) : M S B :=
  match xs with
  | [] => ret b
  | x :: xs' => let* b' := f b x in fold_M f xs' b'
  end.

(* ================================================================ *)
(** * [suppress_pd], [suppress_magnetism] (compare.py, lines 538-593) *)
(* ================================================================ *)

Definition suppress_pd (pars : loc) (suppress : bool) : M (process num) loc :=
  let* pars := dict_copy pars in
  let* keys := ref_keys pars in
  (if suppress then
     for_each keys (fun p =>
       if endswith p "_pd_n" then ref_setitem pars p (VInt 0) else ret tt)
   else
     let* '(any_pd, first_pd) :=
       fold_M (fun '(any_pd, first_pd) p =>
         if endswith p "_pd_n" then
           let* pd := ref_get pars (drop_last 2 p) (VFloat (of_Z 0)) in
           let* n := ref_getitem pars p in
           ret (any_pd || (negb (py_is_zero n) && negb (py_is_zero pd)),
                match first_pd with None => Some p | Some _ => first_pd end)
         else ret (any_pd, first_pd)) keys (false, None) in
     match first_pd with
     | Some first_pd =>
         if any_pd then ret tt
         else
           let* n := ref_getitem pars first_pd in
           (if py_is_zero n then ref_setitem pars first_pd (VInt 35) else ret tt) ;;
           let* present := ref_contains pars (drop_last 2 first_pd) in
           let* width := ref_get pars (drop_last 2 first_pd) (VInt 0) in
           if negb present || py_is_zero width
           then ref_setitem pars (drop_last 2 first_pd) (VFloat (dec 15 2))
           else ret tt
     | None => ret tt
     end) ;;
  ret pars.

Definition suppress_magnetism (pars : loc) (suppress : bool)
    : M (process num) loc :=
  let* pars := dict_copy pars in
  let* keys := ref_keys pars in
  (if suppress then
     for_each keys (fun p =>
       if startswith p "M0:" then ref_setitem pars p (VInt 0) else ret tt)
   else
     let* '(any_mag, first_mag) :=
       fold_M (fun '(any_mag, first_mag) p =>
         if startswith p "M0:" then
           let* m := ref_getitem pars p in
           ret (any_mag || negb (py_is_zero m),
                match first_mag with None => Some p | Some _ => first_mag end)
         else ret (any_mag, first_mag)) keys (false, None) in
     match first_mag with
     | Some first_mag =>
         if any_mag then ret tt
         else ref_setitem pars first_mag (VFloat (of_Z 8))
     | None => ret tt
     end) ;;
  ret pars.

End Process.

(* ================================================================== *)
(** * [constrain_pars] (compare.py, lines 434-489) *)
(* ================================================================== *)

Section ConstraintRepair.
Context {num : Type} {N : Number num} {ML : MathLib num} {G : NumpyRandom num}.

(** [a + b] on values: ints add as ints, anything else as floats. *)
Definition py_add (a b : value num) : result (value num) :=
  match a, b with
  | VInt m, VInt n => Ok (VInt (m + n))
  | _, _ => result_bind (to_num a) (fun x =>
            result_bind (to_num b) (fun y => Ok (VFloat (nadd x y))))
  end.

(** [a / b] on values (true division) *)
Definition py_div (a b : value num) : result (value num) :=
  result_bind (to_num a) (fun x =>
  result_bind (to_num b) (fun y =>
  result_bind (py_truediv x y) (fun q => Ok (VFloat q)))).

(** [pars[t1], pars[t2] = pars[s1], pars[s2]] *)
Definition assign_pair (pars : loc) (t1 t2 s1 s2 : string)
    : M (process num) unit :=
  let* v1 := ref_getitem pars s1 in
  let* v2 := ref_getitem pars s2 in
  ref_setitem pars t1 v1 ;;
  ref_setitem pars t2 v2.

(** [pars[a] < pars[b]] *)
Definition item_lt (pars : loc) (a b : string) : M (process num) bool :=
  let* x := ref_getitem pars a in
  let* y := ref_getitem pars b in
  lift_result (py_lt x y).

(** The keys ['Phi'+c for c in '1234'] *)
Definition phi_keys : list string :=
  map (String.append "Phi") ["1"; "2"; "3"; "4"]%string.

Definition constrain_pars (model_info : ModelInfo num) (pars : loc)
    : M (process num) unit :=
  let name := id model_info in
  let name := if contains "*" name then split_head "*" name else name in
  (if Iq_callable model_info then
     let* nonmagnetic := suppress_magnetism pars true in
     ref_update pars nonmagnetic
   else ret tt) ;;
  if String.eqb name "barbell" then
    let* swap := item_lt pars "radius_bell" "radius" in
    if swap then assign_pair pars "radius" "radius_bell" "radius_bell" "radius"
    else ret tt
  else if String.eqb name "capped_cylinder" then
    let* swap := item_lt pars "radius_cap" "radius" in
    if swap then assign_pair pars "radius" "radius_cap" "radius_cap" "radius"
    else ret tt
  else if String.eqb name "guinier" then
    let q_max := of_Z 1 in
    let* scale := ref_getitem pars "scale" in
    let* scale := lift_result (to_num scale) in
    let rg_max :=
      ndiv (np_sqrt (nadd (nmul (of_Z 90) (np_log (of_Z 10)))
                          (nmul (of_Z 3) (np_log scale)))) q_max in
    let* rg := ref_getitem pars "rg" in
    let* rg_num := lift_result (to_num rg) in
    ref_setitem pars "rg" (if nltb rg_max rg_num then VFloat rg_max else rg)
  else if String.eqb name "pearl_necklace" then
    let* swap := item_lt pars "radius" "thick_string" in
    if swap then assign_pair pars "radius" "thick_string" "thick_string" "radius"
    else ret tt
  else if String.eqb name "rpa" then
    let* case_num := ref_getitem pars "case_num" in
    let* below2 := lift_result (py_lt case_num (VInt 2)) in
    (if below2 then
       ref_setitem pars "Phi1" (VFloat (of_Z 0)) ;;
       ref_setitem pars "Phi2" (VFloat (of_Z 0))
     else
       let* case_num := ref_getitem pars "case_num" in
       let* below5 := lift_result (py_lt case_num (VInt 5)) in
       if below5 then ref_setitem pars "Phi1" (VFloat (of_Z 0)) else ret tt) ;;
    let* total :=
      fold_M (fun acc key =>
                let* phi := ref_getitem pars key in
                lift_result (py_add acc phi)) phi_keys (VInt 0) in
    for_each phi_keys (fun key =>
      let* phi := ref_getitem pars key in
      let* q := lift_result (py_div phi total) in
      ref_setitem pars key q)
  else ret tt.

End ConstraintRepair.

(* ================================================================== *)
(** * [tic], [time_calculation] (compare.py, lines 234-243, 741-759) *)
(* ================================================================== *)

Section TimedEvaluator.
Context {num : Type} {N : Number num}.

(** [delay(dt)]: a time difference in seconds; the clock counts
    microseconds. *)
Definition delay (dt : Z) : num := ndiv (of_Z dt) (of_Z 1000000).

(** [datetime.datetime.now()] *)
Definition now : M (process num) Z := fun w => (Ok (clock w), w).

(** [tic()] returns the closure [toc]. *)
Definition tic : M (process num) (M (process num) num) :=
  let* then_ := now in
  ret (let* t := now in ret (delay (t - then_))).

(** [calculator( **pars )]: the callee receives the items of the dict
    as keyword arguments, not the dict object.  The call is recorded
    and takes the time the calculator reports. *)
Definition call (calculator : Calculator num) (pars : loc)
    : M (process num) (list num) :=
  let* kwargs := deref pars in
  fun w =>
    let '(r, dt) := behave calculator kwargs (calls w) in
    (r, {| heap := heap w; clock := (clock w + dt)%Z;
           calls := calls w ++ [(engine calculator, kwargs)];
           stdout := stdout w |}).

(** [for _ in range(n): value = body] *)
Fixpoint repeat_M {S A} (n : nat) (body : M S A) (value : A) : M S A :=
  match n with
  | O => ret value
  | S n' => let* value := body in repeat_M n' body value
  end.

Definition time_calculation (calculator : Calculator num) (pars : loc)
    (evals : Z) : M (process num) (list num * num) :=
  (if (1 <? evals)%Z then
     let* mono := suppress_pd pars true in
     call calculator mono ;; ret tt
   else ret tt) ;;
  let* toc := tic in
  let* value := call calculator pars in
  let* value := repeat_M (Z.to_nat (evals - 1)) (call calculator pars) value in
  let* elapsed := toc in
  let* average_time :=
    lift_result (py_truediv_int (nmul elapsed (of_Z 1000)) evals) in
  ret (value, average_time).

End TimedEvaluator.

(* ================================================================== *)
(** * Masked arrays, as [run_models] uses numpy.ma *)
(* ================================================================== *)

(** A masked array: each entry is its datum and its mask bit. *)
Abbreviation marray num := (list (num * bool)).

Section MaskedArrays.
Context {num : Type} {N : Number num}.

Definition ma_data (a : marray num) : list num := map fst a.
Definition ma_mask (a : marray num) : list bool := map snd a.

(** [np.ma.masked_invalid(raw)]: NaN and infinities are masked, the
    data are kept. *)
Definition masked_invalid (raw : list num) : marray num :=
  map (fun x => (x, negb (isfinite x))) raw.

(** [a.compressed()]: the data of the unmasked entries *)
Definition compressed (a : marray num) : list num :=
  map fst (List.filter (fun e : num * bool => negb (snd e)) a).

(** Summation, left to right.  (numpy sums pairwise, which rounds
    differently on long arrays of floats.) *)
Definition np_sum (l : list num) : num := fold_left nadd l (of_Z 0).

(** [a.sum()] *)
Definition ma_sum (a : marray num) : num := np_sum (compressed a).

(** [a - b] on masked arrays of one shape: the masks are joined, a
    masked entry keeps the left datum. *)
Definition ma_sub (a b : marray num) : result (marray num) :=
  if (length a =? length b)%nat then
    Ok (zip_with (fun ea eb : num * bool =>
                    let m := snd ea || snd eb in
                    (if m then fst ea else nsub (fst ea) (fst eb), m)) a b)
  else Raise ValueError.

(** [base_value - comp_value] where either name may still hold [None] *)
Definition py_sub (a b : option (marray num)) : result (marray num) :=
  match a, b with
  | Some a, Some b => ma_sub a b
  | _, _ => Raise TypeError
  end.

(** The data of [a != 0.]; a masked entry compares as different. *)
Definition ma_ne0 (a : marray num) : list bool :=
  map (fun e : num * bool => snd e || negb (neqb (fst e) (of_Z 0))) a.

(** [abs(a)]; a masked entry keeps its datum. *)
Definition ma_abs (a : marray num) : marray num :=
  map (fun e : num * bool => (if snd e then fst e else nabs (fst e), snd e)) a.

(** [np.where(cond, x, y)] with a scalar [y] *)
Definition np_where (cond : list bool) (x : list num) (y : num) : list num :=
  zip_with (fun (c : bool) xi => if c then xi else y) cond x.

(** [x >= y] *)
Definition ngeb (x y : num) : bool := nltb y x || neqb x y.

(** [a / d] for a masked [a] and a plain array [d]: numpy.ma's domained
    division.  Besides the mask of [a], an entry is masked when the
    quotient is not finite or the divisor is negligible against the
    numerator ([|a| * tiny >= |d|]); a masked entry keeps the
    numerator.  (numpy then adds a zero of the numerator's sign to the
    unmasked quotients, which leaves them as they are when the divisor
    is positive, as it is in [run_models].) *)
Definition ma_truediv (a : marray num) (d : list num) : result (marray num) :=
  if (length a =? length d)%nat then
    Ok (zip_with (fun (ea : num * bool) di =>
                    let q := ndiv (fst ea) di in
                    let m := negb (isfinite q)
                             || ngeb (nmul (nabs (fst ea)) tiny) (nabs di)
                             || snd ea in
                    (if m then fst ea else q, m)) a d)
  else Raise ValueError.

(** The denominator of the relative error:
    [np.where(comp_value != 0., abs(comp_value), 1.0)] *)
Definition relerr_denominator (comp_value : option (marray num)) : result (list num) :=
  match comp_value with
  | Some c => Ok (np_where (ma_ne0 c) (ma_data (ma_abs c)) (of_Z 1))
  | None => Raise TypeError
  end.

End MaskedArrays.

(* ================================================================== *)
(** * [_show_invalid], [run_models], [_print_stats]
      (compare.py, lines 804-911) *)
(* ================================================================== *)

(** The evaluation grid, as far as the comparison reads it: the
    attribute [x] of 1-D data. *)
Record Data (num : Type) : Type := { data_x : option (list num) }.
Arguments data_x {num} _.

(** The entries of [opts] that [run_models] reads. *)
Record options (num : Type) : Type := {
  engines : Calculator num * option (Calculator num);
  count : Z * Z;
  pars : loc * loc;
  data : Data num
}.
Arguments engines {num} _.
Arguments count {num} _.
Arguments pars {num} _.
Arguments data {num} _.

(** The dict [run_models] returns. *)
Record run_result (num : Type) : Type := {
  base_value : option (marray num);
  comp_value : option (marray num);
  base_time : option num;
  comp_time : option num;
  resid : option (marray num);
  relerr : option (marray num)
}.
Arguments base_value {num} _.
Arguments comp_value {num} _.
Arguments base_time {num} _.
Arguments comp_time {num} _.
Arguments resid {num} _.
Arguments relerr {num} _.

Section ComparisonEngine.
Context {num : Type} {N : Number num} {ML : MathLib num}.

(** [print(...)] *)
Definition print (line : output num) : M (process num) unit :=
  fun w => (Ok tt, {| heap := heap w; clock := clock w; calls := calls w;
                      stdout := stdout w ++ [line] |}).

Definition _show_invalid (data : Data num) (theory : marray num)
    : M (process num) unit :=
  if negb (existsb (fun m => m) (ma_mask theory)) then ret tt
  else
    match data_x data with
    | Some x =>
        if (length x =? length theory)%nat then
          print (InvalidLine
                   (map (fun xe => (fst xe, fst (snd xe)))
                        (List.filter (fun xe => snd (snd xe)) (zip x theory))))
        else raise IndexError
    | None => ret tt
    end.

(** The order [np.sort] sorts by: [a] may precede [b] unless [b < a]. *)
Definition num_le (a b : num) : Prop := nltb b a = false.

#[export] Instance num_le_dec : RelDecision num_le.
Proof. intros a b. unfold num_le. apply _. Defined.

(** [np.sort]: ascending *)
Definition np_sort (l : list num) : list num := merge_sort num_le l.

(** [np.mean] *)
Definition np_mean (l : list num) : num :=
  ndiv (np_sum l) (of_Z (Z.of_nat (length l))).

(** [int((len(sorted_err)-1)*p)] *)
Definition percentile_index (n : nat) (p : num) : result Z :=
  py_int (nmul (of_Z (Z.of_nat n - 1)) p).

(** [sorted_err[i]] for a non-negative [i] *)
Definition array_getitem (l : list num) (i : Z) : result num :=
  if (i <? 0)%Z then Raise IndexError
  else list_getitem l (Z.to_nat i).

Definition _print_stats (label : string) (err : marray num)
    : M (process num) unit :=
  let sorted_err := np_sort (map nabs (compressed err)) in
  if (length sorted_err =? 0)%nat then
    print (StatsLine (String.append label "  no valid values") None)
  else
    let* p50 := lift_result (percentile_index (length sorted_err) (dec 50 2)) in
    let* p98 := lift_result (percentile_index (length sorted_err) (dec 98 2)) in
    let* top := lift_result (list_getitem sorted_err (length sorted_err - 1)) in
    let* median := lift_result (array_getitem sorted_err p50) in
    let* pct98 := lift_result (array_getitem sorted_err p98) in
    print (StatsLine label
             (Some {| st_max := top;
                      st_median := median;
                      st_p98 := pct98;
                      st_rms := np_sqrt (np_mean (map (fun e => nmul e e) sorted_err));
                      st_zero_offset := np_mean sorted_err |})).

Definition is_ImportError (e : exn) : bool :=
  match e with ImportError => true | _ => false end.

(** One side of [run_models]: the [try] block with its
    [except ImportError] handler.  The two names stay [None] when the
    handler runs. *)
Definition run_side (calculator : Calculator num) (pars : loc) (n : Z)
    (verbose : bool) (data : Data num)
    : M (process num) (option (marray num) * option num) :=
  try_except
    (let* '(raw, time) := time_calculation calculator pars n in
     let value := masked_invalid raw in
     (if verbose
      then print (EngineLine (engine calculator) time (ma_sum value))
      else ret tt) ;;
     _show_invalid data value ;;
     ret (Some value, Some time))
    is_ImportError
    (fun e => print (TracebackLine e) ;; ret (None, None)).

Definition run_models (opts : options num) (verbose : bool)
    : M (process num) (run_result num) :=
  let '(base, comp) := engines opts in
  let '(base_n, comp_n) := count opts in
  let '(base_pars, comp_pars) := pars opts in
  let data := data opts in
  let* '(base_value, base_time) := run_side base base_pars base_n verbose data in
  let* '(comp_value, comp_time) :=
    match comp with
    | Some comp => run_side comp comp_pars comp_n verbose data
    | None => ret (None, None)
    end in
  let* '(resid, relerr) :=
    match comp with
    | Some comp =>
        let* resid := lift_result (py_sub base_value comp_value) in
        let* denominator := lift_result (relerr_denominator comp_value) in
        let* relerr := lift_result (ma_truediv resid denominator) in
        (if verbose then
           _print_stats
             (String.append
                (String.append "|" (String.append (engine base)
                   (String.append "-" (String.append (engine comp) "|"))))
                (str_repeat " " (3 + String.length (engine comp))))
             resid ;;
           _print_stats
             (String.append "|(" (String.append (engine base)
                (String.append "-" (String.append (engine comp)
                   (String.append ")/" (String.append (engine comp) "|"))))))
             relerr
         else ret tt) ;;
        ret (Some resid, Some relerr)
    | None => ret (None, None)
    end in
  ret {| base_value := base_value; comp_value := comp_value;
         base_time := base_time; comp_time := comp_time;
         resid := resid; relerr := relerr |}.

End ComparisonEngine.

(* ================================================================== *)
(** * Fixtures for the examples, and the notions the statements use *)
(* ================================================================== *)

(** A generator whose outcomes are read off a script, one entry per
    draw: [rand] yields the entry as hundredths, [randint] and [choice]
    reduce it below their bound.  It serves to run the model on chosen
    draw sequences; the general statements hold for every
    [NumpyRandom]. *)
Module Scripted.

Definition next (s : list Z) : Z * list Z :=
  match s with
  | [] => (0%Z, [])
  | z :: s' => (z, s')
  end.

Definition index_below (n : nat) (z : Z) : nat :=
  Z.to_nat (z mod Z.of_nat n).

Definition choice1 (n : nat) (s : list Z) : nat * list Z :=
  let '(z, s') := next s in (index_below n z, s').

Fixpoint choice (n k : nat) (s : list Z) : list nat * list Z :=
  match k with
  | O => ([], s)
  | S k' =>
      let '(i, s') := choice1 n s in
      let '(l, s'') := choice n k' s' in
      (i :: l, s'')
  end.

(** The script a seed stands for: a short linear congruential run. *)
Fixpoint lcg (n : nat) (x : Z) : list Z :=
  match n with
  | O => []
  | S n' => let y := ((1103515245 * x + 12345) mod 2 ^ 31)%Z in y :: lcg n' y
  end.

Section Draws.
Context {num : Type} {N : Number num}.

Definition rand (s : list Z) : num * list Z :=
  let '(z, s') := next s in (ndiv (of_Z (z mod 100)) (of_Z 100), s').

Definition uniform (lo hi : num) (s : list Z) : num * list Z :=
  let '(u, s') := rand s in (nadd lo (nmul (nsub hi lo) u), s').

Definition beta (a b : num) (s : list Z) : num * list Z := rand s.

Definition randint (n : Z) (s : list Z) : Z * list Z :=
  let '(z, s') := next s in ((z mod n)%Z, s').

End Draws.

Lemma choice1_lt n s : (0 < n)%nat -> (fst (choice1 n s) < n)%nat.
Proof.
  intros Hn. unfold choice1, index_below. destruct (next s) as [z s']. simpl.
  pose proof (Z.mod_pos_bound z (Z.of_nat n)). lia.
Qed.

Lemma choice_length n k s : length (fst (choice n k s)) = k.
Proof.
  revert s. induction k as [|k IH]; intros s; simpl; [reflexivity|].
  destruct (choice1 n s) as [i s']. specialize (IH s').
  destruct (choice n k s') as [l s'']. simpl in *. lia.
Qed.

Lemma choice_lt n k s :
  (0 < n)%nat -> Forall (fun i => (i < n)%nat) (fst (choice n k s)).
Proof.
  intros Hn. revert s. induction k as [|k IH]; intros s; simpl; [constructor|].
  pose proof (choice1_lt n s Hn) as Hi.
  destruct (choice1 n s) as [i s']. specialize (IH s').
  destruct (choice n k s') as [l s'']. simpl in *. by constructor.
Qed.

Definition generator (num : Type) {N : Number num} : NumpyRandom num := {|
  rng_state := list Z;
  seed_state := lcg 16;
  np_rand := rand;
  np_uniform := uniform;
  np_beta := beta;
  np_randint := randint;
  np_choice1 := choice1;
  np_choice := choice;
  np_choice1_lt := choice1_lt;
  np_choice_length := choice_length;
  np_choice_lt := choice_lt
|}.

End Scripted.

(** Calculators for the examples: one that returns a fixed array and
    takes a fixed time, one whose backend is missing when called. *)
Definition constant_calculator {num} (tag : string) (out : list num) (dt : Z)
    : Calculator num :=
  {| engine := tag; behave := fun _ _ => (Ok out, dt) |}.

Definition missing_calculator {num} (tag : string) : Calculator num :=
  {| engine := tag; behave := fun _ _ => (Raise ImportError, 0%Z) |}.

Definition empty_process {num} (h : gmap loc (pdict num)) : process num :=
  {| heap := h; clock := 0; calls := []; stdout := [] |}.

(** binary64 with its square root; the examples below use neither the
    logarithm nor the power, which are left as the identity. *)
Definition float_lib : MathLib float := float_math (fun x => x) (fun x _ => x).


(** A process whose generator has the draws [script] ahead of it and
    whose operating system hands out [entropy] on a reseed. *)
Definition scripted_world (script entropy : list Z)
    : @rng_world float (Scripted.generator float) :=
  @Build_rng_world float (Scripted.generator float) script (fun _ => entropy) 0.

(** The loop [for p in pars: if test(p): pars[p] = 0] of the two
    suppress functions, on the dict itself. *)
Definition zero_step {num} (test : string -> bool) (acc : pdict num) (p : string)
    : pdict num :=
  if test p then dict_set p (VInt 0) acc else acc.
Definition zero_keys {num} (test : string -> bool) (d : pdict num) : pdict num :=
  fold_left (zero_step test) (dict_keys d) d.

(** What [suppress_pd(pars, True)] and [suppress_magnetism(pars, True)]
    leave in their copy. *)
Definition monodisperse {num} (d : pdict num) : pdict num :=
  zero_keys (fun p => endswith p "_pd_n") d.
Definition nonmagnetic {num} (d : pdict num) : pdict num :=
  zero_keys (fun p => startswith p "M0:") d.

(** [frame_except r w w']: from [w] to [w'] nothing changed but,
    possibly, the dict object [r]. *)
Definition frame_except {num} (r : loc) (w w' : process num) : Prop :=
  (forall r0, r0 <> r -> heap w' !! r0 = heap w !! r0)
  /\ clock w' = clock w /\ calls w' = calls w /\ stdout w' = stdout w.

(** A computation that writes to no dict object other than [r]. *)
Definition writes_only {num A} (r : loc) (m : M (process num) A) : Prop :=
  forall w, frame_except r w (snd (m w)).



(** A parameter set and a process holding it, for the examples. *)
Definition demo_pars : pdict float :=
  [ ("radius", VFloat 20%float); ("radius_pd", VFloat 0.25%float);
    ("radius_pd_n", VInt 10); ("M0:sld", VFloat 2%float) ]%string.

Definition demo_process : process float := empty_process {[ 0%nat := demo_pars ]}.




(** Every dict object live in [w] is live and unchanged in [w']. *)
Definition live_preserved {num} (w w' : process num) : Prop :=
  forall r d, heap w !! r = Some d -> heap w' !! r = Some d.


(** A two-engine run whose comparison backend is missing at call time,
    one whose base backend is, and a single-engine run with a missing
    backend. *)
Definition missing_comp_run : options float :=
  {| engines := (constant_calculator "OCL32" [1%float] 1500,
                 Some (missing_calculator "sasview"));
     count := (1%Z, 1%Z); pars := (0%nat, 0%nat);
     data := {| data_x := Some [0.5%float] |} |}.

Definition missing_base_run : options float :=
  {| engines := (missing_calculator "sasview",
                 Some (constant_calculator "OCL32" [1%float] 1500));
     count := (1%Z, 1%Z); pars := (0%nat, 0%nat);
     data := {| data_x := Some [0.5%float] |} |}.

Definition missing_single_run : options float :=
  {| engines := (missing_calculator "sasview", None);
     count := (1%Z, 1%Z); pars := (0%nat, 0%nat);
     data := {| data_x := Some [0.5%float] |} |}.

(** A model with three polydisperse volume parameters and no orientation. *)
Definition volume_par (name : string) : ParameterInfo float :=
  {| par_name := name; par_type := "volume";
     par_limits := [0%float; infinity]; par_polydisperse := true;
     par_length_control := None; par_length := 1 |}.

Definition three_volume_model : @ModelInfo float (Scripted.generator float) :=
  @Build_ModelInfo float (Scripted.generator float) "cylinder_shell"
    {| kernel_parameters :=
         [volume_par "radius"; volume_par "length"; volume_par "thickness"];
       call_parameters :=
         [volume_par "radius"; volume_par "length"; volume_par "thickness"] |}
    None false.



(** The process [w] with the dict object [r] holding [d]. *)
Definition at_dict {num} (w : process num) (r : loc) (d : pdict num)
    : process num :=
  set_heap (<[r := d]> (heap w)) w.

(** The [rpa] model and a parameter set for it. *)
Definition rpa_model (num : Type) {N : Number num}
    : @ModelInfo num (Scripted.generator num) :=
  @Build_ModelInfo num (Scripted.generator num) "rpa"
    {| kernel_parameters := []; call_parameters := [] |} None false.

Definition rpa_pars_float : pdict float :=
  [ ("case_num", VInt 3); ("Phi1", VFloat 0.25%float);
    ("Phi2", VFloat (3 / 10)%float); ("Phi3", VFloat (1 / 10)%float);
    ("Phi4", VFloat (7 / 10)%float) ]%string.

(** [pars['Phi1'] + pars['Phi2'] + pars['Phi3'] + pars['Phi4']] in binary64 *)
Definition phi_sum (d : pdict float) : option float :=
  match dict_get "Phi1" d, dict_get "Phi2" d, dict_get "Phi3" d, dict_get "Phi4" d with
  | Some (VFloat a), Some (VFloat b), Some (VFloat c), Some (VFloat e) =>
      Some (a + b + c + e)%float
  | _, _, _, _ => None
  end.


(** An array of which every entry is masked. *)
Definition all_masked {num} (raw : list num) : marray num :=
  map (fun x => (x, true)) raw.

(** Whether, for every count from 1 to [bound], the binary64 index
    [int((n-1)*p)] with [p = m/100] is the exact [floor((n-1)*m/100)]. *)
Definition percentile_index_exact_upto (m : Z) (bound : nat) : bool :=
  forallb (fun n =>
             match percentile_index (num := float) n (dec m 2) with
             | Ok i => (i =? (Z.of_nat n - 1) * m / 100)%Z
             | Raise _ => false
             end) (seq 1 bound).

(** The result of a run in which nothing was computed. *)
Definition no_result {num} : run_result num :=
  {| base_value := None; comp_value := None; base_time := None;
     comp_time := None; resid := None; relerr := None |}.

(** A computation after which every dict object that was live is still
    live and unchanged, whatever its outcome. *)
Definition keeps_live {num A} (m : M (process num) A) : Prop :=
  forall w, live_preserved w (snd (m w)).


(** The point counts [_random_pd] assigns. *)
Definition pd_points : list Z := [35; 25; 10; 5; 20]%Z.

(** [pars'] is [pars] with, possibly, entries under keys ending in
    [_pd_n] set to one of the point counts: no key is lost, no other
    entry differs. *)
Definition only_point_counts_set {num} (pars pars' : pdict num) : Prop :=
  (forall k, endswith k "_pd_n" = false -> dict_get k pars' = dict_get k pars)
  /\ (forall k, k ∈ dict_keys pars -> k ∈ dict_keys pars')
  /\ (forall k v, dict_get k pars' = Some v ->
        dict_get k pars = Some v \/ exists c, v = VInt c /\ c ∈ pd_points).

(** [on_return m P]: whenever [m] returns, its result satisfies [P]. *)
Definition on_return {S A} (m : M S A) (P : A -> Prop) : Prop :=
  forall s a s', m s = (Ok a, s') -> P a.

(* ================================================================== *)
(** * [random] of the polymer micelle model
      (models/polymer_micelle.py, lines 103-130) *)
(* ================================================================== *)

Section PolymerMicelle.
Context {num : Type} {N : Number num} {ML : MathLib num} {G : NumpyRandom num}.

(** [numpy.pi], [np.random.randn()] and [np.random.randint(low, high)],
    which the hook uses besides the draws of [NumpyRandom]. *)
Variable pi : num.
Variable np_randn : rng_state -> num * rng_state.
Variable np_randint_range : Z -> Z -> rng_state -> Z * rng_state.

Definition polymer_micelle_random (s : rng_state) : pdict num * rng_state :=
  let '(u, s) := np_uniform (of_Z 1) (of_Z 3) s in
  let radius_core := py_pow (of_Z 10) u in
  let '(u, s) := np_uniform (of_Z (-2)) (dec (-3) 1) s in
  let rg := nmul radius_core (py_pow (of_Z 10) u) in
  let '(z, s) := np_randn s in
  let d_penetration := nadd (nmul z (dec 5 2)) (of_Z 1) in
  let '(n_aggreg, s) := np_randint_range 3 30 s in
  let v_core :=
    nmul (ndiv (nmul (ndiv (nmul (of_Z 4) pi) (of_Z 3))
                     (py_pow radius_core (of_Z 3)))
               (of_Z n_aggreg))
         (dec 68 2) in
  let '(tail_segments, s) := np_randint_range 6 30 s in
  let v_corona :=
    nmul (nmul pi (py_pow rg (of_Z 3)))
         (np_sqrt (ndiv (of_Z 6) (of_Z tail_segments))) in
  let V := nmul (ndiv (nmul (of_Z 4) pi) (of_Z 3))
                (py_pow (nadd radius_core rg) (of_Z 3)) in
  ([ ("background", VInt 0);
     ("scale", VFloat (ndiv (of_Z 10000000) V));
     ("ndensity", VFloat (dec 894 2));
     ("v_core", VFloat v_core);
     ("v_corona", VFloat v_corona);
     ("radius_core", VFloat radius_core);
     ("rg", VFloat rg);
     ("d_penetration", VFloat d_penetration);
     ("n_aggreg", VInt n_aggreg) ]%string, s).

End PolymerMicelle.

(** A model with one polydisperse volume parameter and two polydisperse
    orientation parameters, for the examples. *)
Definition orientation_par (name : string) : ParameterInfo float :=
  {| par_name := name; par_type := "orientation";
     par_limits := [(-360)%float; 360%float]; par_polydisperse := true;
     par_length_control := None; par_length := 1 |}.

Definition oriented_model : @ModelInfo float (Scripted.generator float) :=
  @Build_ModelInfo float (Scripted.generator float) "cylinder"
    {| kernel_parameters :=
         [volume_par "radius"; orientation_par "theta"; orientation_par "phi"];
       call_parameters :=
         [volume_par "radius"; orientation_par "theta"; orientation_par "phi"] |}
    None false.

(** The polymer micelle model for the examples: its parameter table
    (models/polymer_micelle.py, lines 85-96; none of the parameters is
    polydisperse) and its hook, with scripted [randn] and [randint]. *)
Definition micelle_par (name type : string) (lo : float) : ParameterInfo float :=
  {| par_name := name; par_type := type;
     par_limits := [lo; infinity]; par_polydisperse := false;
     par_length_control := None; par_length := 1 |}.

Definition micelle_parameters : list (ParameterInfo float) :=
  [ micelle_par "ndensity" "" 0; micelle_par "v_core" "" 0;
    micelle_par "v_corona" "" 0; micelle_par "sld_solvent" "sld" 0;
    micelle_par "sld_core" "sld" 0; micelle_par "sld_corona" "sld" 0;
    micelle_par "radius_core" "" 0; micelle_par "rg" "" 0;
    micelle_par "d_penetration" "" neg_infinity;
    micelle_par "n_aggreg" "" neg_infinity ]%float.

Definition scripted_randint_range (lo hi : Z) (s : list Z) : Z * list Z :=
  let '(z, s') := Scripted.next s in ((lo + z mod (hi - lo))%Z, s').

Definition micelle_model : @ModelInfo float (Scripted.generator float) :=
  @Build_ModelInfo float (Scripted.generator float) "polymer_micelle"
    {| kernel_parameters := micelle_parameters;
       call_parameters := micelle_parameters |}
    (Some (polymer_micelle_random (ML := float_lib) (G := Scripted.generator float)
             0x1.921fb54442d18p+1%float Scripted.rand scripted_randint_range))
    false.

Definition micelle_pars : pdict float :=
  [ ("scale", VFloat 1%float); ("background", VFloat 0.25%float);
    ("ndensity", VFloat (894 / 100)%float); ("radius_core", VFloat 45%float);
    ("rg", VFloat 20%float) ]%string.


(** What the first step of [constrain_pars] leaves in the caller's
    dict: for a model whose [Iq] is a Python callable the dict is
    updated with its copy without magnetism. *)
Definition python_repair {num} (callable : bool) (d : pdict num) : pdict num :=
  if callable then dict_update d (nonmagnetic d) else d.

(** The models whose two radii [constrain_pars] keeps in order, each
    with the parameter that must not be the larger one and the parameter
    that must not be the smaller one. *)
Definition ordered_radii : list (string * string * string) :=
  [ ("barbell", "radius", "radius_bell");
    ("capped_cylinder", "radius", "radius_cap");
    ("pearl_necklace", "thick_string", "radius") ]%string.

(** A parameter set for the barbell model, in binary64. *)
Definition barbell_model : @ModelInfo float (Scripted.generator float) :=
  @Build_ModelInfo float (Scripted.generator float) "barbell"
    {| kernel_parameters := []; call_parameters := [] |} None true.

Definition barbell_pars : pdict float :=
  [ ("radius", VFloat 30%float); ("radius_bell", VFloat 20%float);
    ("length", VFloat 400%float); ("M0:sld", VFloat 2%float) ]%string.

Definition guinier_model : @ModelInfo float (Scripted.generator float) :=
  @Build_ModelInfo float (Scripted.generator float) "guinier"
    {| kernel_parameters := []; call_parameters := [] |} None false.

Definition guinier_pars : pdict float :=
  [ ("scale", VFloat 16%float); ("rg", VFloat 50%float) ]%string.


(** The tests of the two switches for "this entry is on":
    [pars[p] != 0 and pars.get(p[:-2], 0.) != 0.] for a key ending in
    [_pd_n], and [pars[p] != 0] for a key starting with [M0:]. *)
Definition is_polydisperse {num} {N : Number num} (d : pdict num) (p : string)
    : bool :=
  endswith p "_pd_n"
  && match dict_get p d with Some n => negb (py_is_zero n) | None => false end
  && negb (py_is_zero (default (VFloat (of_Z 0)) (dict_get (drop_last 2 p) d))).

Definition is_magnetic {num} {N : Number num} (d : pdict num) (p : string)
    : bool :=
  startswith p "M0:"
  && match dict_get p d with Some m => negb (py_is_zero m) | None => false end.

(** The first key, in iteration order, that passes a test. *)
Definition first_key (test : string -> bool) (keys : list string) : option string :=
  List.find test keys.

(** What [suppress_magnetism(pars, False)] and [suppress_pd(pars, False)]
    leave in their copy. *)
Definition magnetized {num} {N : Number num} (d : pdict num) : pdict num :=
  match first_key (fun p => startswith p "M0:") (dict_keys d) with
  | Some first_mag =>
      if existsb (is_magnetic d) (dict_keys d) then d
      else dict_set first_mag (VFloat (of_Z 8)) d
  | None => d
  end.

Definition dispersed {num} {N : Number num} (d : pdict num) : pdict num :=
  match first_key (fun p => endswith p "_pd_n") (dict_keys d) with
  | Some first_pd =>
      if existsb (is_polydisperse d) (dict_keys d) then d
      else
        let d1 :=
          if py_is_zero (default (VInt 0) (dict_get first_pd d))
          then dict_set first_pd (VInt 35) d else d in
        if negb (bool_decide (is_Some (dict_get (drop_last 2 first_pd) d1)))
           || py_is_zero (default (VInt 0) (dict_get (drop_last 2 first_pd) d1))
        then dict_set (drop_last 2 first_pd) (VFloat (dec 15 2)) d1
        else d1
  | None => d
  end.

(** A parameter set with dispersion and magnetism declared but off. *)
Definition plain_pars : pdict float :=
  [ ("radius", VFloat 20%float); ("radius_pd_n", VInt 0);
    ("length_pd", VFloat 0.5%float); ("length_pd_n", VInt 0);
    ("M0:sld", VFloat 0%float); ("M0:sld_solvent", VInt 0) ]%string.


(* ================================================================== *)
(** * [columnize] (compare.py, lines 1031-1046) *)
(* ================================================================== *)

(** [max(len(w) for w in items)]; [max] of an empty sequence is a
    ValueError. *)
Definition max_len (items : list string) : result Z :=
  match items with
  | [] => Raise ValueError
  | w :: rest =>
      Ok (fold_left (fun m w => Z.max m (Z.of_nat (String.length w))) rest
            (Z.of_nat (String.length w)))
  end.

(** [a // b] on ints: floor division, a zero divisor raises. *)
Definition py_floordiv (a b : Z) : result Z :=
  if (b =? 0)%Z then Raise ZeroDivisionError else Ok (a / b)%Z.

(** [range(n)] *)
Definition py_range (n : Z) : list Z := map Z.of_nat (seq 0 (Z.to_nat n)).

(** A bound of a slice of a sequence of length [len]: a negative bound
    counts from the end, and every bound is clipped to the sequence. *)
Definition slice_bound (len : nat) (i : Z) : nat :=
  if (i <? 0)%Z then Z.to_nat (Z.max 0 (Z.of_nat len + i))
  else Nat.min (Z.to_nat i) len.

(** [l[a:b]] *)
Definition py_slice {A} (l : list A) (a b : Z) : list A :=
  let lo := slice_bound (length l) a in
  let hi := slice_bound (length l) b in
  take (hi - lo) (drop lo l).

(** [zip( *columns )]: the rows, as many as the shortest column has
    entries; none when there is no column. *)
Definition shortest (columns : list (list string)) : nat :=
  match columns with
  | [] => 0
  | c :: cs => fold_left (fun m c => Nat.min m (length c)) cs (length c)
  end.

Definition zip_star (columns : list (list string)) : list (list string) :=
  map (fun i => map (fun c => nth i c EmptyString) columns)
      (seq 0 (shortest columns)).

(** ["%-*s" % (width, s)]: [s] left-justified in a field of [|width|]
    characters, never truncated. *)
Definition ljust (width : Z) (s : string) : string :=
  s +:+ str_repeat " " (Z.to_nat (Z.abs width) - String.length s).

(** [sep.join(l)] *)
Fixpoint str_join (sep : string) (l : list string) : string :=
  match l with
  | [] => EmptyString
  | [s] => s
  | s :: rest => s +:+ sep +:+ str_join sep rest
  end.

(** ["\n"] *)
Definition newline : string := String (ascii_of_nat 10) EmptyString.

Definition columnize (items : list string) (indent : string) (width : Z)
    : result string :=
  result_bind (max_len items) (fun widest =>
  let column_width := (widest + 1)%Z in
  result_bind (py_floordiv (width - Z.of_nat (String.length indent)) column_width)
    (fun num_columns =>
  result_bind (py_floordiv (Z.of_nat (length items)) num_columns) (fun num_rows =>
  let items :=
    items ++ replicate (Z.to_nat (num_rows * num_columns - Z.of_nat (length items)))
                       EmptyString in
  let columns :=
    map (fun k => py_slice items (k * num_rows) ((k + 1) * num_rows))
        (py_range num_columns) in
  let lines :=
    map (fun row => str_join " " (map (ljust column_width) row))
        (zip_star columns) in
  Ok (indent +:+ str_join (newline +:+ indent) lines)))).

(** The layout the items end up in: [rows] lines of [cols] fields, item
    [k * rows + i] in field [k] of line [i]. *)
Definition column_major (items : list string) (column_width : Z)
    (rows cols : nat) : list string :=
  map (fun i => str_join " "
                  (map (fun k => ljust column_width
                                   (nth (k * rows + i) items EmptyString))
                       (seq 0 cols)))
      (seq 0 rows).


(** A dict with the entries under the keys that pass [test] replaced
    by 0, entry by entry. *)
Definition zeroed {num} (test : string -> bool) (d : pdict num) : pdict num :=
  map (fun kv => (fst kv, if test (fst kv) then VInt 0 else snd kv)) d.




(** A parameter set of the [rpa] model whose third and fourth fractions
    are zero, in binary64. *)
Definition rpa_pars_empty : pdict float :=
  [ ("case_num", VInt 1); ("Phi1", VFloat 0.25%float);
    ("Phi2", VFloat 0.5%float); ("Phi3", VFloat 0%float);
    ("Phi4", VFloat 0%float) ]%string.

(* ================================================================== *)
(** * The real value of a binary64 number *)
(* ================================================================== *)

(** [2^e] for an integer exponent. *)
Definition pow2 (e : Z) : R := powerRZ 2 e.

(** The value of a finite number with sign [s], mantissa [m] and
    exponent [e]; zeros have value 0.  Infinities and NaN have no value:
    the function is only used on finite numbers. *)
Definition SF2R (x : spec_float) : R :=
  match x with
  | S754_finite s m e => (IZR (cond_Zopp s (Z.pos m)) * pow2 e)%R
  | _ => 0%R
  end.

Definition float_value (x : float) : R := SF2R (Prim2SF x).

(** The position of a real [x] relative to an integer mantissa [m], as
    a rounding location records it: at [m], below, at or above the
    midpoint to [m + 1]. *)
Definition located (m : Z) (l : location) (x : R) : Prop :=
  match l with
  | loc_Exact => x = IZR m
  | loc_Inexact Lt => (IZR m < x < IZR m + / 2)%R
  | loc_Inexact Eq => x = (IZR m + / 2)%R
  | loc_Inexact Gt => (IZR m + / 2 < x < IZR m + 1)%R
  end.

(** Zero or finite and not negative. *)
Definition sf_nonneg_finite (x : spec_float) : Prop :=
  match x with
  | S754_zero _ | S754_finite false _ _ => True
  | _ => False
  end.

(** Zero, finite or infinite and not negative. *)
Definition sf_nonneg (x : spec_float) : Prop :=
  match x with
  | S754_zero _ | S754_finite false _ _ | S754_infinity false => True
  | _ => False
  end.

(** Finite and not zero, or infinite, of sign [s]. *)
Definition sf_signed (s : bool) (x : spec_float) : Prop :=
  match x with
  | S754_finite s' _ _ | S754_infinity s' => s' = s
  | _ => False
  end.

(** A parameter set of the [rpa] model whose four fractions are the
    largest power of two of binary64, [2^1023]: their sum overflows. *)
Definition rpa_pars_huge : pdict float :=
  [ ("case_num", VInt 7); ("Phi1", VFloat 0x1p1023%float);
    ("Phi2", VFloat 0x1p1023%float); ("Phi3", VFloat 0x1p1023%float);
    ("Phi4", VFloat 0x1p1023%float) ]%string.

(* ================================================================== *)
(** * Properties of [parameter_range] *)
(* ================================================================== *)

Section RangeHeuristic.
Context {num : Type} {N : Number num}.

(** A name that ends with [_pd] ends with none of the longer suffixes. *)
Lemma endswith_pd_exclusive p :
  endswith p "_pd" = true ->
  endswith p "_pd_n" = false /\ endswith p "_pd_nsigma" = false
  /\ endswith p "_pd_type" = false.
Proof.
  unfold endswith. generalize (String.rev p). intros q Hq.
  destruct q as [|a q]; [discriminate|].
  change (String.rev "_pd") with "dp_"%string in Hq.
  change (String.rev "_pd_n") with "n_dp_"%string.
  change (String.rev "_pd_nsigma") with "amgisn_dp_"%string.
  change (String.rev "_pd_type") with "epyt_dp_"%string.
  cbn [String.prefix] in *.
  destruct (ascii_dec "d" a) as [Heq|]; [|discriminate]. subst a.
  repeat split; reflexivity.
Qed.

Lemma endswith_pd_type_exclusive p :
  endswith p "_pd_type" = true ->
  endswith p "_pd_n" = false /\ endswith p "_pd_nsigma" = false.
Proof.
  unfold endswith. generalize (String.rev p). intros q Hq.
  destruct q as [|a q]; [discriminate|].
  change (String.rev "_pd_type") with "epyt_dp_"%string in Hq.
  change (String.rev "_pd_n") with "n_dp_"%string.
  change (String.rev "_pd_nsigma") with "amgisn_dp_"%string.
  cbn [String.prefix] in *.
  destruct (ascii_dec "e" a) as [Heq|]; [|discriminate]. subst a.
  split; reflexivity.
Qed.

(** [parameter_range] decides by the first applicable rule of the
    specification's list. *)
Lemma parameter_range_first_match p (v : value num) x :
  to_num v = Ok x -> parameter_range p v = spec_range_for p x.
Proof.
  intros Hv. unfold parameter_range, spec_range_for, range_rules, first_match.
  rewrite Hv. cbn [result_bind].
  repeat match goal with
         | |- context [if ?b then _ else _] => destruct b; cbn [andb]; try reflexivity
         end.
Qed.

End RangeHeuristic.

(** C5.  [parameter_range] applies the specification's rules in their
    priority order: on a numeric value it is the first-match evaluation
    of the rule list; names ending [_pd_n] get (0, 100) whatever else
    they contain; orientation names ending [_pd] get (0, 45) and
    orientation names with none of the dispersion suffixes get
    (-180, 180); [background] gets (0, 10) and [scale] (0, 1000); a name
    no rule matches gets (2v, -2v) for a negative value [v], so that
    ("anything", -5) gives (-10, 10) in binary64; and a name ending
    [_pd_type] raises ValueError instead of returning a range. *)
Theorem parameter_range_priority {num} {N : Number num} (p : string) (v : value num) :
  (forall x, to_num v = Ok x -> parameter_range p v = spec_range_for p x)
  /\ (endswith p "_pd_n" = true -> parameter_range p v = Ok (of_Z 0, of_Z 100))
  /\ (is_orientation_name p = true -> endswith p "_pd" = true ->
      parameter_range p v = Ok (of_Z 0, of_Z 45))
  /\ (is_orientation_name p = true ->
      endswith p "_pd_n" = false -> endswith p "_pd_nsigma" = false ->
      endswith p "_pd_type" = false -> endswith p "_pd" = false ->
      parameter_range p v = Ok (of_Z (-180), of_Z 180))
  /\ (p = "background"%string -> parameter_range p v = Ok (of_Z 0, of_Z 10))
  /\ (p = "scale"%string -> parameter_range p v = Ok (of_Z 0, of_Z 1000))
  /\ (forall x,
      endswith p "_pd_n" = false -> endswith p "_pd_nsigma" = false ->
      endswith p "_pd_type" = false -> is_orientation_name p = false ->
      endswith p "_pd" = false -> contains "sld" p = false ->
      p <> "background"%string -> p <> "scale"%string ->
      to_num v = Ok x -> nltb x (of_Z 0) = true ->
      parameter_range p v = Ok (nmul (of_Z 2) x, nmul (of_Z (-2)) x))
  /\ parameter_range (num := float) "anything" (VInt (-5))
     = Ok ((-10)%float, 10%float)
  /\ (endswith p "_pd_type" = true -> parameter_range p v = Raise ValueError).
Proof.
  split; [intros x Hx; by apply parameter_range_first_match|].
  split; [intros Hn; unfold parameter_range; by rewrite Hn|].
  split.
  { intros Ho Hpd. destruct (endswith_pd_exclusive p Hpd) as (Hn & Hs & Ht).
    unfold parameter_range. by rewrite Hn, Hs, Ht, Ho, Hpd. }
  split.
  { intros Ho Hn Hs Ht Hpd. unfold parameter_range.
    by rewrite Hn, Hs, Ht, Ho, Hpd. }
  split; [intros ->; reflexivity|].
  split; [intros ->; reflexivity|].
  split.
  { intros x Hn Hs Ht Ho Hpd Hsld Hb Hsc Hv Hneg. unfold parameter_range.
    rewrite Hn, Hs, Ht, Ho, Hpd, Hsld.
    apply String.eqb_neq in Hb, Hsc. rewrite Hb, Hsc, Hv. cbn [result_bind].
    by rewrite Hneg. }
  split; [reflexivity|].
  intros Ht. destruct (endswith_pd_type_exclusive p Ht) as (Hn & Hs).
  unfold parameter_range. by rewrite Hn, Hs, Ht.
Qed.

(** The rules of C5 at concrete names, in binary64. *)
Lemma parameter_range_priority_witness :
  parameter_range (num := float) "theta_pd_n" (VFloat 3%float)
    = Ok (0%float, 100%float)
  /\ parameter_range (num := float) "theta_pd" (VFloat 3%float)
    = Ok (0%float, 45%float)
  /\ parameter_range (num := float) "theta" (VFloat 3%float)
    = Ok ((-180)%float, 180%float)
  /\ parameter_range (num := float) "background" (VFloat 3%float)
    = Ok (0%float, 10%float)
  /\ parameter_range (num := float) "scale" (VFloat 3%float)
    = Ok (0%float, 1000%float)
  /\ parameter_range (num := float) "anything" (VFloat (-5)%float)
    = Ok ((-10)%float, 10%float)
  /\ parameter_range (num := float) "radius_pd_type" (VFloat 3%float)
    = Raise ValueError.
Proof.
  pose proof (parameter_range_priority (num := float) "theta_pd_n" (VFloat 3%float))
    as (_ & H1 & _).
  pose proof (parameter_range_priority (num := float) "theta_pd" (VFloat 3%float))
    as (_ & _ & H2 & _).
  pose proof (parameter_range_priority (num := float) "theta" (VFloat 3%float))
    as (_ & _ & _ & H3 & _).
  pose proof (parameter_range_priority (num := float) "background" (VFloat 3%float))
    as (_ & _ & _ & _ & H4 & _).
  pose proof (parameter_range_priority (num := float) "scale" (VFloat 3%float))
    as (_ & _ & _ & _ & _ & H5 & _).
  pose proof (parameter_range_priority (num := float) "anything" (VFloat (-5)%float))
    as (_ & _ & _ & _ & _ & _ & H6 & _).
  pose proof (parameter_range_priority (num := float) "radius_pd_type" (VFloat 3%float))
    as (_ & _ & _ & _ & _ & _ & _ & _ & H7).
  split; [apply H1; reflexivity|].
  split; [apply H2; reflexivity|].
  split; [apply H3; reflexivity|].
  split; [apply H4; reflexivity|].
  split; [apply H5; reflexivity|].
  split; [apply (H6 (-5)%float); first [reflexivity | discriminate]|].
  apply H7; reflexivity.
Defined.

(* ================================================================== *)
(** * Properties of the seed scope *)
(* ================================================================== *)

Section SeedScopeProofs.
Context {num : Type} {G : NumpyRandom num}.

Lemma valid_seed_test s :
  valid_seed s -> ((0 <=? s) && (s <? 2 ^ 32))%Z = true.
Proof. unfold valid_seed. intros [H0 H1]. apply andb_true_iff. split; lia. Qed.

(** Acquisition with a usable integer seed. *)
Lemma push_seed_init_seeded s (w : rng_world num) :
  valid_seed s ->
  push_seed_init (Some s) w
  = (Ok {| _state := np_random w |},
     {| np_random := seed_state s; os_entropy := os_entropy w;
        reseeds := reseeds w |}).
Proof.
  intros Hs. unfold push_seed_init, bind, np_random_get_state, np_random_seed.
  by rewrite (valid_seed_test s Hs).
Qed.

(** Acquisition without a seed: the generator is reseeded all the same,
    from operating-system entropy. *)
Lemma push_seed_init_unseeded (w : rng_world num) :
  push_seed_init None w
  = (Ok {| _state := np_random w |},
     {| np_random := os_entropy w (reseeds w); os_entropy := os_entropy w;
        reseeds := S (reseeds w) |}).
Proof. reflexivity. Qed.

(** Whatever the seed, the object holds the state found at acquisition;
    a refused seed leaves the process as it was. *)
Lemma push_seed_init_saves seed (w : rng_world num) :
  match push_seed_init seed w with
  | (Ok self, _) => _state self = np_random w
  | (Raise _, w') => w' = w
  end.
Proof.
  destruct seed as [s|]; [|reflexivity].
  unfold push_seed_init, bind, np_random_get_state, np_random_seed.
  by destruct ((0 <=? s) && (s <? 2 ^ 32))%Z.
Qed.

(** Release restores the generator, on the normal and on the failing
    exit of the block. *)
Lemma with_push_seed_restores {A} seed (body : M (rng_world num) A) w :
  np_random (snd (with_push_seed seed body w)) = np_random w.
Proof.
  pose proof (push_seed_init_saves seed w) as Hsave.
  unfold with_push_seed, with_stmt, bind at 1.
  destruct (push_seed_init seed w) as [[self|e] w1]; [|by subst].
  unfold push_seed_enter, push_seed_exit, attempt, bind, ret, raise,
    np_random_set_state.
  destruct (body w1) as [[a|e] w2]; simpl; exact Hsave.
Qed.

(** The block's own outcome passes through the scope: its value on a
    normal exit, its exception on a failing one. *)
Lemma with_push_seed_outcome {A} seed (body : M (rng_world num) A) w self w1 :
  push_seed_init seed w = (Ok self, w1) ->
  fst (with_push_seed seed body w)
  = match fst (body w1) with Ok a => Ok (Some a) | Raise e => Raise e end.
Proof.
  intros Hinit. unfold with_push_seed, with_stmt, bind at 1. rewrite Hinit.
  unfold push_seed_enter, push_seed_exit, attempt, bind, ret, raise,
    np_random_set_state.
  by destruct (body w1) as [[a|e] w2].
Qed.

(** Two blocks with the same outcome have the same outcome under a
    scope. *)
Lemma with_push_seed_fst {A} seed (b1 b2 : M (rng_world num) A) w :
  (forall w1, fst (b1 w1) = fst (b2 w1)) ->
  fst (with_push_seed seed b1 w) = fst (with_push_seed seed b2 w).
Proof.
  intros Hb. unfold with_push_seed, with_stmt, bind.
  destruct (push_seed_init seed w) as [[self|e] w1]; [|reflexivity].
  specialize (Hb w1).
  unfold push_seed_enter, push_seed_exit, attempt, ret, raise,
    np_random_set_state.
  destruct (b1 w1) as [[a1|e1] w2], (b2 w1) as [[a2|e2] w3];
    simpl in *; congruence.
Qed.

(** An inner scope inside [try ... except] is invisible to the draws
    that follow it. *)
Lemma nested_block_as_plain {A B C} (before : rng_state -> A * rng_state)
    seedB (inner : M (rng_world num) B) (after : rng_state -> C * rng_state) w :
  fst (nested_block before seedB inner after w)
  = fst (plain_block before after w)
  /\ np_random (snd (nested_block before seedB inner after w))
     = np_random (snd (plain_block before after w)).
Proof.
  unfold nested_block, plain_block, bind, lift_rng, ret.
  destruct (before (np_random w)) as [a st1]. cbn [fst snd].
  set (w1 := {| np_random := st1; os_entropy := os_entropy w;
                reseeds := reseeds w |}).
  pose proof (with_push_seed_restores seedB inner w1) as Hr.
  unfold attempt.
  destruct (with_push_seed seedB inner w1) as [r w2]. cbn [snd] in Hr.
  cbn [np_random] in *. rewrite Hr. subst w1. cbn [np_random].
  by destruct (after st1) as [c st2].
Qed.

End SeedScopeProofs.

(** C1 (as amended).  On acquisition [push_seed] saves the current
    global generator state and then reseeds in every case: from the seed
    when a usable one is given, from operating-system entropy when none
    is.  On release, also when the block raises, the generator is set
    back to exactly the saved state, and the block's value or exception
    passes through.  A scope nested inside another (and guarded by
    try/except) leaves the outer scope's draws, and the state after the
    outer release, as if the inner scope had never run. *)
Theorem push_seed_scope {num} {G : NumpyRandom num} (w : rng_world num) :
  (forall s, valid_seed s ->
     push_seed_init (Some s) w
     = (Ok {| _state := np_random w |},
        {| np_random := seed_state s; os_entropy := os_entropy w;
           reseeds := reseeds w |}))
  /\ push_seed_init None w
     = (Ok {| _state := np_random w |},
        {| np_random := os_entropy w (reseeds w); os_entropy := os_entropy w;
           reseeds := S (reseeds w) |})
  /\ (forall A seed (body : M (rng_world num) A),
        np_random (snd (with_push_seed seed body w)) = np_random w)
  /\ (forall A seed (body : M (rng_world num) A) self w1,
        push_seed_init seed w = (Ok self, w1) ->
        fst (with_push_seed seed body w)
        = match fst (body w1) with Ok a => Ok (Some a) | Raise e => Raise e end)
  /\ (forall A B C seedA seedB (before : rng_state -> A * rng_state)
             (inner : M (rng_world num) B) (after : rng_state -> C * rng_state),
        fst (with_push_seed seedA (nested_block before seedB inner after) w)
        = fst (with_push_seed seedA (plain_block before after) w)
        /\ np_random (snd (with_push_seed seedA
                             (nested_block before seedB inner after) w))
           = np_random (snd (with_push_seed seedA (plain_block before after) w))).
Proof.
  split; [intros s Hs; by apply push_seed_init_seeded|].
  split; [apply push_seed_init_unseeded|].
  split; [intros A seed body; apply with_push_seed_restores|].
  split; [intros A seed body self w1; apply with_push_seed_outcome|].
  intros A B C seedA seedB before inner after. split.
  - apply with_push_seed_fst. intros w1. apply nested_block_as_plain.
  - by rewrite !with_push_seed_restores.
Qed.

(** C1 at seed 24, with three draws ahead of the generator: the state
    saved and installed at acquisition, and a block that raises. *)
Lemma push_seed_scope_witness :
  valid_seed 24
  /\ push_seed_init (Some 24%Z) (scripted_world [1; 2; 3]%Z [7; 8; 9]%Z)
     = (Ok (@Build_push_seed float (Scripted.generator float) [1; 2; 3]%Z),
        @Build_rng_world float (Scripted.generator float)
          (Scripted.lcg 16 24) (fun _ => [7; 8; 9]%Z) 0)
  /\ fst (with_push_seed (A := unit) (Some 24%Z) (raise RuntimeError)
             (scripted_world [1; 2; 3]%Z [7; 8; 9]%Z))
     = Raise RuntimeError
  /\ np_random (snd (with_push_seed (A := unit) (Some 24%Z) (raise RuntimeError)
                       (scripted_world [1; 2; 3]%Z [7; 8; 9]%Z)))
     = [1; 2; 3]%Z.
Proof.
  assert (H24 : valid_seed 24) by (unfold valid_seed; lia).
  pose proof (push_seed_scope (scripted_world [1; 2; 3]%Z [7; 8; 9]%Z))
    as (Hseeded & _ & Hrestore & Houtcome & _).
  split; [exact H24|]. split; [exact (Hseeded 24%Z H24)|]. split.
  - exact (Houtcome unit (Some 24%Z) (raise RuntimeError) _ _ (Hseeded 24%Z H24)).
  - exact (Hrestore unit (Some 24%Z) (raise RuntimeError)).
Defined.

(** C1 as stated fails: without a seed the scope does not leave the
    generator where it found it; [np.random.seed(None)] installs a state
    read from the operating system. *)
Lemma push_seed_reseeds_without_seed :
  np_random (snd (push_seed_init None (scripted_world [1; 2; 3]%Z [7; 8; 9]%Z)))
  <> np_random (scripted_world [1; 2; 3]%Z [7; 8; 9]%Z).
Proof. cbn. discriminate. Qed.

(* ================================================================== *)
(** * The monad *)
(* ================================================================== *)

Lemma bind_ok {S A B} (m : M S A) (k : A -> M S B) s a s' :
  m s = (Ok a, s') -> bind m k s = k a s'.
Proof. intros H. unfold bind. by rewrite H. Qed.

Lemma bind_raise {S A B} (m : M S A) (k : A -> M S B) s e s' :
  m s = (Raise e, s') -> bind m k s = (Raise e, s').
Proof. intros H. unfold bind. by rewrite H. Qed.

(* ================================================================== *)
(** * Dicts and dict objects *)
(* ================================================================== *)

Section DictProofs.
Context {num : Type} {N : Number num}.

Lemma dict_get_set_eq k v (d : pdict num) : dict_get k (dict_set k v d) = Some v.
Proof.
  induction d as [|[k' v'] d IH]; simpl.
  - by rewrite String.eqb_refl.
  - destruct (String.eqb k' k) eqn:E; simpl; by rewrite E.
Qed.

Lemma dict_get_set_ne k k' v (d : pdict num) :
  k <> k' -> dict_get k' (dict_set k v d) = dict_get k' d.
Proof.
  intros Hne. induction d as [|[k0 v0] d IH]; simpl.
  - apply String.eqb_neq in Hne. by rewrite Hne.
  - destruct (String.eqb k0 k) eqn:E; simpl.
    + apply String.eqb_eq in E. subst k0.
      apply String.eqb_neq in Hne. by rewrite Hne.
    + by rewrite IH.
Qed.

Lemma dict_get_is_Some k (d : pdict num) :
  is_Some (dict_get k d) <-> k ∈ dict_keys d.
Proof.
  unfold dict_keys. induction d as [|[k0 v0] d IH]; simpl.
  - split; [intros [? ?]; discriminate | intros H; inversion H].
  - destruct (String.eqb k0 k) eqn:E.
    + apply String.eqb_eq in E. subst. split; [intros _; left | eauto].
    + apply String.eqb_neq in E. rewrite IH. split; [by right|].
      intros H; inversion H; subst; [congruence | done].
Qed.

Lemma dict_keys_set_in k v (d : pdict num) :
  k ∈ dict_keys d -> dict_keys (dict_set k v d) = dict_keys d.
Proof.
  unfold dict_keys. induction d as [|[k0 v0] d IH]; simpl; intros Hin.
  - inversion Hin.
  - destruct (String.eqb k0 k) eqn:E; simpl; [done|].
    apply String.eqb_neq in E. f_equal. apply IH.
    inversion Hin; subst; [congruence | done].
Qed.

(** The zeroing loop, key by key. *)
Lemma zero_loop_keys test (ks : list string) (acc : pdict num) :
  (forall p, p ∈ ks -> p ∈ dict_keys acc) ->
  dict_keys (fold_left (zero_step test) ks acc) = dict_keys acc.
Proof.
  revert acc. induction ks as [|p ks IH]; intros acc Hin; simpl; [done|].
  unfold zero_step at 2.
  assert (Hp : p ∈ dict_keys acc) by (apply Hin; left).
  destruct (test p).
  - rewrite IH; [by apply dict_keys_set_in|].
    intros q Hq. rewrite dict_keys_set_in by done. apply Hin. by right.
  - apply IH. intros q Hq. apply Hin. by right.
Qed.

Lemma zero_loop_get test (ks : list string) (acc : pdict num) k :
  dict_get k (fold_left (zero_step test) ks acc)
  = if bool_decide (k ∈ ks) && test k then Some (VInt 0) else dict_get k acc.
Proof.
  revert acc. induction ks as [|p ks IH]; intros acc; cbn [fold_left].
  - rewrite bool_decide_eq_false_2; [done | intros H; inversion H].
  - rewrite IH. unfold zero_step. destruct (decide (k = p)) as [->|Hne].
    + rewrite (bool_decide_eq_true_2 (p ∈ p :: ks)) by left. cbn [andb].
      destruct (test p) eqn:Ht.
      * by rewrite andb_true_r, dict_get_set_eq, Tauto.if_same.
      * by rewrite andb_false_r.
    + assert (bool_decide (k ∈ p :: ks) = bool_decide (k ∈ ks)) as ->.
      { apply bool_decide_ext. rewrite elem_of_cons.
        split; [intros [?|?]; [congruence | assumption] | intros ?; by right]. }
      destruct (test p); [|done].
      by rewrite dict_get_set_ne.
Qed.

Lemma zero_keys_keys test (d : pdict num) :
  dict_keys (zero_keys test d) = dict_keys d.
Proof. unfold zero_keys. by apply zero_loop_keys. Qed.

Lemma zero_keys_get test (d : pdict num) k :
  dict_get k (zero_keys test d)
  = (fun v => if test k then VInt 0 else v) <$> dict_get k d.
Proof.
  unfold zero_keys. rewrite zero_loop_get.
  destruct (dict_get k d) as [v|] eqn:E; simpl.
  - rewrite bool_decide_eq_true_2; [by destruct (test k)|].
    apply dict_get_is_Some. by rewrite E.
  - rewrite bool_decide_eq_false_2; [done|].
    rewrite <- dict_get_is_Some, E. by intros [? ?].
Qed.

End DictProofs.

Section HeapProofs.
Context {num : Type} {N : Number num}.

Lemma set_heap_same (w : process num) : set_heap (heap w) w = w.
Proof. by destruct w. Qed.

Lemma frame_except_refl r (w : process num) : frame_except r w w.
Proof. by repeat split. Qed.

Lemma frame_except_trans r (w1 w2 w3 : process num) :
  frame_except r w1 w2 -> frame_except r w2 w3 -> frame_except r w1 w3.
Proof.
  intros (Hh1 & Hc1 & Hl1 & Ho1) (Hh2 & Hc2 & Hl2 & Ho2).
  repeat split; try congruence.
  intros r0 Hr0. by rewrite Hh2, Hh1.
Qed.

Lemma writes_only_ret {A} r (a : A) : writes_only (num := num) r (ret a).
Proof. intros w. apply frame_except_refl. Qed.

Lemma writes_only_lift_result {A} r (x : result A) :
  writes_only (num := num) r (lift_result x).
Proof. intros w. apply frame_except_refl. Qed.

Lemma writes_only_bind {A B} r (m : M (process num) A) (k : A -> M (process num) B) :
  writes_only r m -> (forall a, writes_only r (k a)) -> writes_only r (bind m k).
Proof.
  intros Hm Hk w. unfold bind. specialize (Hm w).
  destruct (m w) as [[a|e] w1]; cbn [snd] in *; [|done].
  eapply frame_except_trans; [exact Hm | apply Hk].
Qed.

Lemma writes_only_deref r r0 : writes_only (num := num) r (deref r0).
Proof.
  intros w. unfold deref. destruct (heap w !! r0); apply frame_except_refl.
Qed.

Lemma writes_only_write r (d : pdict num) : writes_only r (write r d).
Proof.
  intros w. unfold write, set_heap. repeat split. cbn.
  intros r0 Hr0. by rewrite lookup_insert_ne.
Qed.

Lemma writes_only_for_each {A} r (xs : list A) (body : A -> M (process num) unit) :
  (forall x, writes_only r (body x)) -> writes_only r (for_each xs body).
Proof.
  intros Hb. induction xs as [|x xs IH]; cbn [for_each].
  - apply writes_only_ret.
  - apply writes_only_bind; [apply Hb | intros _; exact IH].
Qed.

Lemma writes_only_fold_M {A B} r (f : B -> A -> M (process num) B) xs b :
  (forall b x, writes_only r (f b x)) -> writes_only r (fold_M f xs b).
Proof.
  intros Hf. revert b. induction xs as [|x xs IH]; intros b; cbn [fold_M].
  - apply writes_only_ret.
  - apply writes_only_bind; [apply Hf | intros b'; apply IH].
Qed.

Lemma writes_only_ref_keys r : writes_only (num := num) r (ref_keys r).
Proof.
  apply writes_only_bind; [apply writes_only_deref | intros; apply writes_only_ret].
Qed.

Lemma writes_only_ref_getitem r k : writes_only (num := num) r (ref_getitem r k).
Proof.
  apply writes_only_bind;
    [apply writes_only_deref | intros; apply writes_only_lift_result].
Qed.

Lemma writes_only_ref_get r k (dflt : value num) : writes_only r (ref_get r k dflt).
Proof.
  apply writes_only_bind; [apply writes_only_deref | intros; apply writes_only_ret].
Qed.

Lemma writes_only_ref_contains r k : writes_only (num := num) r (ref_contains r k).
Proof.
  apply writes_only_bind; [apply writes_only_deref | intros; apply writes_only_ret].
Qed.

Lemma writes_only_ref_setitem r k (v : value num) :
  writes_only r (ref_setitem r k v).
Proof.
  apply writes_only_bind; [apply writes_only_deref | intros; apply writes_only_write].
Qed.

(** A new object is fresh: it is none of the live references. *)
Lemma new_dict_spec (d : pdict num) (w : process num) :
  let r' := fresh (dom (heap w)) in
  new_dict d w = (Ok r', set_heap (<[r' := d]> (heap w)) w)
  /\ heap w !! r' = None.
Proof.
  cbn. split; [reflexivity|].
  apply not_elem_of_dom. apply is_fresh.
Qed.

Lemma dict_copy_spec r (d : pdict num) (w : process num) :
  heap w !! r = Some d ->
  let r' := fresh (dom (heap w)) in
  dict_copy r w = (Ok r', set_heap (<[r' := d]> (heap w)) w)
  /\ heap w !! r' = None /\ r' <> r.
Proof.
  intros Hr. cbn. unfold dict_copy, bind, deref. rewrite Hr.
  destruct (new_dict_spec d w) as [-> Hfresh].
  repeat split; [done|]. intros Heq. rewrite Heq, Hr in Hfresh. discriminate.
Qed.

(** The zeroing loop through a reference. *)
Lemma for_each_zero (test : string -> bool) (ks : list string) r (d : pdict num) (w : process num) :
  heap w !! r = Some d ->
  for_each ks (fun p => if test p then ref_setitem r p (VInt 0) else ret tt) w
  = (Ok tt, set_heap (<[r := fold_left (zero_step test) ks d]> (heap w)) w).
Proof.
  revert d w. induction ks as [|p ks IH]; intros d w Hr; cbn [for_each fold_left].
  - unfold ret. by rewrite insert_id, set_heap_same.
  - unfold bind, zero_step at 2. destruct (test p).
    + unfold ref_setitem, bind, deref, write. rewrite Hr.
      rewrite (IH (dict_set p (VInt 0) d)); [|cbn; by rewrite lookup_insert_eq].
      unfold set_heap. cbn. by rewrite insert_insert_eq.
    + unfold ret. by apply IH.
Qed.

End HeapProofs.

(* ================================================================== *)
(** * Properties of [suppress_pd] and [suppress_magnetism] *)
(* ================================================================== *)

Section SuppressProofs.
Context {num : Type} {N : Number num}.

Ltac frame_step :=
  first
    [ apply writes_only_ret
    | apply writes_only_lift_result
    | apply writes_only_ref_keys
    | apply writes_only_ref_getitem
    | apply writes_only_ref_get
    | apply writes_only_ref_contains
    | apply writes_only_ref_setitem
    | apply writes_only_for_each; intros ?
    | apply writes_only_fold_M; intros ? ?
    | apply writes_only_bind; [|intros ?]
    | progress cbv beta
    | match goal with
      | |- writes_only _ (if ?b then _ else _) => destruct b
      | |- writes_only _ (match ?x with _ => _ end) => destruct x
      | |- writes_only _ ((match ?x with _ => _ end) _) => destruct x
      end ].

(** After the copy, [suppress_pd] touches the copy only. *)
Lemma suppress_pd_body_frame (r' : loc) (suppress : bool) :
  writes_only (num := num) r'
    (let* keys := ref_keys r' in
     (if suppress then
        for_each keys (fun p =>
          if endswith p "_pd_n" then ref_setitem r' p (VInt 0) else ret tt)
      else
        let* '(any_pd, first_pd) :=
          fold_M (fun '(any_pd, first_pd) p =>
            if endswith p "_pd_n" then
              let* pd := ref_get r' (drop_last 2 p) (VFloat (of_Z 0)) in
              let* n := ref_getitem r' p in
              ret (any_pd || (negb (py_is_zero n) && negb (py_is_zero pd)),
                   match first_pd with None => Some p | Some _ => first_pd end)
            else ret (any_pd, first_pd)) keys (false, None) in
        match first_pd with
        | Some first_pd =>
            if any_pd then ret tt
            else
              let* n := ref_getitem r' first_pd in
              (if py_is_zero n then ref_setitem r' first_pd (VInt 35) else ret tt) ;;
              let* present := ref_contains r' (drop_last 2 first_pd) in
              let* width := ref_get r' (drop_last 2 first_pd) (VInt 0) in
              if negb present || py_is_zero width
              then ref_setitem r' (drop_last 2 first_pd) (VFloat (dec 15 2))
              else ret tt
        | None => ret tt
        end) ;;
     ret r').
Proof. repeat frame_step. Qed.

Lemma suppress_magnetism_body_frame (r' : loc) (suppress : bool) :
  writes_only (num := num) r'
    (let* keys := ref_keys r' in
     (if suppress then
        for_each keys (fun p =>
          if startswith p "M0:" then ref_setitem r' p (VInt 0) else ret tt)
      else
        let* '(any_mag, first_mag) :=
          fold_M (fun '(any_mag, first_mag) p =>
            if startswith p "M0:" then
              let* m := ref_getitem r' p in
              ret (any_mag || negb (py_is_zero m),
                   match first_mag with None => Some p | Some _ => first_mag end)
            else ret (any_mag, first_mag)) keys (false, None) in
        match first_mag with
        | Some first_mag =>
            if any_mag then ret tt
            else ref_setitem r' first_mag (VFloat (of_Z 8))
        | None => ret tt
        end) ;;
     ret r').
Proof. repeat frame_step. Qed.

(** Allocating the copy and then writing to it leaves every object that
    was live before as it was. *)
Lemma copy_then_frame {A} r (d : pdict num) (rest : loc -> M (process num) A) w :
  heap w !! r = Some d ->
  (forall r', writes_only r' (rest r')) ->
  let w' := snd ((let* c := dict_copy r in rest c) w) in
  (forall r0 d0, heap w !! r0 = Some d0 -> heap w' !! r0 = Some d0)
  /\ clock w' = clock w /\ calls w' = calls w /\ stdout w' = stdout w.
Proof.
  intros Hr Hrest. cbn zeta.
  destruct (dict_copy_spec r d w Hr) as (Hcopy & Hfresh & Hne).
  set (r' := fresh (dom (heap w))) in *.
  assert ((let* c := dict_copy r in rest c) w
          = rest r' (set_heap (<[r' := d]> (heap w)) w)) as ->
    by (unfold bind; by rewrite Hcopy).
  destruct (Hrest r' (set_heap (<[r' := d]> (heap w)) w)) as (Hh & Hc & Hl & Ho).
  split; [|by rewrite Hc, Hl, Ho].
  intros r0 d0 Hr0. rewrite Hh.
  - cbn. rewrite lookup_insert_ne; [done|]. intros <-. congruence.
  - intros ->. congruence.
Qed.

Lemma suppress_pd_preserves r (d : pdict num) suppress w :
  heap w !! r = Some d ->
  forall r0 d0, heap w !! r0 = Some d0 ->
    heap (snd (suppress_pd r suppress w)) !! r0 = Some d0.
Proof.
  intros Hr. apply (copy_then_frame r d _ w Hr).
  intros r'. apply suppress_pd_body_frame.
Qed.

Lemma suppress_magnetism_preserves r (d : pdict num) suppress w :
  heap w !! r = Some d ->
  forall r0 d0, heap w !! r0 = Some d0 ->
    heap (snd (suppress_magnetism r suppress w)) !! r0 = Some d0.
Proof.
  intros Hr. apply (copy_then_frame r d _ w Hr).
  intros r'. apply suppress_magnetism_body_frame.
Qed.

(** With [suppress] set, the outcome in full: a fresh object holding the
    zeroed copy. *)
Lemma suppress_pd_true r (d : pdict num) w :
  heap w !! r = Some d ->
  suppress_pd r true w
  = (Ok (fresh (dom (heap w))),
     set_heap (<[fresh (dom (heap w)) := monodisperse d]> (heap w)) w).
Proof.
  intros Hr. unfold suppress_pd.
  destruct (dict_copy_spec r d w Hr) as (Hcopy & Hfresh & Hne).
  set (r' := fresh (dom (heap w))) in *.
  set (w1 := set_heap (<[r' := d]> (heap w)) w) in *.
  assert (H1 : heap w1 !! r' = Some d) by (cbn; by rewrite lookup_insert_eq).
  assert (Hkeys : ref_keys r' w1 = (Ok (dict_keys d), w1))
    by (unfold ref_keys, bind, deref; by rewrite H1).
  rewrite (bind_ok _ _ _ _ _ Hcopy), (bind_ok _ _ _ _ _ Hkeys).
  rewrite (bind_ok _ _ _ _ _ (for_each_zero _ _ r' d w1 H1)).
  unfold ret, set_heap, monodisperse, zero_keys. cbn.
  by rewrite insert_insert_eq.
Qed.

Lemma suppress_magnetism_true r (d : pdict num) w :
  heap w !! r = Some d ->
  suppress_magnetism r true w
  = (Ok (fresh (dom (heap w))),
     set_heap (<[fresh (dom (heap w)) := nonmagnetic d]> (heap w)) w).
Proof.
  intros Hr. unfold suppress_magnetism.
  destruct (dict_copy_spec r d w Hr) as (Hcopy & Hfresh & Hne).
  set (r' := fresh (dom (heap w))) in *.
  set (w1 := set_heap (<[r' := d]> (heap w)) w) in *.
  assert (H1 : heap w1 !! r' = Some d) by (cbn; by rewrite lookup_insert_eq).
  assert (Hkeys : ref_keys r' w1 = (Ok (dict_keys d), w1))
    by (unfold ref_keys, bind, deref; by rewrite H1).
  rewrite (bind_ok _ _ _ _ _ Hcopy), (bind_ok _ _ _ _ _ Hkeys).
  rewrite (bind_ok _ _ _ _ _ (for_each_zero _ _ r' d w1 H1)).
  unfold ret, set_heap, nonmagnetic, zero_keys. cbn.
  by rewrite insert_insert_eq.
Qed.

End SuppressProofs.

(** C10.  [suppress_pd] and [suppress_magnetism] work on a copy.  With
    [suppress] set, each returns a new dict object, distinct from every
    live one, whose keys are those of the input in the same order and
    whose entries are the input's, except that every key ending [_pd_n]
    (respectively starting [M0:]) holds 0.  Whatever the flag, every
    dict object live before the call, the caller's parameter set among
    them, holds afterwards exactly what it held before. *)
Theorem suppress_leaves_input {num} {N : Number num} (w : process num)
    (r : loc) (d : pdict num) :
  heap w !! r = Some d ->
  (exists r' w' d',
     suppress_pd r true w = (Ok r', w')
     /\ r' <> r /\ heap w !! r' = None /\ heap w' !! r' = Some d'
     /\ dict_keys d' = dict_keys d
     /\ forall k, dict_get k d'
          = (fun v => if endswith k "_pd_n" then VInt 0 else v) <$> dict_get k d)
  /\ (exists r' w' d',
     suppress_magnetism r true w = (Ok r', w')
     /\ r' <> r /\ heap w !! r' = None /\ heap w' !! r' = Some d'
     /\ dict_keys d' = dict_keys d
     /\ forall k, dict_get k d'
          = (fun v => if startswith k "M0:" then VInt 0 else v) <$> dict_get k d)
  /\ (forall suppress r0 d0, heap w !! r0 = Some d0 ->
        heap (snd (suppress_pd r suppress w)) !! r0 = Some d0
        /\ heap (snd (suppress_magnetism r suppress w)) !! r0 = Some d0).
Proof.
  intros Hr.
  assert (Hfresh : heap w !! fresh (dom (heap w)) = None)
    by (apply not_elem_of_dom, is_fresh).
  assert (Hne : fresh (dom (heap w)) <> r) by (intros Heq; congruence).
  split; [|split].
  - eexists _, _, (monodisperse d). split; [by apply suppress_pd_true|].
    repeat split; try done.
    + cbn. by rewrite lookup_insert_eq.
    + apply zero_keys_keys.
    + intros k. apply (zero_keys_get (fun p => endswith p "_pd_n")).
  - eexists _, _, (nonmagnetic d). split; [by apply suppress_magnetism_true|].
    repeat split; try done.
    + cbn. by rewrite lookup_insert_eq.
    + apply zero_keys_keys.
    + intros k. apply (zero_keys_get (fun p => startswith p "M0:")).
  - intros suppress r0 d0 Hr0. split.
    + by apply (suppress_pd_preserves r d).
    + by apply (suppress_magnetism_preserves r d).
Qed.

(** C10 on a four-entry parameter set held at reference 0. *)
Lemma suppress_leaves_input_witness :
  heap demo_process !! 0%nat = Some demo_pars
  /\ forall suppress r0 d0, heap demo_process !! r0 = Some d0 ->
       heap (snd (suppress_pd 0%nat suppress demo_process)) !! r0 = Some d0
       /\ heap (snd (suppress_magnetism 0%nat suppress demo_process)) !! r0 = Some d0.
Proof.
  assert (H : heap demo_process !! 0%nat = Some demo_pars) by reflexivity.
  split; [exact H|].
  exact (proj2 (proj2 (suppress_leaves_input demo_process 0%nat demo_pars H))).
Defined.

(* ================================================================== *)
(** * Properties of [time_calculation] *)
(* ================================================================== *)

Section TimedProofs.
Context {num : Type} {N : Number num}.

Lemma call_spec (c : Calculator num) r (d : pdict num) (w : process num) :
  heap w !! r = Some d ->
  call c r w
  = (fst (behave c d (calls w)),
     {| heap := heap w; clock := (clock w + snd (behave c d (calls w)))%Z;
        calls := calls w ++ [(engine c, d)]; stdout := stdout w |}).
Proof.
  intros Hr. unfold call, bind, deref. rewrite Hr.
  by destruct (behave c d (calls w)).
Qed.






End TimedProofs.



(* ================================================================== *)
(** * Properties of the comparison engine *)
(* ================================================================== *)

Section ComparisonProofs.
Context {num : Type} {N : Number num} {ML : MathLib num}.





End ComparisonProofs.

Section RunModelsProofs.
Context {num : Type} {N : Number num} {ML : MathLib num}.

Lemma print_spec (line : output num) (w : process num) :
  print line w = (Ok tt, {| heap := heap w; clock := clock w; calls := calls w;
                            stdout := stdout w ++ [line] |}).
Proof. reflexivity. Qed.

(** [_show_invalid] only prints. *)
Lemma show_invalid_heap (grid : Data num) theory (w : process num) :
  heap (snd (_show_invalid grid theory w)) = heap w.
Proof.
  unfold _show_invalid.
  destruct (negb (existsb (fun m => m) (ma_mask theory))); [reflexivity|].
  destruct (data_x grid) as [x|]; [|reflexivity].
  by destruct (length x =? length theory)%nat.
Qed.


(** What a side leaves in its two names: both [None], or the masked
    output of [time_calculation] and its time. *)
Lemma run_side_inv (c : Calculator num) r n verbose grid (w w1 : process num) ov ot :
  run_side c r n verbose grid w = (Ok (ov, ot), w1) ->
  (ov = None /\ ot = None)
  \/ exists raw t w0,
       time_calculation c r n w = (Ok (raw, t), w0)
       /\ ov = Some (masked_invalid raw) /\ ot = Some t.
Proof.
  unfold run_side, try_except, bind at 1.
  destruct (time_calculation c r n w) as [[[raw t]|e] w0].
  - intros H. unfold bind in H.
    destruct ((if verbose
               then print (EngineLine (engine c) t (ma_sum (masked_invalid raw)))
               else ret tt) w0) as [[[]|e1] w2] eqn:E1.
    + destruct (_show_invalid grid (masked_invalid raw) w2) as [[[]|e2] w3].
      * right. exists raw, t, w0. unfold ret in H. by inversion H.
      * destruct (is_ImportError e2); [|discriminate].
        cbn in H. unfold ret in H. inversion H. by left.
    + destruct verbose; unfold ret in E1; cbn in E1; inversion E1.
  - destruct (is_ImportError e); [|discriminate].
    unfold bind, ret. cbn. intros H. inversion H. by left.
Qed.




End RunModelsProofs.



(** When one side of a two-engine run leaves its names [None], the
    residual expression raises TypeError. *)
Lemma py_sub_none {num} {N : Number num} (a b : option (marray num)) :
  a = None \/ b = None -> py_sub a b = Raise TypeError.
Proof. intros [-> | ->]; [reflexivity | by destruct a]. Qed.

(** Whenever a side of a two-engine run is caught missing, the run ends
    in that TypeError: no calculator, count or parameter set avoids it. *)
Lemma run_models_side_missing {num} {N : Number num} {ML : MathLib num}
    base comp bn cn bp cp grid verbose (w w1 w2 : process num) bv bt cv ct :
  run_side base bp bn verbose grid w = (Ok (bv, bt), w1) ->
  run_side comp cp cn verbose grid w1 = (Ok (cv, ct), w2) ->
  bv = None \/ cv = None ->
  run_models {| engines := (base, Some comp); count := (bn, cn);
                pars := (bp, cp); data := grid |} verbose w
  = (Raise TypeError, w2).
Proof.
  intros Hb Hc Hnone. unfold run_models. cbn [engines count pars data].
  rewrite (bind_ok _ _ _ _ _ Hb). cbv beta iota.
  rewrite (bind_ok _ _ _ _ _ Hc). cbv beta iota.
  unfold lift_result. rewrite (py_sub_none bv cv Hnone). reflexivity.
Qed.

(** C4 fails on the code.  With the comparison backend missing at call
    time, [run_models] catches the ImportError and prints the traceback,
    but then evaluates [base_value - comp_value] with [comp_value] still
    [None]: the call ends in a TypeError instead of returning; likewise
    with the base backend missing.  Only a single-engine run with its
    backend missing returns, with every entry [None]. *)
Theorem run_models_missing_side_raises :
  run_models (ML := float_lib) missing_comp_run false demo_process
  = (Raise TypeError,
     {| heap := heap demo_process; clock := 1500;
        calls := [("OCL32"%string, demo_pars); ("sasview"%string, demo_pars)];
        stdout := [TracebackLine ImportError] |})
  /\ fst (run_models (ML := float_lib) missing_base_run false demo_process)
     = Raise TypeError
  /\ fst (run_models (ML := float_lib) missing_single_run false demo_process)
     = Ok {| base_value := None; comp_value := None; base_time := None;
             comp_time := None; resid := None; relerr := None |}.
Proof. repeat split; vm_compute; reflexivity. Qed.

Lemma compressed_all_masked {num} (raw : list num) :
  compressed (all_masked raw) = [].
Proof. induction raw as [|x raw IH]; [reflexivity | exact IH]. Qed.

(** With no valid entry the line is the "no valid values" one, and
    nothing else is printed or changed. *)
Lemma print_stats_no_valid {num} {N : Number num} {ML : MathLib num}
    label (raw : list num) (w : process num) :
  _print_stats label (all_masked raw) w
  = (Ok tt, {| heap := heap w; clock := clock w; calls := calls w;
               stdout := stdout w
                         ++ [StatsLine (String.append label "  no valid values") None] |}).
Proof. unfold _print_stats. by rewrite compressed_all_masked. Qed.

(** C3 fails on the code in its last figure.  On the errors [-1, 1]
    the line reports zero-offset 1, the mean of the absolute values,
    where the mean of the error entries is 0.  The other figures are as
    specified: on [1, 2, 3, 4] the maximum is 4, the median 2 (sorted index
    1), the 98th percentile 3 (sorted index 2), the root-mean-square
    sqrt(30/4), and the mean 2.5; for every count up to 4000 the two
    binary64 indices are the exact floors of (n-1)/2 and (n-1)*98/100;
    an array with no valid entry gives the "no valid values" line and
    nothing else. *)
Theorem print_stats_zero_offset_is_unsigned :
  stdout (snd (_print_stats (ML := float_lib) "err"
                 (masked_invalid [(-1)%float; 1%float]) demo_process))
  = [StatsLine "err"
       (Some {| st_max := 1%float; st_median := 1%float; st_p98 := 1%float;
                st_rms := 1%float; st_zero_offset := 1%float |})]
  /\ np_mean [(-1)%float; 1%float] = 0%float
  /\ stdout (snd (_print_stats (ML := float_lib) "err"
                    (masked_invalid [1%float; 2%float; 3%float; 4%float])
                    demo_process))
     = [StatsLine "err"
          (Some {| st_max := 4%float; st_median := 2%float; st_p98 := 3%float;
                   st_rms := PrimFloat.sqrt (30 / 4)%float;
                   st_zero_offset := 2.5%float |})]
  /\ percentile_index (num := float) 4 (dec 50 2) = Ok 1%Z
  /\ percentile_index (num := float) 4 (dec 98 2) = Ok 2%Z
  /\ percentile_index_exact_upto 50 4000 = true
  /\ percentile_index_exact_upto 98 4000 = true
  /\ stdout (snd (_print_stats (ML := float_lib) "err"
                    (masked_invalid [infinity; nan]) demo_process))
     = [StatsLine "err  no valid values" None]
  /\ (forall label (raw : list float) (w : process float),
        _print_stats (ML := float_lib) label (all_masked raw) w
        = (Ok tt, {| heap := heap w; clock := clock w; calls := calls w;
                     stdout := stdout w
                               ++ [StatsLine (String.append label "  no valid values")
                                             None] |})).
Proof.
  repeat (split; [vm_compute; reflexivity|]).
  intros label raw w. apply print_stats_no_valid.
Qed.

(** The two-candidate branch of [_random_pd] for any generator: the two
    indices come from one [np.random.choice(n, size=2)], and the second
    assignment follows the first.  When the indices coincide the 25 is
    overwritten by the 10. *)
Lemma random_pd_two_choices {num} {N : Number num} {G : NumpyRandom num}
    (mi : ModelInfo num) (pars : pdict num) (s s1 s2 : rng_state)
    (pd_volume : list string) (u : num) (i j : nat) (a b : string) :
  collect_pd (List.filter par_polydisperse (kernel_parameters (parameters mi)))
             pars [] [] = Ok (pd_volume, []) ->
  np_rand s = (u, s1) ->
  nltb u (dec 1 2) = false -> nltb u (dec 86 2) = false ->
  nltb u (dec 99 2) = true ->
  (2 <= length pd_volume)%nat ->
  np_choice (length pd_volume) 2 s1 = ([i; j], s2) ->
  nth_error pd_volume i = Some a -> nth_error pd_volume j = Some b ->
  _random_pd mi pars s
  = (Ok (dict_set (String.append b "_pd_n") (VInt 10)
           (dict_set (String.append a "_pd_n") (VInt 25) pars)), s2)
  /\ (i = j ->
      dict_get (String.append a "_pd_n")
        (dict_set (String.append b "_pd_n") (VInt 10)
           (dict_set (String.append a "_pd_n") (VInt 25) pars))
      = Some (VInt 10)).
Proof.
  intros Hcollect Hu H1 H86 H99 Hn Hchoice Ha Hb. split.
  - unfold _random_pd. unfold lift_result at 1. rewrite Hcollect.
    rewrite (bind_ok _ _ _ (pd_volume, []) s eq_refl). cbv beta iota.
    assert (Hdraw : draw np_rand s = (Ok u, s1)) by (unfold draw; by rewrite Hu).
    rewrite (bind_ok _ _ _ _ _ Hdraw). rewrite H1, H86, H99.
    replace (length pd_volume <? 1)%nat with false
      by (symmetry; apply Nat.ltb_ge; lia).
    replace (length pd_volume <? 2)%nat with false
      by (symmetry; apply Nat.ltb_ge; lia).
    cbn [orb].
    assert (Hch : draw (np_choice (length pd_volume) 2) s1 = (Ok [i; j], s2))
      by (unfold draw; by rewrite Hchoice).
    unfold bind at 1. unfold bind at 1. rewrite Hch.
    unfold lift_result, activate, list_getitem, bind, ret. cbn [nth_error].
    rewrite Ha. cbn [result_bind]. by rewrite Hb.
  - intros ->. assert (a = b) as -> by congruence. apply dict_get_set_eq.
Qed.

(** C6 fails on the code.  With three volume candidates, a uniform draw
    of 0.90 and [np.random.choice(3, size=2)] returning [0, 0] (the
    draws are independent, so an index can repeat), a single candidate
    ends up activated, with 10 points; with a draw of 0.99 and choices
    [1, 1, 1] a single candidate is activated with 5 points.  When the
    choices differ the activation is the specified one. *)
Theorem random_pd_choices_can_repeat :
  _random_pd three_volume_model [] [90; 0; 0]%Z
  = (Ok [("radius_pd_n"%string, VInt 10)], [])
  /\ _random_pd three_volume_model [] [99; 1; 1; 1]%Z
     = (Ok [("length_pd_n"%string, VInt 5)], [])
  /\ _random_pd three_volume_model [] [90; 0; 1]%Z
     = (Ok [("radius_pd_n"%string, VInt 25); ("length_pd_n"%string, VInt 10)], [])
  /\ _random_pd three_volume_model [] [99; 2; 0; 1]%Z
     = (Ok [("thickness_pd_n"%string, VInt 25); ("radius_pd_n"%string, VInt 10);
            ("length_pd_n"%string, VInt 5)], []).
Proof. repeat split; vm_compute; reflexivity. Qed.

(* ================================================================== *)
(** * Properties of [randomize_pars] *)
(* ================================================================== *)

Section RandomizerProofs.
Context {num : Type} {N : Number num} {ML : MathLib num} {G : NumpyRandom num}.

#[local] Instance item_le_trans : Transitive (item_le (num := num)).
Proof. intros a b c. unfold item_le. apply transitivity. Qed.

#[local] Instance item_le_total : Total (item_le (num := num)).
Proof. intros a b. unfold item_le. apply total, _. Qed.



Lemma sorted_items_perm (pars : pdict num) : sorted_items pars ≡ₚ pars.
Proof. apply merge_sort_Permutation. Qed.



(** One value is drawn per item, in the order of the items. *)
Lemma randomize_items_keys (mi : ModelInfo num) items s drawn s' :
  randomize_items mi items s = (Ok drawn, s') -> map fst drawn = map fst items.
Proof.
  unfold randomize_items. revert s drawn.
  induction items as [|[p v] items IH]; intros s drawn; cbn [map_M].
  - unfold ret. intros H. by inversion H.
  - unfold bind at 1. unfold bind at 1. cbn [fst snd].
    destruct (_randomize_one mi p v s) as [[r|e] s1]; [|discriminate].
    unfold ret at 1. unfold bind at 1.
    destruct (map_M _ items s1) as [[ys|e] s2] eqn:E; [|discriminate].
    unfold ret. intros H. inversion H; subst. cbn. f_equal. by eapply IH.
Qed.

End RandomizerProofs.




(* ================================================================== *)
(** * Properties of [constrain_pars] *)
(* ================================================================== *)

Section RepairProofs.
Context {num : Type} {N : Number num}.

Lemma at_dict_self (w : process num) r d :
  heap w !! r = Some d -> at_dict w r d = w.
Proof. intros H. unfold at_dict. by rewrite insert_id, set_heap_same. Qed.

Lemma at_dict_lookup (w : process num) r d : heap (at_dict w r d) !! r = Some d.
Proof. cbn. by rewrite lookup_insert_eq. Qed.

Lemma getitem_at (w : process num) r d k v :
  dict_get k d = Some v ->
  ref_getitem r k (at_dict w r d) = (Ok v, at_dict w r d).
Proof.
  intros Hk. unfold ref_getitem, bind, deref. rewrite at_dict_lookup.
  unfold lift_result, getitem. by rewrite Hk.
Qed.

Lemma setitem_at (w : process num) r d k v :
  ref_setitem r k v (at_dict w r d) = (Ok tt, at_dict w r (dict_set k v d)).
Proof.
  unfold ref_setitem, bind, deref. rewrite at_dict_lookup.
  unfold write, at_dict, set_heap. cbn. by rewrite insert_insert_eq.
Qed.

Lemma dict_get_set k k' v (d : pdict num) :
  dict_get k' (dict_set k v d)
  = if String.eqb k k' then Some v else dict_get k' d.
Proof.
  destruct (String.eqb k k') eqn:E.
  - apply String.eqb_eq in E. subst. apply dict_get_set_eq.
  - apply String.eqb_neq in E. by apply dict_get_set_ne.
Qed.

Lemma dict_get_of_elem (l : pdict num) k v :
  NoDup (dict_keys l) -> (k, v) ∈ l -> dict_get k l = Some v.
Proof.
  unfold dict_keys. induction l as [|[k0 v0] l IH]; intros Hnd Hin.
  - inversion Hin.
  - cbn in Hnd. apply NoDup_cons in Hnd as [Hk0 Hnd]. cbn.
    apply elem_of_cons in Hin as [Heq|Hin].
    + inversion Heq; subst. by rewrite String.eqb_refl.
    + destruct (String.eqb k0 k) eqn:E; [|by apply IH].
      apply String.eqb_eq in E. subst k0. exfalso. apply Hk0.
      apply list_elem_of_In. apply (in_map fst l (k, v)).
      by apply list_elem_of_In.
Qed.

(** [d.update(other)] leaves a key alone when [other] holds for it what
    [d] holds already. *)
Lemma dict_update_get_same (d o : pdict num) k :
  (forall v, (k, v) ∈ o -> dict_get k d = Some v) ->
  dict_get k (dict_update d o) = dict_get k d.
Proof.
  unfold dict_update. revert d. induction o as [|[k' v'] o IH]; intros d Ho.
  - reflexivity.
  - cbn [fold_left fst snd].
    assert (Hstep : dict_get k (dict_set k' v' d) = dict_get k d).
    { rewrite dict_get_set. destruct (String.eqb k' k) eqn:E; [|done].
      apply String.eqb_eq in E. subst k'. symmetry. apply Ho. left. }
    rewrite IH; [exact Hstep|].
    intros v Hv. rewrite Hstep. apply Ho. by right.
Qed.

(** Suppressing magnetism in place changes no key outside [M0:]. *)
Lemma nonmagnetic_update_get (d : pdict num) k :
  NoDup (dict_keys d) -> startswith k "M0:" = false ->
  dict_get k (dict_update d (nonmagnetic d)) = dict_get k d.
Proof.
  intros Hnd Hk. apply dict_update_get_same. intros v Hv.
  apply dict_get_of_elem in Hv; [|unfold nonmagnetic; by rewrite zero_keys_keys].
  unfold nonmagnetic in Hv. rewrite zero_keys_get, Hk in Hv.
  by destruct (dict_get k d).
Qed.

End RepairProofs.

Section MagnetismStep.
Context {num : Type} {N : Number num} {G : NumpyRandom num}.

Lemma magnetism_step (mi : ModelInfo num) r (d : pdict num) (w : process num) :
  heap w !! r = Some d -> NoDup (dict_keys d) ->
  exists w0 d1,
    (if Iq_callable mi then
       let* nonmagnetic := suppress_magnetism r true in
       ref_update r nonmagnetic
     else ret tt) w = (Ok tt, at_dict w0 r d1)
    /\ forall k, startswith k "M0:" = false -> dict_get k d1 = dict_get k d.
Proof.
  intros Hr Hnd. destruct (Iq_callable mi).
  - assert (Hfresh : heap w !! fresh (dom (heap w)) = None)
      by (apply not_elem_of_dom, is_fresh).
    set (r' := fresh (dom (heap w))) in *.
    set (w1 := set_heap (<[r' := nonmagnetic d]> (heap w)) w).
    exists w1, (dict_update d (nonmagnetic d)). split.
    + rewrite (bind_ok _ _ _ _ _ (suppress_magnetism_true r d w Hr)).
      fold r'. fold w1. unfold ref_update, bind, deref.
      assert (heap w1 !! r = Some d) as ->.
      { cbn. rewrite lookup_insert_ne; [done|]. intros Heq. congruence. }
      assert (heap w1 !! r' = Some (nonmagnetic d)) as ->
        by (cbn; by rewrite lookup_insert_eq).
      reflexivity.
    + intros k Hk. by apply nonmagnetic_update_get.
  - exists w, d. split; [|done]. unfold ret. by rewrite at_dict_self.
Qed.

End MagnetismStep.

(** The [rpa] repair in binary64, on fractions 0.25, 0.3, 0.1, 0.7 with
    [case_num = 3]: the repaired fractions add up to 1 - 2^-53, one
    rounding step away from 1. *)
Lemma rpa_binary64_example :
  constrain_pars (ML := float_lib) (rpa_model float) 0%nat
    (empty_process {[ 0%nat := rpa_pars_float ]})
  = (Ok tt,
     empty_process
       {[ 0%nat := [ ("case_num", VInt 3); ("Phi1", VFloat 0%float);
                     ("Phi2", VFloat (3 / 11)%float);
                     ("Phi3", VFloat (1 / 11)%float);
                     ("Phi4", VFloat ((7 / 10) / (11 / 10))%float) ]%string ]})
  /\ phi_sum [ ("case_num", VInt 3); ("Phi1", VFloat 0%float);
               ("Phi2", VFloat (3 / 11)%float);
               ("Phi3", VFloat (1 / 11)%float);
               ("Phi4", VFloat ((7 / 10) / (11 / 10))%float) ]%string
     = Some (1 - 0x1p-53)%float.
Proof. split; vm_compute; reflexivity. Qed.

(* ================================================================== *)
(** * Further properties of the seed scope *)
(* ================================================================== *)

(** X1.  Two scopes opened with the same seed make the same draws,
    whatever state the generator was in before each: a block that only
    draws gets the draws of the freshly seeded generator.  (The two
    [with push_seed(24)] blocks of the docstring print the same
    numbers.) *)
Theorem push_seed_same_seed_same_draws {num} {G : NumpyRandom num} {A}
    (s : Z) (f : rng_state -> A * rng_state) (w1 w2 : rng_world num) :
  valid_seed s ->
  fst (with_push_seed (Some s) (lift_rng f) w1) = Ok (Some (fst (f (seed_state s))))
  /\ fst (with_push_seed (Some s) (lift_rng f) w1)
     = fst (with_push_seed (Some s) (lift_rng f) w2).
Proof.
  intros Hs.
  assert (Hone : forall w : rng_world num,
            fst (with_push_seed (Some s) (lift_rng f) w)
            = Ok (Some (fst (f (seed_state s))))).
  { intros w.
    rewrite (with_push_seed_outcome (Some s) (lift_rng f) w _ _
               (push_seed_init_seeded s w Hs)).
    unfold lift_rng. cbn [np_random]. by destruct (f (seed_state s)). }
  split; [apply Hone | by rewrite !Hone].
Qed.

(** X1 at seed 24 from two different generator states. *)
Lemma push_seed_same_seed_same_draws_witness :
  valid_seed 24
  /\ fst (with_push_seed (Some 24%Z) (lift_rng np_rand)
            (scripted_world [1; 2; 3]%Z [7; 8; 9]%Z))
     = fst (with_push_seed (Some 24%Z) (lift_rng np_rand)
              (scripted_world [50; 60]%Z [])).
Proof.
  assert (H24 : valid_seed 24) by (unfold valid_seed; lia).
  split; [exact H24|].
  exact (proj2 (push_seed_same_seed_same_draws 24%Z np_rand
                  (scripted_world [1; 2; 3]%Z [7; 8; 9]%Z)
                  (scripted_world [50; 60]%Z []) H24)).
Defined.

(* ================================================================== *)
(** * Further properties of the timed evaluator *)
(* ================================================================== *)

(** X2.  With [evals <= 1] the timed evaluator makes no warm-up call and
    calls the calculator exactly once, also when [evals] is zero or
    negative ("make sure there is at least one eval").  The outcome of
    that call decides: an exception of the calculator propagates; with
    [evals = 0] the average raises ZeroDivisionError after the call has
    been made; otherwise the value is returned with the elapsed time
    divided by [evals]. *)
Theorem time_calculation_single_call {num} {N : Number num} (c : Calculator num)
    (r : loc) (d : pdict num) (n : Z) (w : process num)
    (out : result (list num)) (dt : Z) :
  (n <= 1)%Z -> heap w !! r = Some d -> behave c d (calls w) = (out, dt) ->
  time_calculation c r n w
  = (match out with
     | Ok v => if (n =? 0)%Z then Raise ZeroDivisionError
               else Ok (v, ndiv (nmul (delay dt) (of_Z 1000)) (of_Z n))
     | Raise e => Raise e
     end,
     {| heap := heap w; clock := (clock w + dt)%Z;
        calls := calls w ++ [(engine c, d)]; stdout := stdout w |}).
Proof.
  intros Hn Hr Hb. unfold time_calculation.
  assert ((1 <? n)%Z = false) as -> by lia.
  assert (Z.to_nat (n - 1) = 0%nat) as -> by lia.
  unfold tic, now. cbn [repeat_M].
  unfold bind at 1. unfold ret at 1.
  unfold bind at 1. unfold bind at 1. unfold ret at 1.
  unfold bind at 1. rewrite (call_spec c r d w Hr), Hb. cbn [fst snd].
  destruct out as [v|e]; [|reflexivity].
  unfold bind, ret, lift_result, py_truediv_int. cbn [clock].
  replace (clock w + dt - clock w)%Z with dt by lia.
  by destruct (n =? 0)%Z.
Qed.

(** X2 at [evals = 0]: one call is logged, then the division fails. *)
Lemma time_calculation_single_call_witness :
  (0 <= 1)%Z
  /\ heap demo_process !! 0%nat = Some demo_pars
  /\ time_calculation (constant_calculator "OCL32" [1%float] 1500) 0%nat 0
       demo_process
     = (Raise ZeroDivisionError,
        {| heap := heap demo_process; clock := 1500;
           calls := [("OCL32"%string, demo_pars)]; stdout := [] |}).
Proof.
  assert (H1 : heap demo_process !! 0%nat = Some demo_pars) by reflexivity.
  split; [lia|]. split; [exact H1|].
  exact (time_calculation_single_call
           (constant_calculator "OCL32" [1%float] 1500) 0%nat demo_pars 0
           demo_process (Ok [1%float]) 1500 ltac:(lia) H1 eq_refl).
Defined.

(* ================================================================== *)
(** * Further properties of the comparison engine *)
(* ================================================================== *)

Section SingleEngine.
Context {num : Type} {N : Number num} {ML : MathLib num}.

Lemma run_side_raise (c : Calculator num) r n verbose grid (w w1 : process num) e :
  time_calculation c r n w = (Raise e, w1) ->
  run_side c r n verbose grid w
  = if is_ImportError e
    then (Ok (None, None),
          {| heap := heap w1; clock := clock w1; calls := calls w1;
             stdout := stdout w1 ++ [TracebackLine e] |})
    else (Raise e, w1).
Proof.
  intros Ht. unfold run_side, try_except.
  rewrite (bind_raise _ _ _ _ _ Ht).
  destruct (is_ImportError e); [|reflexivity].
  unfold bind. rewrite print_spec. reflexivity.
Qed.

End SingleEngine.

(** X3.  A run with a single engine: when the timed evaluation raises
    ImportError the traceback is printed and the run returns a result
    with every entry [None]; any other exception leaves [run_models].
    Whenever such a run returns, the comparison entries ([comp_value],
    [comp_time], [resid], [relerr]) are [None], and the base value and
    the base time are present or absent together. *)
Theorem run_models_single_engine {num} {N : Number num} {ML : MathLib num}
    (base : Calculator num) (bn cn : Z) (bp cp : loc) (grid : Data num)
    (verbose : bool) (w : process num) :
  let opts := {| engines := (base, None); count := (bn, cn);
                 pars := (bp, cp); data := grid |} in
  (forall e w1, time_calculation base bp bn w = (Raise e, w1) ->
     run_models opts verbose w
     = if is_ImportError e
       then (Ok no_result,
             {| heap := heap w1; clock := clock w1; calls := calls w1;
                stdout := stdout w1 ++ [TracebackLine e] |})
       else (Raise e, w1))
  /\ (forall res w', run_models opts verbose w = (Ok res, w') ->
        comp_value res = None /\ comp_time res = None
        /\ resid res = None /\ relerr res = None
        /\ (base_value res = None <-> base_time res = None)).
Proof.
  intros opts. split.
  - intros e w1 Ht. unfold run_models, opts. cbn [engines count pars data].
    unfold bind at 1. rewrite (run_side_raise _ _ _ _ _ _ _ _ Ht).
    by destruct (is_ImportError e).
  - intros res w' Hrun. unfold run_models, opts in Hrun.
    cbn [engines count pars data] in Hrun. unfold bind at 1 in Hrun.
    destruct (run_side base bp bn verbose grid w) as [[[ov ot]|e] w1] eqn:Hside;
      [|discriminate].
    unfold bind, ret in Hrun. injection Hrun as <- _. cbn.
    repeat split; try reflexivity.
    + intros ->. by destruct (run_side_inv _ _ _ _ _ _ _ _ _ Hside)
        as [[_ ->]|(raw & t & w0 & _ & ? & _)].
    + intros ->. by destruct (run_side_inv _ _ _ _ _ _ _ _ _ Hside)
        as [[-> _]|(raw & t & w0 & _ & _ & ?)].
Qed.

(** X3 on a single engine whose backend is missing. *)
Lemma run_models_single_engine_witness :
  time_calculation (missing_calculator "sasview") 0%nat 1 demo_process
  = (Raise ImportError,
     {| heap := heap demo_process; clock := 0;
        calls := [("sasview"%string, demo_pars)]; stdout := [] |})
  /\ run_models (ML := float_lib) missing_single_run true demo_process
     = (Ok no_result,
        {| heap := heap demo_process; clock := 0;
           calls := [("sasview"%string, demo_pars)];
           stdout := [TracebackLine ImportError] |}).
Proof.
  assert (Ht : time_calculation (missing_calculator "sasview") 0%nat 1 demo_process
               = (Raise ImportError,
                  {| heap := heap demo_process; clock := 0;
                     calls := [("sasview"%string, demo_pars)]; stdout := [] |}))
    by (vm_compute; reflexivity).
  split; [exact Ht|].
  exact (proj1 (run_models_single_engine (ML := float_lib)
                  (missing_calculator "sasview") 1 1 0%nat 0%nat
                  {| data_x := Some [0.5%float] |} true demo_process) _ _ Ht).
Defined.

Section KeepsLive.
Context {num : Type} {N : Number num} {ML : MathLib num}.

Lemma live_preserved_refl (w : process num) : live_preserved w w.
Proof. by intros r d. Qed.

Lemma live_preserved_trans (w1 w2 w3 : process num) :
  live_preserved w1 w2 -> live_preserved w2 w3 -> live_preserved w1 w3.
Proof. intros H1 H2 r d Hr. by apply H2, H1. Qed.

Lemma live_preserved_heap (w w' : process num) :
  heap w' = heap w -> live_preserved w w'.
Proof. intros E r d. by rewrite E. Qed.

Lemma keeps_live_ret {A} (a : A) : keeps_live (num := num) (ret a).
Proof. intros w. apply live_preserved_refl. Qed.

Lemma keeps_live_lift_result {A} (x : result A) :
  keeps_live (num := num) (lift_result x).
Proof. intros w. apply live_preserved_refl. Qed.

Lemma keeps_live_bind {A B} (m : M (process num) A) (k : A -> M (process num) B) :
  keeps_live m -> (forall a, keeps_live (k a)) -> keeps_live (bind m k).
Proof.
  intros Hm Hk w. unfold bind. specialize (Hm w).
  destruct (m w) as [[a|e] w1]; [|exact Hm].
  exact (live_preserved_trans _ _ _ Hm (Hk a w1)).
Qed.

Lemma keeps_live_print (line : output num) : keeps_live (print line).
Proof. intros w. by apply live_preserved_heap. Qed.

Lemma keeps_live_call (c : Calculator num) r : keeps_live (call c r).
Proof.
  intros w. unfold call, bind, deref.
  destruct (heap w !! r) as [d|]; [|apply live_preserved_refl].
  destruct (behave c d (calls w)) as [out dt]. by apply live_preserved_heap.
Qed.

Lemma keeps_live_repeat_M {A} (n : nat) (body : M (process num) A) (value : A) :
  keeps_live body -> keeps_live (repeat_M n body value).
Proof.
  intros Hb. revert value. induction n as [|n IH]; intros value; cbn [repeat_M].
  - apply keeps_live_ret.
  - apply keeps_live_bind; [exact Hb | exact IH].
Qed.

Lemma keeps_live_suppress_pd r suppress : keeps_live (num := num) (suppress_pd r suppress).
Proof.
  intros w. destruct (heap w !! r) as [d|] eqn:Hr.
  - intros r0 d0. by apply (suppress_pd_preserves r d).
  - unfold suppress_pd, dict_copy. unfold bind at 1. unfold bind at 1.
    unfold deref. rewrite Hr. apply live_preserved_refl.
Qed.

Lemma keeps_live_time_calculation (c : Calculator num) r n :
  keeps_live (time_calculation c r n).
Proof.
  unfold time_calculation. apply keeps_live_bind.
  - destruct (1 <? n)%Z; [|apply keeps_live_ret].
    apply keeps_live_bind; [apply keeps_live_suppress_pd|intros mono].
    apply keeps_live_bind; [apply keeps_live_call|intros _; apply keeps_live_ret].
  - intros _ w. unfold tic. unfold bind at 1. unfold bind at 1.
    unfold now at 1. unfold ret at 1.
    apply (keeps_live_bind (call c r)); [apply keeps_live_call|intros value].
    apply keeps_live_bind; [apply keeps_live_repeat_M, keeps_live_call|intros value'].
    apply keeps_live_bind.
    { intros w0. apply live_preserved_refl. }
    intros elapsed. apply keeps_live_bind; [apply keeps_live_lift_result|].
    intros t. apply keeps_live_ret.
Qed.

Lemma keeps_live_show_invalid (grid : Data num) theory :
  keeps_live (_show_invalid grid theory).
Proof. intros w. apply live_preserved_heap, show_invalid_heap. Qed.

Lemma keeps_live_print_stats label (err : marray num) :
  keeps_live (_print_stats label err).
Proof.
  unfold _print_stats. destruct (_ =? 0)%nat; [apply keeps_live_print|].
  repeat (apply keeps_live_bind; [apply keeps_live_lift_result|intros ?]).
  apply keeps_live_print.
Qed.

Lemma keeps_live_run_side (c : Calculator num) r n verbose grid :
  keeps_live (run_side c r n verbose grid).
Proof.
  intros w. unfold run_side, try_except.
  match goal with |- context [bind ?m ?k w] =>
    pose proof (keeps_live_bind m k) as Hb; destruct (bind m k w) as [[a|e] w1] eqn:E
  end.
  - rewrite <- (f_equal snd E : snd _ = w1). apply Hb.
    + apply keeps_live_time_calculation.
    + intros [raw t]. apply keeps_live_bind.
      { destruct verbose; [apply keeps_live_print|apply keeps_live_ret]. }
      intros _. apply keeps_live_bind; [apply keeps_live_show_invalid|].
      intros _. apply keeps_live_ret.
  - assert (Hw1 : live_preserved w w1).
    { change w1 with (snd (Raise (A := option (marray num) * option num) e, w1)).
      rewrite <- E. apply Hb.
      + apply keeps_live_time_calculation.
      + intros [raw t]. apply keeps_live_bind.
        { destruct verbose; [apply keeps_live_print|apply keeps_live_ret]. }
        intros _. apply keeps_live_bind; [apply keeps_live_show_invalid|].
        intros _. apply keeps_live_ret. }
    destruct (is_ImportError e); [|exact Hw1].
    apply (live_preserved_trans _ _ _ Hw1).
    apply (keeps_live_bind (print (TracebackLine e)) (fun _ => ret (None, None))).
    + apply keeps_live_print.
    + intros _. apply keeps_live_ret.
Qed.

End KeepsLive.

(** X4.  A run never changes a parameter set: every dict object that is
    live when [run_models] starts is live and holds the same items when
    it ends, whether the run returns or raises, for every pair of
    engines, counts and grid.  (The calculators receive the items as
    keyword arguments, the warm-up works on a copy.) *)
Theorem run_models_keeps_parameter_sets {num} {N : Number num} {ML : MathLib num}
    (opts : options num) (verbose : bool) (w : process num) :
  live_preserved w (snd (run_models opts verbose w)).
Proof.
  revert w. change (keeps_live (run_models opts verbose)).
  unfold run_models.
  destruct (engines opts) as [base comp], (count opts) as [bn cn],
    (pars opts) as [bp cp].
  apply keeps_live_bind; [apply keeps_live_run_side|intros [bv bt]].
  apply keeps_live_bind.
  { destruct comp; [apply keeps_live_run_side|apply keeps_live_ret]. }
  intros [cv ct]. apply keeps_live_bind; [|intros [rs re]; apply keeps_live_ret].
  destruct comp as [comp|]; [|apply keeps_live_ret].
  repeat (apply keeps_live_bind; [apply keeps_live_lift_result|intros ?]).
  apply keeps_live_bind; [|intros _; apply keeps_live_ret].
  destruct verbose; [|apply keeps_live_ret].
  apply keeps_live_bind; [apply keeps_live_print_stats|intros _].
  apply keeps_live_print_stats.
Qed.

(* ================================================================== *)
(** * Further properties of the randomizer *)
(* ================================================================== *)

Lemma endswith_pd_nsigma_exclusive p :
  endswith p "_pd_nsigma" = true ->
  endswith p "_pd" = false /\ endswith p "_pd_n" = false
  /\ endswith p "_pd_type" = false.
Proof.
  unfold endswith. generalize (String.rev p). intros q Hq.
  destruct q as [|a q]; [discriminate|].
  change (String.rev "_pd_nsigma") with "amgisn_dp_"%string in Hq.
  change (String.rev "_pd") with "dp_"%string.
  change (String.rev "_pd_n") with "n_dp_"%string.
  change (String.rev "_pd_type") with "epyt_dp_"%string.
  cbn [String.prefix] in *.
  destruct (ascii_dec "a" a) as [Heq|]; [|discriminate]. subst a.
  repeat split; reflexivity.
Qed.

Lemma endswith_pd_n_exclusive p :
  endswith p "_pd_n" = true ->
  endswith p "_pd" = false /\ endswith p "_pd_type" = false
  /\ endswith p "_pd_nsigma" = false.
Proof.
  unfold endswith. generalize (String.rev p). intros q Hq.
  destruct q as [|a q]; [discriminate|].
  change (String.rev "_pd_n") with "n_dp_"%string in Hq.
  change (String.rev "_pd") with "dp_"%string.
  change (String.rev "_pd_nsigma") with "amgisn_dp_"%string.
  change (String.rev "_pd_type") with "epyt_dp_"%string.
  cbn [String.prefix] in *.
  destruct (ascii_dec "n" a) as [Heq|]; [|discriminate]. subst a.
  repeat split; reflexivity.
Qed.

Lemma rev_app_append s t acc :
  String.rev_app (s +:+ t) acc = String.rev_app t (String.rev_app s acc).
Proof.
  revert acc. induction s as [|a s IH]; intros acc; [reflexivity|].
  change (String a s +:+ t) with (String a (s +:+ t)). cbn [String.rev_app].
  apply IH.
Qed.

Lemma append_assoc_string (a b c : string) : (a +:+ b) +:+ c = a +:+ (b +:+ c).
Proof.
  induction a as [|x a IH]; [reflexivity|].
  change (String x a +:+ b) with (String x (a +:+ b)).
  change (String x (a +:+ b) +:+ c) with (String x ((a +:+ b) +:+ c)).
  change (String x a +:+ (b +:+ c)) with (String x (a +:+ (b +:+ c))).
  by rewrite IH.
Qed.

Lemma rev_app_acc t acc : String.rev_app t acc = String.rev_app t "" +:+ acc.
Proof.
  revert acc. induction t as [|a t IH]; intros acc; [reflexivity|].
  cbn [String.rev_app]. rewrite (IH (String a acc)), (IH (String a "")).
  by rewrite append_assoc_string.
Qed.

Lemma prefix_append a b : String.prefix a (a +:+ b) = true.
Proof.
  induction a as [|x a IH]; [by destruct b|].
  change (String x a +:+ b) with (String x (a +:+ b)). cbn [String.prefix].
  by destruct (ascii_dec x x).
Qed.

(** [(s + t).endswith(t)] *)
Lemma endswith_append s t : endswith (s +:+ t) t = true.
Proof.
  unfold endswith, String.rev.
  rewrite rev_app_append, (rev_app_acc t (String.rev_app s "")).
  apply prefix_append.
Qed.

Section RandomizerExtras.
Context {num : Type} {N : Number num} {ML : MathLib num} {G : NumpyRandom num}.

Lemma randomize_one_pd_n (mi : ModelInfo num) name (v : value num) (s : rng_state) :
  endswith name "_pd_n" = true -> _randomize_one mi name v s = (Ok (VInt 0), s).
Proof.
  intros H. unfold _randomize_one.
  destruct (endswith_pd_n_exclusive _ H) as (-> & _). by rewrite H.
Qed.

(** X5.  The three dispersion controls are never randomized: a name
    ending in [_pd_n] gets 0, one ending in [_pd_type] gets ['gaussian'],
    one ending in [_pd_nsigma] gets 3.0, for every model and value,
    without the model's parameter table being consulted and without a
    draw from the generator. *)
Theorem randomize_one_dispersion_controls (mi : ModelInfo num) (name : string)
    (v : value num) (s : rng_state) :
  (endswith name "_pd_n" = true ->
     _randomize_one mi name v s = (Ok (VInt 0), s))
  /\ (endswith name "_pd_type" = true ->
        _randomize_one mi name v s = (Ok (VStr "gaussian"), s))
  /\ (endswith name "_pd_nsigma" = true ->
        _randomize_one mi name v s = (Ok (VFloat (of_Z 3)), s)).
Proof.
  split; [apply randomize_one_pd_n|].
  unfold _randomize_one. split; intros H.
  - destruct (endswith_pd_type_exclusive _ H) as (-> & _).
    destruct (endswith name "_pd") eqn:Hpd.
    { destruct (endswith_pd_exclusive _ Hpd) as (_ & _ & E). congruence. }
    by rewrite H.
  - destruct (endswith_pd_nsigma_exclusive _ H) as (-> & -> & ->). by rewrite H.
Qed.

Lemma dict_keys_set_mono k v (d : pdict num) k' :
  k' ∈ dict_keys d -> k' ∈ dict_keys (dict_set k v d).
Proof using N.
  rewrite <- !dict_get_is_Some, dict_get_set. by destruct (String.eqb k k').
Qed.

Lemma only_point_counts_set_refl (pars : pdict num) :
  only_point_counts_set pars pars.
Proof using N. repeat split; auto. Qed.

Lemma only_point_counts_set_step (pars p1 : pdict num) k c :
  only_point_counts_set pars p1 -> endswith k "_pd_n" = true -> c ∈ pd_points ->
  only_point_counts_set pars (dict_set k (VInt c) p1).
Proof using N.
  intros (H1 & H2 & H3) Hk Hc. repeat split.
  - intros k' Hk'. rewrite dict_get_set.
    destruct (String.eqb k k') eqn:E; [|by apply H1].
    apply String.eqb_eq in E. congruence.
  - intros k' Hk'. by apply dict_keys_set_mono, H2.
  - intros k' v. rewrite dict_get_set.
    destruct (String.eqb k k'); [|by apply H3].
    intros [= <-]. right. by exists c.
Qed.

Lemma only_point_counts_set_activate (pars p1 p2 : pdict num) vol i c :
  only_point_counts_set pars p1 -> c ∈ pd_points ->
  activate vol i c p1 = Ok p2 -> only_point_counts_set pars p2.
Proof.
  intros H1 Hc. unfold activate, result_bind.
  destruct (list_getitem vol i) as [name|e]; [|discriminate].
  intros [= <-]. apply only_point_counts_set_step; [done| |done].
  apply endswith_append.
Qed.

Lemma on_return_ret {S A} (a : A) (P : A -> Prop) :
  P a -> on_return (S := S) (ret a) P.
Proof. intros H s a' s' [= <- _]. exact H. Qed.

Lemma on_return_lift_result {S A} (r : result A) (P : A -> Prop) :
  (forall a, r = Ok a -> P a) -> on_return (S := S) (lift_result r) P.
Proof. intros H s a s' [= -> _]. by apply H. Qed.

Lemma on_return_bind {S A B} (m : M S A) (k : A -> M S B) (P : A -> Prop)
    (Q : B -> Prop) :
  on_return m P -> (forall a, P a -> on_return (k a) Q) -> on_return (bind m k) Q.
Proof.
  intros Hm Hk s b s'. unfold bind.
  destruct (m s) as [[a|e] s1] eqn:E; [|discriminate].
  intros Hb. exact (Hk a (Hm _ _ _ E) _ _ _ Hb).
Qed.

Lemma on_return_any {S A} (m : M S A) : on_return m (fun _ => True).
Proof. by intros s a s' _. Qed.

Ltac pd_point := unfold pd_points; rewrite !elem_of_cons; auto 10.

Lemma random_pd_on_return (mi : ModelInfo num) (pars : pdict num) :
  on_return (_random_pd mi pars) (only_point_counts_set pars).
Proof.
  unfold _random_pd.
  eapply on_return_bind; [apply on_return_any|]. intros [vol ori] _.
  eapply on_return_bind; [apply on_return_any|]. intros u _.
  apply (on_return_bind _ _ (only_point_counts_set pars)).
  - destruct (_ || _); [apply on_return_ret, only_point_counts_set_refl|].
    destruct (_ || _); [|destruct (_ || _)].
    + eapply on_return_bind; [apply on_return_any|]. intros i _.
      apply on_return_lift_result. intros p.
      apply only_point_counts_set_activate;
        [apply only_point_counts_set_refl | pd_point].
    + eapply on_return_bind; [apply on_return_any|]. intros choices _.
      eapply on_return_bind; [apply on_return_any|]. intros c0 _.
      apply (on_return_bind _ _ (only_point_counts_set pars)).
      { apply on_return_lift_result. intros p.
        apply only_point_counts_set_activate;
          [apply only_point_counts_set_refl | pd_point]. }
      intros p1 H1.
      eapply on_return_bind; [apply on_return_any|]. intros c1 _.
      apply on_return_lift_result. intros p.
      apply only_point_counts_set_activate; [exact H1 | pd_point].
    + eapply on_return_bind; [apply on_return_any|]. intros choices _.
      eapply on_return_bind; [apply on_return_any|]. intros c0 _.
      apply (on_return_bind _ _ (only_point_counts_set pars)).
      { apply on_return_lift_result. intros p.
        apply only_point_counts_set_activate;
          [apply only_point_counts_set_refl | pd_point]. }
      intros p1 H1.
      eapply on_return_bind; [apply on_return_any|]. intros c1 _.
      apply (on_return_bind _ _ (only_point_counts_set pars)).
      { apply on_return_lift_result. intros p.
        apply only_point_counts_set_activate; [exact H1 | pd_point]. }
      intros p2 H2.
      eapply on_return_bind; [apply on_return_any|]. intros c2 _.
      apply on_return_lift_result. intros p.
      apply only_point_counts_set_activate; [exact H2 | pd_point].
  - intros p1 H1. destruct ori as [|o ori]; [by apply on_return_ret|].
    eapply on_return_bind; [apply on_return_any|]. intros u1 _.
    eapply on_return_bind; [apply on_return_any|]. intros u2 _.
    apply on_return_ret.
    assert (H2 : only_point_counts_set pars (dict_set "theta_pd_n" (VInt 20) p1))
      by (apply only_point_counts_set_step; [done|reflexivity|pd_point]).
    assert (H3 : only_point_counts_set pars
                   (if nltb u1 (dec 1 1)
                    then dict_set "phi_pd_n" (VInt 5)
                           (dict_set "theta_pd_n" (VInt 20) p1)
                    else dict_set "theta_pd_n" (VInt 20) p1)).
    { destruct (nltb u1 (dec 1 1)); [|done].
      apply only_point_counts_set_step; [done|reflexivity|pd_point]. }
    destruct (_ && _); [|done].
    apply only_point_counts_set_step; [done|reflexivity|pd_point].
Qed.

(** The names the first loop of [_random_pd] puts on its orientation
    list: those of the orientation parameters, in order. *)
Lemma collect_pd_oriented (pd : list (ParameterInfo num)) (pars : pdict num)
    vol ori vol' ori' :
  collect_pd pd pars vol ori = Ok (vol', ori') ->
  ori' = ori ++ map par_name
                  (List.filter (fun p => String.eqb (par_type p) "orientation") pd).
Proof.
  revert vol ori. induction pd as [|p pd IH]; intros vol ori; cbn [collect_pd].
  - intros [= _ <-]. cbn. by rewrite app_nil_r.
  - cbn [List.filter]. destruct (String.eqb (par_type p) "orientation").
    + intros H. rewrite (IH _ _ H). cbn [map]. by rewrite <- app_assoc.
    + destruct (par_length_control p) as [control|].
      * unfold result_bind.
        destruct (to_num _) as [x|]; [|discriminate].
        destruct (py_int _) as [n|]; [|discriminate]. apply IH.
      * destruct (1 <? par_length p)%nat; apply IH.
Qed.

(** X6.  [_random_pd] only ever switches dispersion on: whenever it
    returns, every key of the parameter set is still there, every entry
    whose key does not end in [_pd_n] is unchanged, and an entry that
    differs holds one of the point counts 35, 25, 10, 5 or 20.  When the
    model has a polydisperse orientation parameter, [theta_pd_n] is 20
    afterwards. *)
Theorem random_pd_sets_only_point_counts (mi : ModelInfo num) (pars pars' : pdict num)
    (s s' : rng_state) :
  _random_pd mi pars s = (Ok pars', s') ->
  only_point_counts_set pars pars'
  /\ ((exists p, p ∈ kernel_parameters (parameters mi)
                 /\ par_polydisperse p = true
                 /\ par_type p = "orientation"%string) ->
      dict_get "theta_pd_n" pars' = Some (VInt 20)).
Proof.
  intros Hrun. split; [exact (random_pd_on_return mi pars _ _ _ Hrun)|].
  intros (p & Hin & Hpd & Htype). revert Hrun.
  unfold _random_pd. unfold bind at 1. unfold lift_result at 1.
  destruct (collect_pd _ pars [] []) as [[vol ori]|e] eqn:Hc; [|discriminate].
  apply collect_pd_oriented in Hc. cbn [app] in Hc.
  destruct ori as [|o ori].
  { exfalso. symmetry in Hc. apply map_eq_nil in Hc.
    assert (Hp : p ∈ List.filter (fun p => String.eqb (par_type p) "orientation")
                   (List.filter par_polydisperse
                      (kernel_parameters (parameters mi)))).
    { apply list_elem_of_In, filter_In. split.
      - apply filter_In. split; [by apply list_elem_of_In|done].
      - rewrite Htype. reflexivity. }
    rewrite Hc in Hp. by apply elem_of_nil in Hp. }
  unfold bind at 1. destruct (draw np_rand s) as [[u|e] s1]; [|discriminate].
  unfold bind at 1.
  match goal with |- context [match ?m s1 with _ => _ end] =>
    destruct (m s1) as [[p1|e] s2]; [|discriminate] end.
  unfold bind, draw, ret.
  destruct (np_rand s2) as [u1 s3], (np_rand s3) as [u2 s4].
  intros [= <- _].
  destruct (_ && _), (nltb u1 (dec 1 1));
    rewrite ?dict_get_set; reflexivity.
Qed.

Lemma dict_update_keys (d o : pdict num) k :
  k ∈ dict_keys (dict_update d o) <-> k ∈ dict_keys d \/ k ∈ dict_keys o.
Proof using N.
  unfold dict_update. revert d. induction o as [|[k1 v1] o IH]; intros d.
  - cbn. rewrite elem_of_nil. tauto.
  - cbn [fold_left fst snd]. change (dict_keys ((k1, v1) :: o)) with (k1 :: dict_keys o).
    rewrite IH, elem_of_cons, <- !dict_get_is_Some, dict_get_set.
    destruct (String.eqb k1 k) eqn:E.
    + apply String.eqb_eq in E. subst. intuition eauto.
    + apply String.eqb_neq in E. intuition congruence.
Qed.

Lemma dict_update_get (d o : pdict num) k :
  NoDup (dict_keys o) ->
  dict_get k (dict_update d o)
  = match dict_get k o with Some v => Some v | None => dict_get k d end.
Proof using N.
  unfold dict_update. revert d. induction o as [|[k1 v1] o IH]; intros d Hnd.
  - reflexivity.
  - change (dict_keys ((k1, v1) :: o)) with (k1 :: dict_keys o) in Hnd.
    apply NoDup_cons in Hnd as [Hk1 Hnd]. cbn [fold_left fst snd dict_get].
    rewrite (IH _ Hnd), dict_get_set.
    destruct (String.eqb k1 k) eqn:E; [|reflexivity].
    apply String.eqb_eq in E. subst k1.
    destruct (dict_get k o) eqn:Hg; [|reflexivity].
    exfalso. apply Hk1, dict_get_is_Some. by rewrite Hg.
Qed.

Lemma dict_update_get_elem (d o : pdict num) k v :
  dict_get k (dict_update d o) = Some v -> (k, v) ∈ o \/ dict_get k d = Some v.
Proof using N.
  unfold dict_update. revert d. induction o as [|[k1 v1] o IH]; intros d.
  - cbn. auto.
  - cbn [fold_left fst snd]. intros H. apply IH in H as [H|H]; [left; by apply list_elem_of_further|].
    rewrite dict_get_set in H. destruct (String.eqb k1 k) eqn:E; [|by right].
    apply String.eqb_eq in E. injection H as <-. subst. left. apply list_elem_of_here.
Qed.

Lemma randomize_items_values (mi : ModelInfo num) items s drawn s' :
  randomize_items mi items s = (Ok drawn, s') ->
  forall k v, (k, v) ∈ drawn ->
    exists v0 sk sk', (k, v0) ∈ items /\ _randomize_one mi k v0 sk = (Ok v, sk').
Proof.
  unfold randomize_items. revert s drawn s'.
  induction items as [|[k0 v0] items IH]; intros s drawn s'; cbn [map_M].
  - intros [= <- _] k v Hin. by apply elem_of_nil in Hin.
  - unfold bind at 1. unfold bind at 1. cbn [fst snd].
    destruct (_randomize_one mi k0 v0 s) as [[r|e] s1] eqn:Hone; [|discriminate].
    unfold ret at 1. unfold bind at 1.
    destruct (map_M _ items s1) as [[ys|e] s2] eqn:Hrest; [|discriminate].
    intros [= <- _] k v Hin. apply elem_of_cons in Hin as [[= -> ->]|Hin].
    + exists v0, s, s1. split; [apply list_elem_of_here|done].
    + destruct (IH _ _ _ Hrest k v Hin) as (v1 & sk & sk' & Hi & Hr).
      exists v1, sk, sk'. split; [by apply list_elem_of_further|done].
Qed.

(** The three steps of [randomize_pars], when it returns. *)
Lemma randomize_pars_inv (mi : ModelInfo num) (pars res : pdict num)
    (s s' : rng_state) :
  randomize_pars mi pars s = (Ok res, s') ->
  exists drawn s1 overrides,
    randomize_items mi (sorted_items pars) s = (Ok drawn, s1)
    /\ match random mi with
       | Some hook => overrides = fst (hook s1)
       | None => overrides = []
       end
    /\ only_point_counts_set (dict_update (dict_of_items drawn) overrides) res.
Proof.
  unfold randomize_pars. unfold bind at 1.
  destruct (randomize_items mi (sorted_items pars) s) as [[drawn|e] s1] eqn:Hd;
    [|discriminate].
  unfold bind at 1. intros Hpd. exists drawn, s1.
  destruct (random mi) as [hook|].
  - unfold bind at 1, draw, ret in Hpd. destruct (hook s1) as [overrides s2].
    apply random_pd_on_return in Hpd. by exists overrides.
  - unfold ret at 1 in Hpd. apply random_pd_on_return in Hpd. by exists [].
Qed.

Lemma randomize_pars_hook_get (mi : ModelInfo num) (pars res : pdict num)
    (s s' : rng_state) hook drawn s1 k v :
  randomize_pars mi pars s = (Ok res, s') ->
  random mi = Some hook ->
  randomize_items mi (sorted_items pars) s = (Ok drawn, s1) ->
  NoDup (dict_keys (fst (hook s1))) ->
  dict_get k (fst (hook s1)) = Some v -> endswith k "_pd_n" = false ->
  dict_get k res = Some v.
Proof.
  intros Hrun Hhook Hd Hnd Hk Hn.
  destruct (randomize_pars_inv _ _ _ _ _ Hrun) as (drawn' & s1' & o & Hd' & Ho & H1 & _).
  rewrite Hd in Hd'. injection Hd' as <- <-. rewrite Hhook in Ho. subst o.
  by rewrite (H1 k Hn), (dict_update_get _ _ _ Hnd), Hk.
Qed.

(** X7.  What [randomize_pars] returns.  Every key of the input is a
    key of the result.  The overrides of the model's [random] hook win
    over the drawn values: an entry the hook returns under a key not
    ending in [_pd_n] is in the result as returned.  For a model
    without a hook, dispersion is off except where [_random_pd] switched
    it on: every entry under a key ending in [_pd_n] is 0 or one of the
    point counts 35, 25, 10, 5, 20. *)
Theorem randomize_pars_result (mi : ModelInfo num) (pars res : pdict num)
    (s s' : rng_state) :
  randomize_pars mi pars s = (Ok res, s') ->
  (forall k, k ∈ dict_keys pars -> k ∈ dict_keys res)
  /\ (exists drawn s1,
        randomize_items mi (sorted_items pars) s = (Ok drawn, s1)
        /\ forall hook, random mi = Some hook ->
             NoDup (dict_keys (fst (hook s1))) ->
             forall k v, dict_get k (fst (hook s1)) = Some v ->
               endswith k "_pd_n" = false -> dict_get k res = Some v)
  /\ (random mi = None ->
      forall k v, endswith k "_pd_n" = true -> dict_get k res = Some v ->
        v = VInt 0 \/ exists c, v = VInt c /\ c ∈ pd_points).
Proof.
  intros Hrun.
  destruct (randomize_pars_inv _ _ _ _ _ Hrun)
    as (drawn & s1 & o & Hd & Ho & H1 & H2 & H3).
  split; [|split].
  - intros k Hk. apply H2, dict_update_keys. left.
    apply dict_update_keys. right. unfold dict_keys.
    rewrite (randomize_items_keys _ _ _ _ _ Hd).
    by rewrite (sorted_items_perm pars).
  - exists drawn, s1. split; [done|]. intros hook Hhook Hnd k v Hk Hn.
    exact (randomize_pars_hook_get _ _ _ _ _ _ _ _ _ _ Hrun Hhook Hd Hnd Hk Hn).
  - intros Hnone k v Hk Hv. rewrite Hnone in Ho. subst o.
    apply H3 in Hv as [Hv|Hv]; [left|by right].
    apply dict_update_get_elem in Hv as [Hv|Hv]; [by apply elem_of_nil in Hv|].
    unfold dict_of_items in Hv.
    apply dict_update_get_elem in Hv as [Hv|Hv]; [|discriminate].
    destruct (randomize_items_values _ _ _ _ _ Hd k v Hv)
      as (v0 & sk & sk' & _ & Hone).
    rewrite (randomize_one_pd_n mi k v0 sk Hk) in Hone.
    by injection Hone as <-.
Qed.

(** X8.  The polymer micelle model, whatever [pi], [randn] and
    [randint] are: its hook returns the same nine keys on every call,
    each once, with [background] 0 and [ndensity] 8.94; and whenever
    [randomize_pars] returns for a model with this hook, the result has
    [background] 0 and [ndensity] 8.94, whatever the input parameter set
    and the draws. *)
Theorem polymer_micelle_random_fixes_density (pi : num)
    (np_randn : rng_state -> num * rng_state)
    (np_randint_range : Z -> Z -> rng_state -> Z * rng_state)
    (mi : ModelInfo num) (pars res : pdict num) (s s' : rng_state) :
  let hook := polymer_micelle_random pi np_randn np_randint_range in
  (forall s0,
     dict_keys (fst (hook s0))
     = [ "background"; "scale"; "ndensity"; "v_core"; "v_corona";
         "radius_core"; "rg"; "d_penetration"; "n_aggreg" ]%string
     /\ dict_get "background" (fst (hook s0)) = Some (VInt 0)
     /\ dict_get "ndensity" (fst (hook s0)) = Some (VFloat (dec 894 2)))
  /\ (random mi = Some hook ->
      randomize_pars mi pars s = (Ok res, s') ->
      dict_get "background" res = Some (VInt 0)
      /\ dict_get "ndensity" res = Some (VFloat (dec 894 2))).
Proof.
  intros hook.
  assert (Hhook : forall s0,
            dict_keys (fst (hook s0))
            = [ "background"; "scale"; "ndensity"; "v_core"; "v_corona";
                "radius_core"; "rg"; "d_penetration"; "n_aggreg" ]%string
            /\ dict_get "background" (fst (hook s0)) = Some (VInt 0)
            /\ dict_get "ndensity" (fst (hook s0)) = Some (VFloat (dec 894 2))).
  { intros s0. unfold hook, polymer_micelle_random.
    destruct (np_uniform _ _ s0) as [u1 s1], (np_uniform _ _ s1) as [u2 s2],
      (np_randn s2) as [z s3], (np_randint_range 3%Z 30%Z s3) as [n s4],
      (np_randint_range 6%Z 30%Z s4) as [t s5].
    repeat split. }
  split; [exact Hhook|]. intros Hrandom Hrun.
  destruct (randomize_pars_inv _ _ _ _ _ Hrun) as (drawn & s1 & o & Hd & _).
  destruct (Hhook s1) as (Hkeys & Hb & Hn).
  assert (Hnd : NoDup (dict_keys (fst (hook s1)))).
  { rewrite Hkeys. apply (bool_decide_unpack _). vm_compute. exact I. }
  split.
  - exact (randomize_pars_hook_get _ _ _ _ _ _ _ _ _ _ Hrun Hrandom Hd Hnd Hb eq_refl).
  - exact (randomize_pars_hook_get _ _ _ _ _ _ _ _ _ _ Hrun Hrandom Hd Hnd Hn eq_refl).
Qed.

End RandomizerExtras.

(** X5 on [radius_pd_n] of the three-parameter model. *)
Lemma randomize_one_dispersion_controls_witness :
  endswith "radius_pd_n" "_pd_n" = true
  /\ _randomize_one (ML := float_lib) three_volume_model "radius_pd_n" (VInt 35)
       [10; 20]%Z
     = (Ok (VInt 0), [10; 20]%Z).
Proof.
  split; [reflexivity|].
  exact (proj1 (randomize_one_dispersion_controls (ML := float_lib)
                  three_volume_model "radius_pd_n" (VInt 35) [10; 20]%Z)
               eq_refl).
Defined.

(** X6 on the oriented model: the draws 0.50, index 0, 0.05, 0.50 switch
    on [radius_pd_n], [theta_pd_n] and [phi_pd_n]. *)
Lemma random_pd_sets_only_point_counts_witness :
  _random_pd oriented_model [("radius", VFloat 20%float)]%string [50; 0; 5; 50]%Z
  = (Ok [ ("radius", VFloat 20%float); ("radius_pd_n", VInt 35);
          ("theta_pd_n", VInt 20); ("phi_pd_n", VInt 5) ]%string, [])
  /\ only_point_counts_set [("radius", VFloat 20%float)]%string
       [ ("radius", VFloat 20%float); ("radius_pd_n", VInt 35);
         ("theta_pd_n", VInt 20); ("phi_pd_n", VInt 5) ]%string
  /\ dict_get "theta_pd_n"
       [ ("radius", VFloat 20%float); ("radius_pd_n", VInt 35);
         ("theta_pd_n", VInt 20); ("phi_pd_n", VInt 5) ]%string
     = Some (VInt 20).
Proof.
  assert (Hrun : _random_pd oriented_model [("radius", VFloat 20%float)]%string
                   [50; 0; 5; 50]%Z
                 = (Ok [ ("radius", VFloat 20%float); ("radius_pd_n", VInt 35);
                         ("theta_pd_n", VInt 20); ("phi_pd_n", VInt 5) ]%string, []))
    by (vm_compute; reflexivity).
  split; [exact Hrun|].
  pose proof (random_pd_sets_only_point_counts (ML := float_lib) _ _ _ _ _ Hrun)
    as [H1 H2].
  split; [exact H1|]. apply H2. exists (orientation_par "theta").
  split; [|split; reflexivity].
  apply list_elem_of_further, list_elem_of_here.
Defined.

(** X7 on the polymer micelle model: the hook's [scale] replaces the
    drawn one. *)
Lemma randomize_pars_result_witness :
  exists res s',
    randomize_pars (ML := float_lib) micelle_model micelle_pars
      [10; 20; 30; 40; 50; 60; 70; 80; 90; 15; 25]%Z = (Ok res, s')
    /\ (forall k, k ∈ dict_keys micelle_pars -> k ∈ dict_keys res)
    /\ dict_get "background" res = Some (VInt 0).
Proof.
  eexists _, _.
  match goal with |- ?E /\ _ => assert (Hrun : E) by (vm_compute; reflexivity) end.
  split; [exact Hrun|].
  pose proof (randomize_pars_result (ML := float_lib) _ _ _ _ _ Hrun)
    as (H1 & (drawn & s1 & Hd & H2) & _).
  split; [exact H1|].
  vm_compute in Hd. injection Hd as <- <-.
  apply (H2 _ eq_refl); [|reflexivity|reflexivity].
  apply (bool_decide_unpack _). vm_compute. exact I.
Defined.

(** X8 on the polymer micelle model of the examples. *)
Lemma polymer_micelle_random_fixes_density_witness :
  exists res s',
    randomize_pars (ML := float_lib) micelle_model micelle_pars
      [10; 20; 30; 40; 50; 60; 70; 80; 90; 15; 25]%Z = (Ok res, s')
    /\ dict_get "background" res = Some (VInt 0)
    /\ dict_get "ndensity" res = Some (VFloat (894 / 100)%float).
Proof.
  eexists _, _.
  match goal with |- ?E /\ _ => assert (Hrun : E) by (vm_compute; reflexivity) end.
  split; [exact Hrun|].
  exact (proj2 (polymer_micelle_random_fixes_density (ML := float_lib)
                  (G := Scripted.generator float)
                  0x1.921fb54442d18p+1%float Scripted.rand scripted_randint_range
                  micelle_model micelle_pars _ _ _) eq_refl Hrun).
Defined.

(* ================================================================== *)
(** * Further properties of [constrain_pars] *)
(* ================================================================== *)

(** [<] on binary64 is asymmetric. *)
Lemma float_ltb_asym (x y : float) :
  PrimFloat.ltb x y = true -> PrimFloat.ltb y x = false.
Proof.
  rewrite !ltb_spec. unfold SFltb.
  destruct (Prim2SF x) as [sx|sx| |sx mx ex], (Prim2SF y) as [sy|sy| |sy my ey];
    cbn; try discriminate; try reflexivity;
    try (destruct sx; try discriminate; try reflexivity;
         destruct sy; try discriminate; reflexivity).
  destruct sx, sy; try discriminate; try reflexivity.
  - rewrite (Z.compare_antisym ex ey).
    destruct (ex ?= ey)%Z; cbn; try discriminate; try reflexivity.
    change (PosDef.Pos.compare_cont Eq my mx) with (my ?= mx)%positive.
    change (PosDef.Pos.compare_cont Eq mx my) with (mx ?= my)%positive.
    rewrite (Pos.compare_antisym mx my).
    destruct (mx ?= my)%positive; cbn; try discriminate; reflexivity.
  - rewrite (Z.compare_antisym ex ey).
    destruct (ex ?= ey)%Z; cbn; try discriminate; try reflexivity.
    change (PosDef.Pos.compare_cont Eq my mx) with (my ?= mx)%positive.
    change (PosDef.Pos.compare_cont Eq mx my) with (mx ?= my)%positive.
    rewrite (Pos.compare_antisym mx my).
    destruct (mx ?= my)%positive; cbn; try discriminate; reflexivity.
Qed.

Section RepairExtras.
Context {num : Type} {N : Number num} {ML : MathLib num} {G : NumpyRandom num}.

Lemma dict_update_keys_same (d o : pdict num) :
  (forall k, k ∈ dict_keys o -> k ∈ dict_keys d) ->
  dict_keys (dict_update d o) = dict_keys d.
Proof using N.
  unfold dict_update. revert d. induction o as [|[k v] o IH]; intros d Ho.
  - reflexivity.
  - cbn [fold_left fst snd].
    assert (Hk : k ∈ dict_keys d) by (apply Ho; apply list_elem_of_here).
    rewrite IH; [by apply dict_keys_set_in|].
    intros k' Hk'. rewrite (dict_keys_set_in _ _ _ Hk).
    apply Ho. by apply list_elem_of_further.
Qed.

(** Content of the dict after the first step of [constrain_pars]. *)
Lemma python_repair_keys callable (d : pdict num) :
  dict_keys (python_repair callable d) = dict_keys d.
Proof using N.
  destruct callable; [|reflexivity]. cbn [python_repair].
  apply dict_update_keys_same. intros k.
  unfold nonmagnetic. by rewrite zero_keys_keys.
Qed.

Lemma python_repair_get callable (d : pdict num) k :
  NoDup (dict_keys d) ->
  dict_get k (python_repair callable d)
  = (fun v => if callable && startswith k "M0:" then VInt 0 else v) <$> dict_get k d.
Proof using N.
  intros Hnd. destruct callable; cbn [python_repair andb].
  - rewrite dict_update_get
      by (unfold nonmagnetic; by rewrite zero_keys_keys).
    unfold nonmagnetic. rewrite zero_keys_get.
    by destruct (dict_get k d).
  - by destruct (dict_get k d).
Qed.

Lemma python_step (mi : ModelInfo num) r (d : pdict num) (w : process num) :
  heap w !! r = Some d ->
  exists w0,
    (if Iq_callable mi then
       let* nonmagnetic := suppress_magnetism r true in
       ref_update r nonmagnetic
     else ret tt) w = (Ok tt, at_dict w0 r (python_repair (Iq_callable mi) d))
    /\ (forall r0, r0 <> r -> is_Some (heap w !! r0) ->
          heap w0 !! r0 = heap w !! r0).
Proof.
  intros Hr. destruct (Iq_callable mi); cbn [python_repair].
  - assert (Hfresh : heap w !! fresh (dom (heap w)) = None)
      by (apply not_elem_of_dom, is_fresh).
    set (r' := fresh (dom (heap w))) in *.
    set (w1 := set_heap (<[r' := nonmagnetic d]> (heap w)) w).
    exists w1. split.
    + rewrite (bind_ok _ _ _ _ _ (suppress_magnetism_true r d w Hr)).
      fold r'. fold w1. unfold ref_update, bind, deref.
      assert (heap w1 !! r = Some d) as ->.
      { cbn. rewrite lookup_insert_ne; [done|]. intros Heq. congruence. }
      assert (heap w1 !! r' = Some (nonmagnetic d)) as ->
        by (cbn; by rewrite lookup_insert_eq).
      reflexivity.
    + intros r0 _ [d0 H0]. cbn. rewrite lookup_insert_ne; [done|].
      intros Heq. congruence.
  - exists w. split; [|done]. unfold ret. by rewrite at_dict_self.
Qed.

Lemma item_lt_at (w : process num) r (d : pdict num) a b x y :
  dict_get a d = Some (VFloat x) -> dict_get b d = Some (VFloat y) ->
  item_lt r a b (at_dict w r d) = (Ok (nltb x y), at_dict w r d).
Proof.
  intros Ha Hb. unfold item_lt.
  rewrite (bind_ok _ _ _ _ _ (getitem_at w r d _ _ Ha)).
  by rewrite (bind_ok _ _ _ _ _ (getitem_at w r d _ _ Hb)).
Qed.

Lemma assign_pair_at (w : process num) r (d : pdict num) t1 t2 s1 s2 v1 v2 :
  dict_get s1 d = Some v1 -> dict_get s2 d = Some v2 ->
  assign_pair r t1 t2 s1 s2 (at_dict w r d)
  = (Ok tt, at_dict w r (dict_set t2 v2 (dict_set t1 v1 d))).
Proof.
  intros H1 H2. unfold assign_pair.
  rewrite (bind_ok _ _ _ _ _ (getitem_at w r d _ _ H1)).
  rewrite (bind_ok _ _ _ _ _ (getitem_at w r d _ _ H2)).
  rewrite (bind_ok _ _ _ _ _ (setitem_at w r d _ _)).
  apply setitem_at.
Qed.

(** The test and the swap of the three ordering branches. *)
Lemma swap_at (w : process num) r (d : pdict num) small big a b t1 t2 :
  dict_get small d = Some (VFloat a) -> dict_get big d = Some (VFloat b) ->
  small <> big ->
  (t1 = small /\ t2 = big) \/ (t1 = big /\ t2 = small) ->
  exists d',
    (let* swap := item_lt r big small in
     if swap then assign_pair r t1 t2 t2 t1 else ret tt) (at_dict w r d)
    = (Ok tt, at_dict w r d')
    /\ dict_get small d' = Some (VFloat (if nltb b a then b else a))
    /\ dict_get big d' = Some (VFloat (if nltb b a then a else b))
    /\ (forall k, k <> small -> k <> big -> dict_get k d' = dict_get k d).
Proof.
  intros Hs Hb Hne Ht.
  rewrite (bind_ok _ _ _ _ _ (item_lt_at w r d _ _ _ _ Hb Hs)).
  destruct (nltb b a).
  - assert (E1 : String.eqb small big = false) by by apply String.eqb_neq.
    assert (E2 : String.eqb big small = false) by (apply String.eqb_neq; congruence).
    destruct Ht as [[-> ->]|[-> ->]].
    + exists (dict_set big (VFloat a) (dict_set small (VFloat b) d)).
      split; [by apply assign_pair_at|]. repeat split.
      * by rewrite !dict_get_set, E2, String.eqb_refl.
      * by rewrite !dict_get_set, String.eqb_refl.
      * intros k H1 H2. rewrite !dict_get_set.
        apply String.eqb_neq in H1, H2. rewrite String.eqb_sym in H1.
        rewrite String.eqb_sym in H2. by rewrite H1, H2.
    + exists (dict_set small (VFloat b) (dict_set big (VFloat a) d)).
      split; [by apply assign_pair_at|]. repeat split.
      * by rewrite !dict_get_set, String.eqb_refl.
      * by rewrite !dict_get_set, E1, String.eqb_refl.
      * intros k H1 H2. rewrite !dict_get_set.
        apply String.eqb_neq in H1, H2. rewrite String.eqb_sym in H1.
        rewrite String.eqb_sym in H2. by rewrite H1, H2.
  - exists d. by repeat split.
Qed.

(** X9.  For the barbell, capped cylinder and pearl necklace models
    [constrain_pars] puts the two radii in order, in the caller's dict:
    the smaller of the two values ends up under the parameter that must
    not be the larger one ([radius], [radius], [thick_string]), the
    larger under the other ([radius_bell], [radius_cap], [radius]), so
    that the test of the repair is false afterwards.  Every other entry
    is as before, except that for a Python model the entries under
    [M0:] keys are 0.  ([<] is asymmetric in binary64 and in exact
    arithmetic.) *)
Theorem constrain_pars_orders_radii (mi : ModelInfo num) (r : loc) (d : pdict num)
    (w : process num) (small big : string) (a b : num) :
  (forall x y : num, nltb x y = true -> nltb y x = false) ->
  (id mi, small, big) ∈ ordered_radii ->
  heap w !! r = Some d -> NoDup (dict_keys d) ->
  dict_get small d = Some (VFloat a) -> dict_get big d = Some (VFloat b) ->
  exists w' d',
    constrain_pars mi r w = (Ok tt, w') /\ heap w' !! r = Some d'
    /\ dict_get small d' = Some (VFloat (if nltb b a then b else a))
    /\ dict_get big d' = Some (VFloat (if nltb b a then a else b))
    /\ nltb (if nltb b a then a else b) (if nltb b a then b else a) = false
    /\ (forall k, k <> small -> k <> big ->
          dict_get k d'
          = (fun v => if Iq_callable mi && startswith k "M0:" then VInt 0 else v)
              <$> dict_get k d).
Proof.
  intros Hasym Hmodel Hr Hnd Hs Hb.
  destruct (python_step mi r d w Hr) as (w0 & Hstep & _).
  set (d1 := python_repair (Iq_callable mi) d) in *.
  assert (Hget : forall k, dict_get k d1
            = (fun v => if Iq_callable mi && startswith k "M0:" then VInt 0 else v)
                <$> dict_get k d)
    by (intros k; by apply python_repair_get).
  assert (Hord : nltb (if nltb b a then a else b) (if nltb b a then b else a) = false).
  { destruct (nltb b a) eqn:E; [by apply Hasym|done]. }
  unfold ordered_radii in Hmodel.
  rewrite !elem_of_cons, elem_of_nil in Hmodel.
  destruct Hmodel as [[= Hid -> ->]|[[= Hid -> ->]|[[= Hid -> ->]|[]]]].
  - assert (Hs1 : dict_get "radius" d1 = Some (VFloat a)).
    { rewrite Hget, Hs. cbn. by rewrite andb_false_r. }
    assert (Hb1 : dict_get "radius_bell" d1 = Some (VFloat b)).
    { rewrite Hget, Hb. cbn. by rewrite andb_false_r. }
    destruct (swap_at w0 r d1 "radius" "radius_bell" a b "radius" "radius_bell"
                Hs1 Hb1 ltac:(discriminate) ltac:(by left))
      as (d' & Hrun & H1 & H2 & H3).
    exists (at_dict w0 r d'), d'. split; [|split; [apply at_dict_lookup|]].
    + unfold constrain_pars. rewrite Hid.
      rewrite (bind_ok _ _ _ _ _ Hstep). exact Hrun.
    + repeat split; try done. intros k Hk1 Hk2. by rewrite (H3 k Hk1 Hk2).
  - assert (Hs1 : dict_get "radius" d1 = Some (VFloat a)).
    { rewrite Hget, Hs. cbn. by rewrite andb_false_r. }
    assert (Hb1 : dict_get "radius_cap" d1 = Some (VFloat b)).
    { rewrite Hget, Hb. cbn. by rewrite andb_false_r. }
    destruct (swap_at w0 r d1 "radius" "radius_cap" a b "radius" "radius_cap"
                Hs1 Hb1 ltac:(discriminate) ltac:(by left))
      as (d' & Hrun & H1 & H2 & H3).
    exists (at_dict w0 r d'), d'. split; [|split; [apply at_dict_lookup|]].
    + unfold constrain_pars. rewrite Hid.
      rewrite (bind_ok _ _ _ _ _ Hstep). exact Hrun.
    + repeat split; try done. intros k Hk1 Hk2. by rewrite (H3 k Hk1 Hk2).
  - assert (Hs1 : dict_get "thick_string" d1 = Some (VFloat a)).
    { rewrite Hget, Hs. cbn. by rewrite andb_false_r. }
    assert (Hb1 : dict_get "radius" d1 = Some (VFloat b)).
    { rewrite Hget, Hb. cbn. by rewrite andb_false_r. }
    destruct (swap_at w0 r d1 "thick_string" "radius" a b "radius" "thick_string"
                Hs1 Hb1 ltac:(discriminate) ltac:(by right))
      as (d' & Hrun & H1 & H2 & H3).
    exists (at_dict w0 r d'), d'. split; [|split; [apply at_dict_lookup|]].
    + unfold constrain_pars. rewrite Hid.
      rewrite (bind_ok _ _ _ _ _ Hstep). exact Hrun.
    + repeat split; try done. intros k Hk1 Hk2. by rewrite (H3 k Hk1 Hk2).
Qed.

(** X10.  For the guinier model [constrain_pars] replaces [rg] by
    [min(rg, rg_max)] with [rg_max = sqrt(90 ln 10 + 3 ln scale) / 1.0]:
    afterwards [rg] is not above [rg_max], and it is the old [rg]
    whenever that was not above [rg_max] (in particular when [rg_max] is
    NaN).  Every other entry is as before, except that for a Python
    model the entries under [M0:] keys are 0. *)
Theorem constrain_pars_guinier_clamp (mi : ModelInfo num) (r : loc) (d : pdict num)
    (w : process num) (scale rg : num) :
  (forall x : num, nltb x x = false) ->
  id mi = "guinier"%string ->
  heap w !! r = Some d -> NoDup (dict_keys d) ->
  dict_get "scale" d = Some (VFloat scale) -> dict_get "rg" d = Some (VFloat rg) ->
  let rg_max :=
    ndiv (np_sqrt (nadd (nmul (of_Z 90) (np_log (of_Z 10)))
                        (nmul (of_Z 3) (np_log scale)))) (of_Z 1) in
  exists w' d',
    constrain_pars mi r w = (Ok tt, w') /\ heap w' !! r = Some d'
    /\ dict_get "rg" d' = Some (VFloat (py_min rg rg_max))
    /\ nltb rg_max (py_min rg rg_max) = false
    /\ (nltb rg_max rg = false -> dict_get "rg" d' = Some (VFloat rg))
    /\ (forall k, k <> "rg"%string ->
          dict_get k d'
          = (fun v => if Iq_callable mi && startswith k "M0:" then VInt 0 else v)
              <$> dict_get k d).
Proof.
  intros Hirr Hid Hr Hnd Hscale Hrg rg_max.
  destruct (python_step mi r d w Hr) as (w0 & Hstep & _).
  set (d1 := python_repair (Iq_callable mi) d) in *.
  assert (Hget : forall k, dict_get k d1
            = (fun v => if Iq_callable mi && startswith k "M0:" then VInt 0 else v)
                <$> dict_get k d)
    by (intros k; by apply python_repair_get).
  assert (Hs1 : dict_get "scale" d1 = Some (VFloat scale)).
  { rewrite Hget, Hscale. cbn. by rewrite andb_false_r. }
  assert (Hr1 : dict_get "rg" d1 = Some (VFloat rg)).
  { rewrite Hget, Hrg. cbn. by rewrite andb_false_r. }
  exists (at_dict w0 r (dict_set "rg" (VFloat (py_min rg rg_max)) d1)),
         (dict_set "rg" (VFloat (py_min rg rg_max)) d1).
  split; [|split; [apply at_dict_lookup|]].
  - unfold constrain_pars. rewrite Hid.
    rewrite (bind_ok _ _ _ _ _ Hstep).
    change (String.eqb "guinier" "barbell") with false.
    change (String.eqb "guinier" "capped_cylinder") with false.
    change (String.eqb "guinier" "guinier") with true. cbv iota.
    change (if contains "*" "guinier" then split_head "*" "guinier" else "guinier")
      with "guinier"%string.
    change (String.eqb "guinier" "barbell") with false.
    change (String.eqb "guinier" "capped_cylinder") with false.
    change (String.eqb "guinier" "guinier") with true. cbv iota.
    rewrite (bind_ok _ _ _ _ _ (getitem_at w0 r d1 _ _ Hs1)).
    rewrite (bind_ok (lift_result (to_num (VFloat scale))) _ _ scale _ eq_refl).
    rewrite (bind_ok _ _ _ _ _ (getitem_at w0 r d1 _ _ Hr1)).
    rewrite (bind_ok (lift_result (to_num (VFloat rg))) _ _ rg _ eq_refl).
    rewrite setitem_at. fold rg_max. unfold py_min.
    by destruct (nltb rg_max rg).
  - repeat split.
    + by rewrite dict_get_set.
    + unfold py_min. destruct (nltb rg_max rg) eqn:E; [apply Hirr|exact E].
    + intros E. rewrite dict_get_set. unfold py_min. by rewrite E.
    + intros k Hk. rewrite dict_get_set.
      assert (String.eqb "rg" k = false) as ->
        by (apply String.eqb_neq; congruence).
      apply Hget.
Qed.

(** The part of a product model's name before the first [*]. *)
Lemma contains_star_cons a s :
  contains "*" (String a s) = Ascii.eqb a "*" || contains "*" s.
Proof.
  cbn [contains String.prefix].
  destruct (ascii_dec "*" a) as [<-|Hne].
  - by destruct s.
  - assert (Ascii.eqb a "*" = false) as ->; [|done].
    apply Ascii.eqb_neq. congruence.
Qed.

Lemma contains_star_append form rest :
  contains "*" (form +:+ String "*" rest) = true.
Proof.
  induction form as [|a form IH].
  - change ("" +:+ String "*" rest) with (String "*" rest).
    by rewrite contains_star_cons.
  - change (String a form +:+ String "*" rest)
      with (String a (form +:+ String "*" rest)).
    rewrite contains_star_cons, IH. apply orb_true_r.
Qed.

Lemma split_head_append form rest :
  contains "*" form = false -> split_head "*" (form +:+ String "*" rest) = form.
Proof.
  induction form as [|a form IH]; intros Hfree.
  - reflexivity.
  - rewrite contains_star_cons in Hfree. apply orb_false_elim in Hfree as [Ha Hf].
    change (String a form +:+ String "*" rest)
      with (String a (form +:+ String "*" rest)).
    cbn [split_head]. rewrite Ha. by rewrite (IH Hf).
Qed.

(** X11.  A product model is repaired as its form factor: when the
    model identifier is [form*rest] with no [*] in [form],
    [constrain_pars] does exactly what it does for a model named [form]
    whose [Iq] is of the same kind; the structure factor plays no
    part. *)
Theorem constrain_pars_product_model (mi mi' : ModelInfo num) (r : loc)
    (form rest : string) :
  id mi = form +:+ String "*" rest -> contains "*" form = false ->
  id mi' = form -> Iq_callable mi' = Iq_callable mi ->
  constrain_pars mi r = constrain_pars mi' r.
Proof.
  intros Hid Hfree Hid' Hiq. unfold constrain_pars.
  rewrite Hid, Hid', Hiq, contains_star_append, Hfree.
  by rewrite (split_head_append _ _ Hfree).
Qed.

(** X12.  For a model that has no repair of its own, [constrain_pars]
    returns and works in place: the caller's dict object keeps its keys
    in their order and its entries, except that for a Python model (one
    whose [Iq] is callable) every entry under an [M0:] key is 0; no other
    dict object that was live changes. *)
Theorem constrain_pars_in_place (mi : ModelInfo num) (r : loc) (d : pdict num)
    (w : process num) :
  (if contains "*" (id mi) then split_head "*" (id mi) else id mi)
    ∉ ["barbell"; "capped_cylinder"; "guinier"; "pearl_necklace"; "rpa"]%string ->
  heap w !! r = Some d -> NoDup (dict_keys d) ->
  exists w' d',
    constrain_pars mi r w = (Ok tt, w') /\ heap w' !! r = Some d'
    /\ dict_keys d' = dict_keys d
    /\ (forall k, dict_get k d'
          = (fun v => if Iq_callable mi && startswith k "M0:" then VInt 0 else v)
              <$> dict_get k d)
    /\ (forall r0, r0 <> r -> is_Some (heap w !! r0) ->
          heap w' !! r0 = heap w !! r0).
Proof.
  intros Hname Hr Hnd.
  destruct (python_step mi r d w Hr) as (w0 & Hstep & Hframe).
  exists (at_dict w0 r (python_repair (Iq_callable mi) d)),
         (python_repair (Iq_callable mi) d).
  split; [|split; [apply at_dict_lookup|split; [apply python_repair_keys|split]]].
  - unfold constrain_pars. rewrite (bind_ok _ _ _ _ _ Hstep).
    rewrite !not_elem_of_cons in Hname.
    destruct Hname as (H1 & H2 & H3 & H4 & H5 & _).
    apply String.eqb_neq in H1, H2, H3, H4, H5.
    by rewrite H1, H2, H3, H4, H5.
  - intros k. by apply python_repair_get.
  - intros r0 Hne Hlive. cbn. rewrite lookup_insert_ne; [|done].
    by apply Hframe.
Qed.

End RepairExtras.

(** X9 on a barbell whose bell radius is below the cylinder radius. *)
Lemma constrain_pars_orders_radii_witness :
  (forall x y : float, nltb x y = true -> nltb y x = false)
  /\ ("barbell", "radius", "radius_bell")%string ∈ ordered_radii
  /\ NoDup (dict_keys barbell_pars)
  /\ exists w' d',
       constrain_pars (ML := float_lib) barbell_model 0%nat
         (empty_process {[ 0%nat := barbell_pars ]}) = (Ok tt, w')
       /\ heap w' !! 0%nat = Some d'
       /\ dict_get "radius" d' = Some (VFloat 20%float)
       /\ dict_get "radius_bell" d' = Some (VFloat 30%float)
       /\ dict_get "M0:sld" d' = Some (VInt 0).
Proof.
  assert (Hnd : NoDup (dict_keys barbell_pars))
    by (apply (bool_decide_unpack _); vm_compute; exact I).
  assert (Hin : ("barbell", "radius", "radius_bell")%string ∈ ordered_radii)
    by apply list_elem_of_here.
  assert (Hasym : forall x y : float, nltb x y = true -> nltb y x = false)
    by (intros x y; apply float_ltb_asym).
  assert (Hr : heap (empty_process {[ 0%nat := barbell_pars ]}) !! 0%nat
               = Some barbell_pars) by reflexivity.
  split; [exact Hasym|]. split; [exact Hin|]. split; [exact Hnd|].
  destruct (constrain_pars_orders_radii (ML := float_lib) barbell_model 0%nat
              barbell_pars (empty_process {[ 0%nat := barbell_pars ]})
              "radius" "radius_bell" 30%float 20%float
              Hasym Hin Hr Hnd eq_refl eq_refl)
    as (w' & d' & Hrun & Hd' & H1 & H2 & _ & H3).
  exists w', d'. repeat split; try done.
  exact (H3 "M0:sld"%string ltac:(discriminate) ltac:(discriminate)).
Defined.

(** X10 on [scale = 16], [rg = 50], with the identity for the
    logarithm: [rg_max] is [sqrt(90*10 + 3*16)], below 31. *)
Lemma constrain_pars_guinier_clamp_witness :
  (forall x : float, nltb x x = false)
  /\ NoDup (dict_keys guinier_pars)
  /\ exists w' d',
       constrain_pars (ML := float_lib) guinier_model 0%nat
         (empty_process {[ 0%nat := guinier_pars ]}) = (Ok tt, w')
       /\ heap w' !! 0%nat = Some d'
       /\ dict_get "rg" d' = Some (VFloat (PrimFloat.sqrt 948 / 1)%float).
Proof.
  assert (Hirr : forall x : float, nltb x x = false).
  { intros x. destruct (nltb x x) eqn:E; [|reflexivity].
    pose proof (float_ltb_asym x x E) as E'. cbn in E. congruence. }
  assert (Hnd : NoDup (dict_keys guinier_pars))
    by (apply (bool_decide_unpack _); vm_compute; exact I).
  assert (Hr : heap (empty_process {[ 0%nat := guinier_pars ]}) !! 0%nat
               = Some guinier_pars) by reflexivity.
  split; [exact Hirr|]. split; [exact Hnd|].
  destruct (constrain_pars_guinier_clamp (ML := float_lib) guinier_model 0%nat
              guinier_pars (empty_process {[ 0%nat := guinier_pars ]})
              16%float 50%float Hirr eq_refl Hr Hnd eq_refl eq_refl)
    as (w' & d' & Hrun & Hd' & H1 & _).
  exists w', d'. repeat split; try done.
Defined.

(** X11 on [barbell*hardsphere]. *)
Lemma constrain_pars_product_model_witness :
  contains "*" "barbell" = false
  /\ constrain_pars (ML := float_lib)
       (@Build_ModelInfo float (Scripted.generator float) "barbell*hardsphere"
          {| kernel_parameters := []; call_parameters := [] |} None true) 0%nat
     = constrain_pars (ML := float_lib) barbell_model 0%nat.
Proof.
  split; [reflexivity|].
  exact (constrain_pars_product_model (ML := float_lib)
           (@Build_ModelInfo float (Scripted.generator float) "barbell*hardsphere"
              {| kernel_parameters := []; call_parameters := [] |} None true)
           barbell_model 0%nat "barbell" "hardsphere"
           eq_refl eq_refl eq_refl eq_refl).
Defined.

(** X12 on a Python model named [sphere]. *)
Lemma constrain_pars_in_place_witness :
  NoDup (dict_keys demo_pars)
  /\ exists w' d',
       constrain_pars (ML := float_lib)
         (@Build_ModelInfo float (Scripted.generator float) "sphere"
            {| kernel_parameters := []; call_parameters := [] |} None true) 0%nat
         demo_process = (Ok tt, w')
       /\ heap w' !! 0%nat = Some d'
       /\ dict_keys d' = dict_keys demo_pars
       /\ dict_get "M0:sld" d' = Some (VInt 0)
       /\ dict_get "radius" d' = Some (VFloat 20%float).
Proof.
  assert (Hnd : NoDup (dict_keys demo_pars))
    by (apply (bool_decide_unpack _); vm_compute; exact I).
  split; [exact Hnd|].
  destruct (constrain_pars_in_place (ML := float_lib)
              (@Build_ModelInfo float (Scripted.generator float) "sphere"
                 {| kernel_parameters := []; call_parameters := [] |} None true)
              0%nat demo_pars demo_process)
    as (w' & d' & Hrun & Hd' & Hk & Hg & _); [|reflexivity|exact Hnd|].
  { apply (bool_decide_unpack _). vm_compute. exact I. }
  exists w', d'. repeat split; try done; by rewrite Hg.
Defined.

(* ================================================================== *)
(** * The two switches with [suppress=False] *)
(* ================================================================== *)

Section EnsureProofs.
Context {num : Type} {N : Number num}.

Lemma ref_keys_at (w : process num) r d :
  ref_keys r (at_dict w r d) = (Ok (dict_keys d), at_dict w r d).
Proof. unfold ref_keys, bind, deref. by rewrite at_dict_lookup. Qed.

Lemma ref_get_at (w : process num) r d k dflt :
  ref_get r k dflt (at_dict w r d) = (Ok (default dflt (dict_get k d)), at_dict w r d).
Proof. unfold ref_get, bind, deref. by rewrite at_dict_lookup. Qed.

Lemma ref_contains_at (w : process num) r d k :
  ref_contains r k (at_dict w r d)
  = (Ok (bool_decide (is_Some (dict_get k d))), at_dict w r d).
Proof. unfold ref_contains, bind, deref. by rewrite at_dict_lookup. Qed.

Lemma dict_copy_at r (d : pdict num) (w : process num) :
  heap w !! r = Some d ->
  dict_copy r w = (Ok (fresh (dom (heap w))), at_dict w (fresh (dom (heap w))) d).
Proof. intros Hr. by destruct (dict_copy_spec r d w Hr) as (-> & _). Qed.

Lemma existsb_elem {A} (f : A -> bool) (l : list A) :
  existsb f l = true <-> exists x, x ∈ l /\ f x = true.
Proof.
  rewrite existsb_exists. split; intros (x & H1 & H2); exists x;
    (split; [by apply list_elem_of_In|done]).
Qed.

Lemma first_key_some test keys p :
  first_key test keys = Some p -> p ∈ keys /\ test p = true.
Proof.
  intros H. apply find_some in H as [H1 H2]. split; [by apply list_elem_of_In|done].
Qed.

Lemma first_key_none test keys :
  first_key test keys = None <-> forall p, p ∈ keys -> test p = false.
Proof.
  split.
  - intros H p Hp. apply (find_none _ _ H). by apply list_elem_of_In.
  - intros H. destruct (first_key test keys) as [p|] eqn:E; [|done].
    apply first_key_some in E as [E1 E2]. rewrite (H p E1) in E2. discriminate.
Qed.

(** The scan of [suppress_magnetism]. *)
Lemma magnetism_scan_at (w : process num) r (d : pdict num) keys any_mag first_mag :
  (forall p, p ∈ keys -> p ∈ dict_keys d) ->
  fold_M (fun '(any_mag, first_mag) p =>
            if startswith p "M0:" then
              let* m := ref_getitem r p in
              ret (any_mag || negb (py_is_zero m),
                   match first_mag with None => Some p | Some _ => first_mag end)
            else ret (any_mag, first_mag)) keys (any_mag, first_mag) (at_dict w r d)
  = (Ok (any_mag || existsb (is_magnetic d) keys,
         match first_mag with
         | Some f => Some f
         | None => first_key (fun p => startswith p "M0:") keys
         end),
     at_dict w r d).
Proof.
  revert any_mag first_mag. induction keys as [|p keys IH]; intros any_mag first_mag Hk.
  - cbn. rewrite orb_false_r. by destruct first_mag.
  - cbn [fold_M existsb first_key List.find].
    assert (Hp : p ∈ dict_keys d) by (apply Hk, list_elem_of_here).
    apply dict_get_is_Some in Hp as [m Hm].
    unfold is_magnetic at 1. rewrite Hm.
    destruct (startswith p "M0:") eqn:E.
    + rewrite (bind_ok _ _ _ _ _
                 (bind_ok _ _ _ _ _ (getitem_at w r d _ _ Hm))).
      unfold ret at 1. rewrite IH by (intros q Hq; apply Hk; by apply list_elem_of_further).
      cbn [andb]. rewrite orb_assoc. by destruct first_mag.
    + unfold bind at 1. unfold ret at 1.
      rewrite IH by (intros q Hq; apply Hk; by apply list_elem_of_further).
      cbn [andb orb]. by destruct first_mag.
Qed.

(** The scan of [suppress_pd]. *)
Lemma dispersion_scan_at (w : process num) r (d : pdict num) keys any_pd first_pd :
  (forall p, p ∈ keys -> p ∈ dict_keys d) ->
  fold_M (fun '(any_pd, first_pd) p =>
            if endswith p "_pd_n" then
              let* pd := ref_get r (drop_last 2 p) (VFloat (of_Z 0)) in
              let* n := ref_getitem r p in
              ret (any_pd || (negb (py_is_zero n) && negb (py_is_zero pd)),
                   match first_pd with None => Some p | Some _ => first_pd end)
            else ret (any_pd, first_pd)) keys (any_pd, first_pd) (at_dict w r d)
  = (Ok (any_pd || existsb (is_polydisperse d) keys,
         match first_pd with
         | Some f => Some f
         | None => first_key (fun p => endswith p "_pd_n") keys
         end),
     at_dict w r d).
Proof.
  revert any_pd first_pd. induction keys as [|p keys IH]; intros any_pd first_pd Hk.
  - cbn. rewrite orb_false_r. by destruct first_pd.
  - cbn [fold_M existsb first_key List.find].
    assert (Hp : p ∈ dict_keys d) by (apply Hk, list_elem_of_here).
    apply dict_get_is_Some in Hp as [n Hn].
    unfold is_polydisperse at 1. rewrite Hn.
    destruct (endswith p "_pd_n") eqn:E.
    + match goal with |- bind ?m _ _ = _ =>
        assert (Hbody : m (at_dict w r d)
                  = (Ok (any_pd || (negb (py_is_zero n)
                                    && negb (py_is_zero
                                               (default (VFloat (of_Z 0))
                                                  (dict_get (drop_last 2 p) d)))),
                         match first_pd with None => Some p | Some _ => first_pd end),
                     at_dict w r d))
      end.
      { rewrite (bind_ok _ _ _ _ _ (ref_get_at w r d _ _)).
        by rewrite (bind_ok _ _ _ _ _ (getitem_at w r d _ _ Hn)). }
      rewrite (bind_ok _ _ _ _ _ Hbody). rewrite IH by (intros q Hq; apply Hk; by apply list_elem_of_further).
      cbn [andb]. rewrite orb_assoc. by destruct first_pd.
    + unfold bind at 1. unfold ret at 1.
      rewrite IH by (intros q Hq; apply Hk; by apply list_elem_of_further).
      cbn [andb orb]. by destruct first_pd.
Qed.

Lemma suppress_magnetism_false r (d : pdict num) (w : process num) :
  heap w !! r = Some d ->
  suppress_magnetism r false w
  = (Ok (fresh (dom (heap w))), at_dict w (fresh (dom (heap w))) (magnetized d)).
Proof.
  intros Hr. unfold suppress_magnetism.
  rewrite (bind_ok _ _ _ _ _ (dict_copy_at r d w Hr)).
  set (r' := fresh (dom (heap w))).
  rewrite (bind_ok _ _ _ _ _ (ref_keys_at w r' d)).
  unfold bind at 1. unfold bind at 1.
  rewrite (magnetism_scan_at w r' d (dict_keys d) false None) by done.
  cbn [orb]. unfold magnetized.
  destruct (first_key _ (dict_keys d)) as [f|]; [|reflexivity].
  destruct (existsb _ (dict_keys d)); [reflexivity|].
  by rewrite setitem_at.
Qed.

Lemma string_length_substring n s : String.length (substring 0 n s) <= n.
Proof.
  revert s. induction n as [|n IH]; intros s; destruct s as [|a s]; cbn; try lia.
  specialize (IH s). lia.
Qed.

(** [p[:-2]] is not [p] when [p] ends in [_pd_n]. *)
Lemma drop_last_ne p : endswith p "_pd_n" = true -> drop_last 2 p <> p.
Proof.
  intros He Heq. assert (Hlen : String.length p <> 0).
  { destruct p; [discriminate|]. cbn. lia. }
  pose proof (string_length_substring (String.length p - 2) p) as Hs.
  unfold drop_last in Heq. rewrite Heq in Hs. lia.
Qed.

Lemma suppress_pd_false r (d : pdict num) (w : process num) :
  heap w !! r = Some d ->
  suppress_pd r false w
  = (Ok (fresh (dom (heap w))), at_dict w (fresh (dom (heap w))) (dispersed d)).
Proof.
  intros Hr. unfold suppress_pd.
  rewrite (bind_ok _ _ _ _ _ (dict_copy_at r d w Hr)).
  set (r' := fresh (dom (heap w))).
  rewrite (bind_ok _ _ _ _ _ (ref_keys_at w r' d)).
  unfold bind at 1. unfold bind at 1.
  rewrite (dispersion_scan_at w r' d (dict_keys d) false None) by done.
  cbn [orb]. unfold dispersed.
  destruct (first_key _ (dict_keys d)) as [f|] eqn:Hf; [|reflexivity].
  destruct (existsb _ (dict_keys d)); [reflexivity|].
  apply first_key_some in Hf as [Hin _].
  apply dict_get_is_Some in Hin as [n Hn]. rewrite Hn.
  change (default (VInt 0) (Some n)) with n. cbv zeta.
  rewrite (bind_ok _ _ _ _ _ (getitem_at w r' d _ _ Hn)).
  set (d1 := if py_is_zero n then dict_set f (VInt 35) d else d).
  assert (Hd1 : (if py_is_zero n then ref_setitem r' f (VInt 35) else ret tt)
                  (at_dict w r' d) = (Ok tt, at_dict w r' d1)).
  { unfold d1. destruct (py_is_zero n); [apply setitem_at|reflexivity]. }
  rewrite (bind_ok _ _ _ _ _ Hd1).
  rewrite (bind_ok _ _ _ _ _ (ref_contains_at w r' d1 _)).
  rewrite (bind_ok _ _ _ _ _ (ref_get_at w r' d1 _ _)).
  destruct (_ || _); [by rewrite setitem_at|reflexivity].
Qed.

Lemma existsb_false_elem {A} (f : A -> bool) (l : list A) x :
  existsb f l = false -> x ∈ l -> f x = false.
Proof.
  intros H Hx. destruct (f x) eqn:E; [|done].
  assert (existsb f l = true) by (apply existsb_elem; by exists x). congruence.
Qed.

(** X13.  [suppress_magnetism(pars, False)] makes sure one parameter is
    magnetic.  It returns a new dict with the keys of [pars] in their
    order.  If [pars] has a key starting with [M0:], some such key holds
    a nonzero value in the result.  The result equals [pars] when there
    is no such key or one of them is nonzero already; otherwise the only
    difference is an [M0:] key holding 8.0.  (The hypothesis says that
    8.0 is not 0.) *)
Theorem suppress_magnetism_false_ensures_magnetism (w : process num) (r : loc)
    (d : pdict num) :
  neqb (of_Z 8) (of_Z 0) = false ->
  heap w !! r = Some d ->
  exists r' w' d',
    suppress_magnetism r false w = (Ok r', w') /\ heap w' !! r' = Some d'
    /\ dict_keys d' = dict_keys d
    /\ ((exists p, p ∈ dict_keys d /\ startswith p "M0:" = true) ->
        exists q, q ∈ dict_keys d' /\ is_magnetic d' q = true)
    /\ ((forall p, p ∈ dict_keys d -> startswith p "M0:" = false)
        \/ (exists p, p ∈ dict_keys d /\ is_magnetic d p = true) -> d' = d)
    /\ (forall k, dict_get k d' = dict_get k d
                  \/ (startswith k "M0:" = true
                      /\ dict_get k d' = Some (VFloat (of_Z 8)))).
Proof.
  intros H8 Hr. eexists _, _, (magnetized d).
  split; [exact (suppress_magnetism_false r d w Hr)|].
  split; [apply at_dict_lookup|]. unfold magnetized.
  destruct (first_key _ (dict_keys d)) as [f|] eqn:Hf.
  - pose proof Hf as Hf'. apply first_key_some in Hf' as [Hin Hstart].
    destruct (existsb (is_magnetic d) (dict_keys d)) eqn:Hany.
    + repeat split; auto. intros _. by apply existsb_elem.
    + split; [by apply dict_keys_set_in|]. split; [|split].
      * intros _. exists f. split; [by apply dict_keys_set_mono|].
        unfold is_magnetic. rewrite Hstart, dict_get_set_eq. cbn.
        by rewrite H8.
      * intros [Hnone|(p & Hp & Hmag)].
        { rewrite (Hnone f Hin) in Hstart. discriminate. }
        { rewrite (existsb_false_elem _ _ _ Hany Hp) in Hmag. discriminate. }
      * intros k. rewrite dict_get_set.
        destruct (String.eqb f k) eqn:E; [|by left].
        apply String.eqb_eq in E. subst k. by right.
  - repeat split; auto. intros (p & Hp & Hstart).
    rewrite (proj1 (first_key_none _ _) Hf p Hp) in Hstart. discriminate.
Qed.

(** X14.  [suppress_pd(pars, False)] makes sure one parameter is
    polydisperse.  It returns a new dict that has every key of [pars].
    If [pars] has a key ending in [_pd_n], then for some such key [q] of
    the result the point count under [q] and the width under [q[:-2]]
    are both nonzero.  The result equals [pars] when there is no such
    key or one of them is polydisperse already; otherwise an entry that
    differs holds the point count 35 under a key ending in [_pd_n], or
    the width 0.15.  (The hypothesis says that 0.15 is not 0.) *)
Theorem suppress_pd_false_ensures_dispersion (w : process num) (r : loc)
    (d : pdict num) :
  neqb (dec 15 2) (of_Z 0) = false ->
  heap w !! r = Some d ->
  exists r' w' d',
    suppress_pd r false w = (Ok r', w') /\ heap w' !! r' = Some d'
    /\ (forall k, k ∈ dict_keys d -> k ∈ dict_keys d')
    /\ ((exists p, p ∈ dict_keys d /\ endswith p "_pd_n" = true) ->
        exists q, q ∈ dict_keys d' /\ is_polydisperse d' q = true)
    /\ ((forall p, p ∈ dict_keys d -> endswith p "_pd_n" = false)
        \/ (exists p, p ∈ dict_keys d /\ is_polydisperse d p = true) -> d' = d)
    /\ (forall k, dict_get k d' = dict_get k d
                  \/ (endswith k "_pd_n" = true /\ dict_get k d' = Some (VInt 35))
                  \/ dict_get k d' = Some (VFloat (dec 15 2))).
Proof.
  intros H15 Hr. eexists _, _, (dispersed d).
  split; [exact (suppress_pd_false r d w Hr)|].
  split; [apply at_dict_lookup|]. unfold dispersed.
  destruct (first_key _ (dict_keys d)) as [f|] eqn:Hf.
  - pose proof Hf as Hf'. apply first_key_some in Hf' as [Hin Hend].
    destruct (existsb (is_polydisperse d) (dict_keys d)) eqn:Hany.
    + repeat split; auto. intros _. by apply existsb_elem.
    + pose proof (drop_last_ne f Hend) as Hne.
      assert (E1 : String.eqb (drop_last 2 f) f = false) by by apply String.eqb_neq.
      assert (E2 : String.eqb f (drop_last 2 f) = false)
        by (apply String.eqb_neq; congruence).
      pose proof Hin as Hin'. apply dict_get_is_Some in Hin' as [n Hn].
      rewrite Hn. change (default (VInt 0) (Some n)) with n. cbv zeta.
      set (d1 := if py_is_zero n then dict_set f (VInt 35) d else d).
      assert (Hk1 : forall k, k ∈ dict_keys d -> k ∈ dict_keys d1).
      { intros k Hk. unfold d1. destruct (py_is_zero n); [|done].
        by apply dict_keys_set_mono. }
      assert (Hf1 : exists n1, dict_get f d1 = Some n1 /\ py_is_zero n1 = false).
      { unfold d1. destruct (py_is_zero n) eqn:Hz.
        - exists (VInt 35). by rewrite dict_get_set_eq.
        - by exists n. }
      assert (Hg1 : forall k, dict_get k d1 = dict_get k d
                              \/ (endswith k "_pd_n" = true
                                  /\ dict_get k d1 = Some (VInt 35))).
      { intros k. unfold d1. destruct (py_is_zero n); [|by left].
        rewrite dict_get_set. destruct (String.eqb f k) eqn:E; [|by left].
        apply String.eqb_eq in E. subst k. by right. }
      destruct Hf1 as (n1 & Hn1 & Hz1).
      destruct (negb (bool_decide (is_Some (dict_get (drop_last 2 f) d1)))
                || py_is_zero (default (VInt 0) (dict_get (drop_last 2 f) d1)))
        eqn:Hcond.
      * split; [intros k Hk; by apply dict_keys_set_mono, Hk1|]. split; [|split].
        -- intros _. exists f.
           split; [by apply dict_keys_set_mono, Hk1|].
           unfold is_polydisperse.
           rewrite Hend, !dict_get_set, E1, String.eqb_refl, Hn1, Hz1. cbn.
           by rewrite H15.
        -- intros [Hnone|(p & Hp & Hpd)].
           { rewrite (Hnone f Hin) in Hend. discriminate. }
           { rewrite (existsb_false_elem _ _ _ Hany Hp) in Hpd. discriminate. }
        -- intros k. rewrite dict_get_set.
           destruct (String.eqb (drop_last 2 f) k); [by right; right|].
           destruct (Hg1 k) as [?|?]; [by left|by right; left].
      * apply orb_false_elim in Hcond as [Hpresent Hwidth].
        apply negb_false_iff, bool_decide_eq_true in Hpresent as [x Hx].
        rewrite Hx in Hwidth. change (default (VInt 0) (Some x)) with x in Hwidth.
        split; [exact Hk1|]. split; [|split].
        -- intros _. exists f. split; [by apply Hk1|].
           unfold is_polydisperse. rewrite Hend, Hn1, Hz1, Hx. cbn.
           by rewrite Hwidth.
        -- intros [Hnone|(p & Hp & Hpd)].
           { rewrite (Hnone f Hin) in Hend. discriminate. }
           { rewrite (existsb_false_elem _ _ _ Hany Hp) in Hpd. discriminate. }
        -- intros k. destruct (Hg1 k) as [?|?]; [by left|by right; left].
  - repeat split; auto. intros (p & Hp & Hend).
    rewrite (proj1 (first_key_none _ _) Hf p Hp) in Hend. discriminate.
Qed.

End EnsureProofs.

(** X13 on a parameter set whose two [M0:] entries are zero. *)
Lemma suppress_magnetism_false_ensures_magnetism_witness :
  neqb (of_Z 8 : float) (of_Z 0) = false
  /\ heap (empty_process {[ 0%nat := plain_pars ]}) !! 0%nat = Some plain_pars
  /\ exists r' w' d',
       suppress_magnetism 0%nat false (empty_process {[ 0%nat := plain_pars ]})
       = (Ok r', w')
       /\ heap w' !! r' = Some d'
       /\ exists q, q ∈ dict_keys d' /\ is_magnetic d' q = true.
Proof.
  assert (H8 : neqb (of_Z 8 : float) (of_Z 0) = false) by reflexivity.
  assert (Hr : heap (empty_process {[ 0%nat := plain_pars ]}) !! 0%nat
               = Some plain_pars) by reflexivity.
  split; [exact H8|]. split; [exact Hr|].
  destruct (suppress_magnetism_false_ensures_magnetism _ _ _ H8 Hr)
    as (r' & w' & d' & Hrun & Hd' & _ & Hmag & _).
  exists r', w', d'. split; [exact Hrun|]. split; [exact Hd'|].
  apply Hmag. exists "M0:sld"%string. split; [|reflexivity].
  apply (bool_decide_unpack _). vm_compute. exact I.
Defined.

(** X14 on a parameter set whose two point counts are zero. *)
Lemma suppress_pd_false_ensures_dispersion_witness :
  neqb (dec 15 2 : float) (of_Z 0) = false
  /\ heap (empty_process {[ 0%nat := plain_pars ]}) !! 0%nat = Some plain_pars
  /\ exists r' w' d',
       suppress_pd 0%nat false (empty_process {[ 0%nat := plain_pars ]})
       = (Ok r', w')
       /\ heap w' !! r' = Some d'
       /\ exists q, q ∈ dict_keys d' /\ is_polydisperse d' q = true.
Proof.
  assert (H15 : neqb (dec 15 2 : float) (of_Z 0) = false) by reflexivity.
  assert (Hr : heap (empty_process {[ 0%nat := plain_pars ]}) !! 0%nat
               = Some plain_pars) by reflexivity.
  split; [exact H15|]. split; [exact Hr|].
  destruct (suppress_pd_false_ensures_dispersion _ _ _ H15 Hr)
    as (r' & w' & d' & Hrun & Hd' & _ & Hpd & _).
  exists r', w', d'. split; [exact Hrun|]. split; [exact Hd'|].
  apply Hpd. exists "radius_pd_n"%string. split; [|reflexivity].
  apply (bool_decide_unpack _). vm_compute. exact I.
Defined.

(* ================================================================== *)
(** * Properties of [columnize] *)
(* ================================================================== *)

Lemma max_len_positive items m : max_len items = Ok m -> (0 <= m)%Z.
Proof.
  destruct items as [|w rest]; [discriminate|]. cbn. intros [= <-].
  assert (H : forall acc, (0 <= acc)%Z ->
            (0 <= fold_left (fun m w => Z.max m (Z.of_nat (String.length w)))
                    rest acc)%Z).
  { induction rest as [|x rest IH]; intros acc Hacc; cbn; [done|].
    apply IH. lia. }
  apply H. lia.
Qed.

Lemma py_slice_block {A} (items : list A) (k rows : nat) :
  (k + 1) * rows <= length items ->
  py_slice items (Z.of_nat k * Z.of_nat rows) ((Z.of_nat k + 1) * Z.of_nat rows)
  = take rows (drop (k * rows) items).
Proof.
  intros Hlen. unfold py_slice, slice_bound.
  assert ((Z.of_nat k * Z.of_nat rows <? 0)%Z = false) as -> by lia.
  assert (((Z.of_nat k + 1) * Z.of_nat rows <? 0)%Z = false) as -> by lia.
  replace (Z.to_nat (Z.of_nat k * Z.of_nat rows)) with (k * rows) by lia.
  replace (Z.to_nat ((Z.of_nat k + 1) * Z.of_nat rows)) with ((k + 1) * rows) by lia.
  rewrite !Nat.min_l by lia. f_equal. lia.
Qed.

Lemma shortest_same (columns : list (list string)) n :
  columns <> [] -> Forall (fun c => length c = n) columns -> shortest columns = n.
Proof.
  destruct columns as [|c cs]; [done|]. intros _ Hall.
  apply Forall_cons in Hall as [Hc Hcs]. cbn. rewrite Hc. clear Hc c.
  induction cs as [|c cs IH]; cbn; [done|].
  apply Forall_cons in Hcs as [Hc Hcs]. rewrite Hc, Nat.min_id. by apply IH.
Qed.

Lemma nth_take_drop (items : list string) a n i :
  i < n -> nth i (take n (drop a items)) EmptyString = nth (a + i) items EmptyString.
Proof.
  intros Hi. by rewrite !nth_lookup, lookup_take_lt, lookup_drop.
Qed.

Lemma append_empty_r (s : string) : s +:+ "" = s.
Proof.
  induction s as [|a s IH]; [reflexivity|].
  change (String a s +:+ "") with (String a (s +:+ "")). by rewrite IH.
Qed.

(** The lines of [columnize] when at least one column fits. *)
Lemma columnize_lines (items : list string) (cw : Z) (rows cols : nat) :
  0 < cols -> rows * cols <= length items ->
  map (fun row => str_join " " (map (ljust cw) row))
      (zip_star
         (map (fun k => py_slice items (k * Z.of_nat rows) ((k + 1) * Z.of_nat rows))
              (py_range (Z.of_nat cols))))
  = column_major items cw rows cols.
Proof.
  intros Hcols Hlen. unfold py_range. rewrite Nat2Z.id, map_map.
  assert (Hcolumns :
    map (fun k : nat => py_slice items (Z.of_nat k * Z.of_nat rows)
                          ((Z.of_nat k + 1) * Z.of_nat rows)) (seq 0 cols)
    = map (fun k => take rows (drop (k * rows) items)) (seq 0 cols)).
  { apply map_ext_in. intros k Hk. apply in_seq in Hk.
    apply py_slice_block. nia. }
  rewrite Hcolumns. unfold zip_star.
  rewrite (shortest_same _ rows).
  - unfold column_major. rewrite map_map. apply map_ext_in. intros i Hi.
    apply in_seq in Hi. f_equal. rewrite !map_map. apply map_ext_in.
    intros k Hk. f_equal. apply nth_take_drop. lia.
  - destruct cols; [lia|]. discriminate.
  - apply Forall_forall. intros c Hc. apply list_elem_of_In, in_map_iff in Hc
      as (k & <- & Hk). apply in_seq in Hk.
    rewrite length_take, length_drop. nia.
Qed.

Lemma columnize_lines_Z (items : list string) (cw num_rows num_columns : Z) :
  (0 < num_columns)%Z -> (0 <= num_rows)%Z ->
  (num_rows * num_columns <= Z.of_nat (length items))%Z ->
  map (fun row => str_join " " (map (ljust cw) row))
      (zip_star
         (map (fun k => py_slice items (k * num_rows) ((k + 1) * num_rows))
              (py_range num_columns)))
  = column_major items cw (Z.to_nat num_rows) (Z.to_nat num_columns).
Proof.
  intros Hnc Hnr Hfit.
  assert (Er : num_rows = Z.of_nat (Z.to_nat num_rows)) by lia.
  assert (Ec : num_columns = Z.of_nat (Z.to_nat num_columns)) by lia.
  assert (Hc : 0 < Z.to_nat num_columns) by lia.
  assert (Hf : Z.to_nat num_rows * Z.to_nat num_columns <= length items) by nia.
  revert Er Ec Hc Hf.
  generalize (Z.to_nat num_rows) (Z.to_nat num_columns). intros rows cols -> ->.
  apply columnize_lines.
Qed.

(** X15.  [columnize] and what it shows.  An empty list is a ValueError
    (from [max]).  When the widest item plus its separating space does
    not fit between the indent and [width], no column fits and the
    division for the number of rows raises ZeroDivisionError.  When
    [num_columns] columns fit, the output has [len(items) // num_columns]
    lines, item [k * num_rows + i] standing in field [k] of line [i]; so
    only the first [num_rows * num_columns] items are shown, and with
    fewer items than columns the output is just the indent.  When
    [width] is smaller than the indent the output is the indent too. *)
Theorem columnize_layout (items : list string) (indent : string) (width : Z) :
  columnize [] indent width = Raise ValueError
  /\ forall widest, max_len items = Ok widest ->
     let room := (width - Z.of_nat (String.length indent))%Z in
     let num_columns := (room / (widest + 1))%Z in
     let num_rows := (Z.of_nat (length items) / num_columns)%Z in
     ((0 <= room < widest + 1)%Z ->
        columnize items indent width = Raise ZeroDivisionError)
     /\ ((widest + 1 <= room)%Z ->
           columnize items indent width
           = Ok (indent +:+ str_join (newline +:+ indent)
                              (column_major items (widest + 1)
                                 (Z.to_nat num_rows) (Z.to_nat num_columns)))
           /\ Z.to_nat num_rows * Z.to_nat num_columns <= length items
           /\ ((Z.of_nat (length items) < num_columns)%Z ->
                 columnize items indent width = Ok indent))
     /\ ((room < 0)%Z -> columnize items indent width = Ok indent).
Proof.
  split; [reflexivity|]. intros widest Hmax room num_columns num_rows.
  pose proof (max_len_positive _ _ Hmax) as Hpos.
  assert (Hcol :
    columnize items indent width
    = result_bind (py_floordiv (Z.of_nat (length items)) num_columns)
        (fun num_rows =>
           Ok (indent +:+ str_join (newline +:+ indent)
                 (map (fun row => str_join " " (map (ljust (widest + 1)) row))
                    (zip_star
                       (map (fun k =>
                               py_slice
                                 (items ++ replicate
                                    (Z.to_nat (num_rows * num_columns
                                               - Z.of_nat (length items)))
                                    EmptyString)
                                 (k * num_rows) ((k + 1) * num_rows))
                          (py_range num_columns))))))).
  { unfold columnize. rewrite Hmax. cbn [result_bind]. unfold py_floordiv at 1.
    assert ((widest + 1 =? 0)%Z = false) as -> by lia. reflexivity. }
  rewrite Hcol. clear Hcol.
  split; [|split].
  - intros Hroom. assert (num_columns = 0%Z) as ->.
    { unfold num_columns. apply Z.div_small. lia. }
    reflexivity.
  - intros Hroom.
    assert (Hnc : (0 < num_columns)%Z).
    { unfold num_columns. apply Z.div_str_pos. lia. }
    assert (Hnr : (0 <= num_rows)%Z).
    { unfold num_rows. apply Z.div_pos; lia. }
    assert (Hfit : (num_rows * num_columns <= Z.of_nat (length items))%Z).
    { unfold num_rows. rewrite Z.mul_comm. apply Z.mul_div_le. lia. }
    assert (Hrun :
      result_bind (py_floordiv (Z.of_nat (length items)) num_columns)
        (fun num_rows =>
           Ok (indent +:+ str_join (newline +:+ indent)
                 (map (fun row => str_join " " (map (ljust (widest + 1)) row))
                    (zip_star
                       (map (fun k =>
                               py_slice
                                 (items ++ replicate
                                    (Z.to_nat (num_rows * num_columns
                                               - Z.of_nat (length items)))
                                    EmptyString)
                                 (k * num_rows) ((k + 1) * num_rows))
                          (py_range num_columns))))))
      = Ok (indent +:+ str_join (newline +:+ indent)
              (column_major items (widest + 1)
                 (Z.to_nat num_rows) (Z.to_nat num_columns)))).
    { unfold py_floordiv. assert ((num_columns =? 0)%Z = false) as -> by lia.
      cbn [result_bind]. fold num_rows.
      replace (Z.to_nat (num_rows * num_columns - Z.of_nat (length items)))
        with 0 by lia.
      cbn [replicate]. rewrite app_nil_r.
      by rewrite columnize_lines_Z by lia. }
    split; [exact Hrun|]. split; [lia|].
    intros Hfew. rewrite Hrun.
    assert (num_rows = 0%Z) as ->.
    { unfold num_rows. apply Z.div_small. lia. }
    cbn. by rewrite append_empty_r.
  - intros Hroom.
    assert (Hnc : (num_columns < 0)%Z).
    { unfold num_columns. apply Z.div_lt_upper_bound; lia. }
    unfold py_floordiv. assert ((num_columns =? 0)%Z = false) as -> by lia.
    cbn [result_bind]. unfold py_range.
    replace (Z.to_nat num_columns) with 0 by lia. cbn.
    by rewrite append_empty_r.
Qed.

(** X15 on five model names in a line of 20 characters: two columns of
    two rows, and the fifth name is not shown; in a line of 79 characters
    nothing is shown. *)
Lemma columnize_layout_witness :
  max_len ["sphere"; "cylinder"; "barbell"; "rpa"; "guinier"]%string = Ok 8%Z
  /\ columnize ["sphere"; "cylinder"; "barbell"; "rpa"; "guinier"]%string "  " 20
     = Ok ("  sphere    barbell  " +:+ newline +:+ "  cylinder  rpa      ")%string
  /\ columnize ["sphere"; "cylinder"; "barbell"; "rpa"; "guinier"]%string "  " 79
     = Ok "  "%string.
Proof.
  assert (Hmax : max_len ["sphere"; "cylinder"; "barbell"; "rpa"; "guinier"]%string
                 = Ok 8%Z) by reflexivity.
  split; [exact Hmax|].
  pose proof (proj2 (columnize_layout
                       ["sphere"; "cylinder"; "barbell"; "rpa"; "guinier"]%string
                       "  " 20) _ Hmax) as (_ & H20 & _).
  pose proof (proj2 (columnize_layout
                       ["sphere"; "cylinder"; "barbell"; "rpa"; "guinier"]%string
                       "  " 79) _ Hmax) as (_ & H79 & _).
  split.
  - rewrite (proj1 (H20 ltac:(cbn; lia))). vm_compute. reflexivity.
  - apply (H79 ltac:(cbn; lia)). vm_compute. reflexivity.
Defined.

(* ================================================================== *)
(** * The two switches one after the other (compare.py, lines 1287-1290) *)
(* ================================================================== *)

Section SwitchesCompose.
Context {num : Type} {N : Number num}.

(** Two dicts with the same keys in the same order and the same value
    under every key are the same dict. *)
Lemma dict_ext (d1 d2 : pdict num) :
  NoDup (dict_keys d1) -> dict_keys d1 = dict_keys d2 ->
  (forall k, dict_get k d1 = dict_get k d2) -> d1 = d2.
Proof.
  revert d2. induction d1 as [|[k v] d1 IH]; intros [|[k' v'] d2] Hnd Hkeys Hget;
    try discriminate; [reflexivity|].
  change (k :: dict_keys d1 = k' :: dict_keys d2) in Hkeys.
  injection Hkeys as <- Hkeys.
  change (dict_keys ((k, v) :: d1)) with (k :: dict_keys d1) in Hnd.
  apply NoDup_cons in Hnd as [Hk Hnd].
  pose proof (Hget k) as Hv. cbn in Hv. rewrite String.eqb_refl in Hv.
  injection Hv as <-. f_equal. apply IH; [done|done|].
  intros k0. specialize (Hget k0). cbn in Hget.
  destruct (String.eqb k k0) eqn:E; [|done].
  apply String.eqb_eq in E. subst k0.
  assert (H1 : dict_get k d1 = None).
  { destruct (dict_get k d1) eqn:E1; [|done].
    exfalso. apply Hk, dict_get_is_Some. by rewrite E1. }
  assert (H2 : dict_get k d2 = None).
  { destruct (dict_get k d2) eqn:E2; [|done].
    exfalso. apply Hk. rewrite Hkeys. apply dict_get_is_Some. by rewrite E2. }
  by rewrite H1, H2.
Qed.

Lemma zeroed_keys test (d : pdict num) : dict_keys (zeroed test d) = dict_keys d.
Proof. unfold zeroed, dict_keys. rewrite map_map. by apply map_ext. Qed.

Lemma zeroed_get test (d : pdict num) k :
  dict_get k (zeroed test d)
  = (fun v => if test k then VInt 0 else v) <$> dict_get k d.
Proof.
  unfold zeroed. induction d as [|[k0 v0] d IH]; [reflexivity|]. cbn.
  destruct (String.eqb k0 k) eqn:E; [|exact IH].
  apply String.eqb_eq in E. by subst.
Qed.

Lemma zero_keys_zeroed test (d : pdict num) :
  NoDup (dict_keys d) -> zero_keys test d = zeroed test d.
Proof.
  intros Hnd. apply dict_ext.
  - by rewrite zero_keys_keys.
  - by rewrite zero_keys_keys, zeroed_keys.
  - intros k. by rewrite zero_keys_get, zeroed_get.
Qed.

Lemma zeroed_zeroed t1 t2 (d : pdict num) :
  zeroed t2 (zeroed t1 d) = zeroed (fun k => t1 k || t2 k) d.
Proof.
  unfold zeroed. rewrite map_map. apply map_ext. intros [k v]. cbn.
  by destruct (t1 k), (t2 k).
Qed.

Lemma at_dict_frame (w : process num) r d r0 :
  r0 <> r -> heap (at_dict w r d) !! r0 = heap w !! r0.
Proof. intros Hne. cbn. by rewrite lookup_insert_ne. Qed.

(** X16.  The two switches as [parse_pars] applies them, dispersion
    first and magnetism second, both suppressing: the final dict is the
    input with exactly the entries under keys ending in [_pd_n] or
    starting with [M0:] replaced by 0, keys and order kept; applying the
    switches in the other order gives the same dict, and so does
    applying [suppress_pd] once more; the input dict object is
    untouched. *)
Theorem suppress_switches_commute (w : process num) (r : loc) (d : pdict num) :
  heap w !! r = Some d -> NoDup (dict_keys d) ->
  let d2 := zeroed (fun k => endswith k "_pd_n" || startswith k "M0:") d in
  (exists r1 w1 r2 w2,
     suppress_pd r true w = (Ok r1, w1)
     /\ suppress_magnetism r1 true w1 = (Ok r2, w2)
     /\ heap w2 !! r2 = Some d2 /\ heap w2 !! r = Some d
     /\ exists r3 w3,
          suppress_pd r2 true w2 = (Ok r3, w3) /\ heap w3 !! r3 = Some d2)
  /\ (exists r1 w1 r2 w2,
        suppress_magnetism r true w = (Ok r1, w1)
        /\ suppress_pd r1 true w1 = (Ok r2, w2)
        /\ heap w2 !! r2 = Some d2 /\ heap w2 !! r = Some d).
Proof.
  intros Hr Hnd d2.
  assert (Hmono : monodisperse d = zeroed (fun k => endswith k "_pd_n") d)
    by by apply zero_keys_zeroed.
  assert (Hmag : nonmagnetic d = zeroed (fun k => startswith k "M0:") d)
    by by apply zero_keys_zeroed.
  split.
  - pose proof (suppress_pd_true r d w Hr) as H1.
    set (r1 := fresh (dom (heap w))) in *.
    set (w1 := set_heap (<[r1 := monodisperse d]> (heap w)) w) in *.
    assert (Hr1 : heap w1 !! r1 = Some (monodisperse d))
      by (cbn; by rewrite lookup_insert_eq).
    assert (Hne1 : r1 <> r).
    { intros E. assert (heap w !! r1 = None) by apply not_elem_of_dom, is_fresh.
      congruence. }
    pose proof (suppress_magnetism_true r1 _ w1 Hr1) as H2.
    set (r2 := fresh (dom (heap w1))) in *.
    set (w2 := set_heap (<[r2 := nonmagnetic (monodisperse d)]> (heap w1)) w1) in *.
    assert (Hd2 : nonmagnetic (monodisperse d) = d2).
    { unfold nonmagnetic. rewrite zero_keys_zeroed
        by (unfold monodisperse; by rewrite zero_keys_keys).
      rewrite Hmono. apply zeroed_zeroed. }
    assert (Hne2 : r2 <> r).
    { intros E. assert (heap w1 !! r2 = None) by apply not_elem_of_dom, is_fresh.
      assert (heap w1 !! r = Some d)
        by (cbn; by rewrite lookup_insert_ne).
      congruence. }
    assert (Hr2 : heap w2 !! r2 = Some d2)
      by (cbn; by rewrite lookup_insert_eq, Hd2).
    exists r1, w1, r2, w2. split; [exact H1|]. split; [exact H2|].
    split; [exact Hr2|]. split.
    { cbn. by rewrite !lookup_insert_ne. }
    eexists _, _. split; [exact (suppress_pd_true r2 d2 w2 Hr2)|].
    cbn. rewrite lookup_insert_eq. f_equal.
    unfold monodisperse. rewrite zero_keys_zeroed
      by (unfold d2; by rewrite zeroed_keys).
    unfold d2. rewrite zeroed_zeroed. unfold zeroed. apply map_ext.
    intros [k v]. cbn [fst snd].
      by destruct (endswith k "_pd_n"), (startswith k "M0:").
  - pose proof (suppress_magnetism_true r d w Hr) as H1.
    set (r1 := fresh (dom (heap w))) in *.
    set (w1 := set_heap (<[r1 := nonmagnetic d]> (heap w)) w) in *.
    assert (Hr1 : heap w1 !! r1 = Some (nonmagnetic d))
      by (cbn; by rewrite lookup_insert_eq).
    assert (Hne1 : r1 <> r).
    { intros E. assert (heap w !! r1 = None) by apply not_elem_of_dom, is_fresh.
      congruence. }
    pose proof (suppress_pd_true r1 _ w1 Hr1) as H2.
    set (r2 := fresh (dom (heap w1))) in *.
    set (w2 := set_heap (<[r2 := monodisperse (nonmagnetic d)]> (heap w1)) w1) in *.
    assert (Hd2 : monodisperse (nonmagnetic d) = d2).
    { unfold monodisperse. rewrite zero_keys_zeroed
        by (unfold nonmagnetic; by rewrite zero_keys_keys).
      rewrite Hmag, zeroed_zeroed. unfold d2, zeroed. apply map_ext.
      intros [k v]. cbn [fst snd].
      by destruct (endswith k "_pd_n"), (startswith k "M0:"). }
    assert (Hne2 : r2 <> r).
    { intros E. assert (heap w1 !! r2 = None) by apply not_elem_of_dom, is_fresh.
      assert (heap w1 !! r = Some d)
        by (cbn; by rewrite lookup_insert_ne).
      congruence. }
    exists r1, w1, r2, w2. split; [exact H1|]. split; [exact H2|]. split.
    + cbn. by rewrite lookup_insert_eq, Hd2.
    + cbn. by rewrite !lookup_insert_ne.
Qed.

End SwitchesCompose.

(** X16 on the parameter set of the examples. *)
Lemma suppress_switches_commute_witness :
  heap demo_process !! 0%nat = Some demo_pars
  /\ NoDup (dict_keys demo_pars)
  /\ exists r1 w1 r2 w2,
       suppress_pd 0%nat true demo_process = (Ok r1, w1)
       /\ suppress_magnetism r1 true w1 = (Ok r2, w2)
       /\ heap w2 !! r2
          = Some [ ("radius", VFloat 20%float); ("radius_pd", VFloat 0.25%float);
                   ("radius_pd_n", VInt 0); ("M0:sld", VInt 0) ]%string.
Proof.
  assert (Hr : heap demo_process !! 0%nat = Some demo_pars) by reflexivity.
  assert (Hnd : NoDup (dict_keys demo_pars))
    by (apply (bool_decide_unpack _); vm_compute; exact I).
  split; [exact Hr|]. split; [exact Hnd|].
  destruct (proj1 (suppress_switches_commute demo_process 0%nat demo_pars Hr Hnd))
    as (r1 & w1 & r2 & w2 & H1 & H2 & H3 & _).
  by exists r1, w1, r2, w2.
Defined.

(* ================================================================== *)
(** * The calls and the output of a quiet run *)
(* ================================================================== *)

Section RunSchedule.
Context {num : Type} {N : Number num} {ML : MathLib num}.






End RunSchedule.


(* ================================================================== *)
(** * Failures of the repair and of the warm-up *)
(* ================================================================== *)

Section RepairFailure.
Context {num : Type} {N : Number num} {ML : MathLib num} {G : NumpyRandom num}.

(** The zeroing step of the [rpa] branch, for an integer [case_num]. *)
Lemma rpa_zero_step (w0 : process num) (r : loc) (d : pdict num)
    (y1 y2 : num) (c : Z) :
  dict_get "Phi1" d = Some (VFloat y1) -> dict_get "Phi2" d = Some (VFloat y2) ->
  dict_get "case_num" d = Some (VInt c) ->
  exists d2,
    (if (c <? 2)%Z then
       ref_setitem r "Phi1" (VFloat (of_Z 0)) ;;
       ref_setitem r "Phi2" (VFloat (of_Z 0))
     else
       let* case_num := ref_getitem r "case_num" in
       let* below5 := lift_result (py_lt case_num (VInt 5)) in
       if below5 then ref_setitem r "Phi1" (VFloat (of_Z 0)) else ret tt)
      (at_dict w0 r d)
    = (Ok tt, at_dict w0 r d2)
    /\ dict_get "Phi1" d2 = Some (VFloat (if (c <? 5)%Z then of_Z 0 else y1))
    /\ dict_get "Phi2" d2 = Some (VFloat (if (c <? 2)%Z then of_Z 0 else y2))
    /\ (forall key, key <> "Phi1"%string -> key <> "Phi2"%string ->
          dict_get key d2 = dict_get key d).
Proof.
  intros H1 H2 Hc.
  destruct (c <? 2)%Z eqn:E2.
  - assert ((c <? 5)%Z = true) as -> by lia.
    exists (dict_set "Phi2" (VFloat (of_Z 0)) (dict_set "Phi1" (VFloat (of_Z 0)) d)).
    split; [|repeat split].
    + rewrite (bind_ok _ _ _ _ _ (setitem_at w0 r d _ _)). apply setitem_at.
    + by rewrite !dict_get_set.
    + by rewrite !dict_get_set.
    + intros key K1 K2. rewrite !dict_get_set.
      apply String.eqb_neq in K1, K2. rewrite String.eqb_sym in K1.
      rewrite String.eqb_sym in K2. by rewrite K1, K2.
  - rewrite (bind_ok _ _ _ _ _ (getitem_at w0 r d _ _ Hc)).
    rewrite (bind_ok (lift_result (py_lt (VInt c) (VInt 5))) _ _ (c <? 5)%Z _ eq_refl).
    destruct (c <? 5)%Z.
    + exists (dict_set "Phi1" (VFloat (of_Z 0)) d). split; [apply setitem_at|].
      repeat split.
      * by rewrite !dict_get_set.
      * by rewrite !dict_get_set.
      * intros key K1 K2. rewrite !dict_get_set.
        apply String.eqb_neq in K1. rewrite String.eqb_sym in K1. by rewrite K1.
    + exists d. by repeat split.
Qed.

(** The sum of the four fractions, as [sum] accumulates it from 0. *)
Lemma rpa_total_step (w0 : process num) (r : loc) (d : pdict num)
    (y1 y2 y3 y4 : num) :
  dict_get "Phi1" d = Some (VFloat y1) -> dict_get "Phi2" d = Some (VFloat y2) ->
  dict_get "Phi3" d = Some (VFloat y3) -> dict_get "Phi4" d = Some (VFloat y4) ->
  fold_M (fun acc key =>
            let* phi := ref_getitem r key in
            lift_result (py_add acc phi)) phi_keys (VInt 0) (at_dict w0 r d)
  = (Ok (VFloat (nadd (nadd (nadd (nadd (of_Z 0) y1) y2) y3) y4)), at_dict w0 r d).
Proof.
  intros H1 H2 H3 H4.
  change phi_keys with ["Phi1"; "Phi2"; "Phi3"; "Phi4"]%string. cbn [fold_M].
  assert (Hstep : forall acc key y,
            dict_get key d = Some (VFloat y) ->
            forall x, to_num acc = Ok x -> match acc with VInt 0 | VFloat _ => True | _ => False end ->
            (let* phi := ref_getitem r key in lift_result (py_add acc phi))
              (at_dict w0 r d)
            = (Ok (VFloat (nadd x y)), at_dict w0 r d)).
  { intros acc key y Hk x Hx Hacc.
    rewrite (bind_ok _ _ _ _ _ (getitem_at w0 r d _ _ Hk)).
    unfold lift_result. destruct acc as [x'|n|]; try done.
    - cbn in Hx. injection Hx as ->. reflexivity.
    - cbn in Hx. injection Hx as <-. reflexivity. }
  rewrite (bind_ok _ _ _ _ _ (Hstep (VInt 0) _ _ H1 _ eq_refl I)).
  rewrite (bind_ok _ _ _ _ _ (Hstep (VFloat _) _ _ H2 _ eq_refl I)).
  rewrite (bind_ok _ _ _ _ _ (Hstep (VFloat _) _ _ H3 _ eq_refl I)).
  rewrite (bind_ok _ _ _ _ _ (Hstep (VFloat _) _ _ H4 _ eq_refl I)).
  reflexivity.
Qed.

(** X19.  The [rpa] repair cannot normalize fractions that add up to
    zero: when, after the zeroing by [case_num], the sum of the four
    fractions compares equal to 0, [constrain_pars] raises
    ZeroDivisionError at the first division.  The zeroing has been done
    by then, in the caller's dict, and no fraction has been divided. *)
Theorem constrain_pars_rpa_zero_total (mi : ModelInfo num) (r : loc)
    (d : pdict num) (w : process num) (c : Z) (y1 y2 y3 y4 : num) :
  id mi = "rpa"%string -> heap w !! r = Some d -> NoDup (dict_keys d) ->
  dict_get "case_num" d = Some (VInt c) ->
  dict_get "Phi1" d = Some (VFloat y1) -> dict_get "Phi2" d = Some (VFloat y2) ->
  dict_get "Phi3" d = Some (VFloat y3) -> dict_get "Phi4" d = Some (VFloat y4) ->
  let z1 := if (c <? 5)%Z then of_Z 0 else y1 in
  let z2 := if (c <? 2)%Z then of_Z 0 else y2 in
  neqb (nadd (nadd (nadd (nadd (of_Z 0) z1) z2) y3) y4) (of_Z 0) = true ->
  exists w' d',
    constrain_pars mi r w = (Raise ZeroDivisionError, w')
    /\ heap w' !! r = Some d'
    /\ dict_get "Phi1" d' = Some (VFloat z1)
    /\ dict_get "Phi2" d' = Some (VFloat z2)
    /\ dict_get "Phi3" d' = Some (VFloat y3)
    /\ dict_get "Phi4" d' = Some (VFloat y4).
Proof.
  intros Hid Hr Hnd Hc H1 H2 H3 H4 z1 z2 Hzero.
  destruct (python_step mi r d w Hr) as (w0 & Hstep & _).
  set (d1 := python_repair (Iq_callable mi) d) in *.
  assert (Hget : forall k v, dict_get k d = Some v -> startswith k "M0:" = false ->
                             dict_get k d1 = Some v).
  { intros k v Hk Hm. unfold d1. rewrite python_repair_get by done.
    by rewrite Hk, Hm, andb_false_r. }
  destruct (rpa_zero_step w0 r d1 y1 y2 c
              (Hget _ _ H1 eq_refl) (Hget _ _ H2 eq_refl) (Hget _ _ Hc eq_refl))
    as (d2 & Hzeroing & Hz1 & Hz2 & Hrest).
  assert (Hz3 : dict_get "Phi3" d2 = Some (VFloat y3))
    by (rewrite Hrest by discriminate; by apply Hget).
  assert (Hz4 : dict_get "Phi4" d2 = Some (VFloat y4))
    by (rewrite Hrest by discriminate; by apply Hget).
  exists (at_dict w0 r d2), d2.
  split; [|split; [apply at_dict_lookup|by repeat split]].
  unfold constrain_pars. rewrite Hid.
  rewrite (bind_ok _ _ _ _ _ Hstep).
  change (if contains "*" "rpa" then split_head "*" "rpa" else "rpa")
    with "rpa"%string.
  change (String.eqb "rpa" "barbell") with false.
  change (String.eqb "rpa" "capped_cylinder") with false.
  change (String.eqb "rpa" "guinier") with false.
  change (String.eqb "rpa" "pearl_necklace") with false.
  change (String.eqb "rpa" "rpa") with true. cbv iota.
  rewrite (bind_ok _ _ _ _ _ (getitem_at w0 r d1 _ _ (Hget _ _ Hc eq_refl))).
  rewrite (bind_ok (lift_result (py_lt (VInt c) (VInt 2))) _ _ (c <? 2)%Z _ eq_refl).
  rewrite (bind_ok _ _ _ _ _ Hzeroing).
  rewrite (bind_ok _ _ _ _ _ (rpa_total_step w0 r d2 _ _ _ _ Hz1 Hz2 Hz3 Hz4)).
  fold z1 z2. change phi_keys with ["Phi1"; "Phi2"; "Phi3"; "Phi4"]%string.
  cbn [for_each].
  apply bind_raise.
  rewrite (bind_ok _ _ _ _ _ (getitem_at w0 r d2 _ _ Hz1)).
  apply bind_raise. unfold lift_result, py_div. cbn [to_num result_bind].
  unfold py_truediv. by rewrite Hzero.
Qed.

End RepairFailure.

Section WarmUpFailure.
Context {num : Type} {N : Number num}.

(** X20.  With more than one evaluation requested, a calculator that
    raises on the warm-up call ends [time_calculation] there: the
    exception propagates, the only call made is the one on the
    monodisperse copy, the clock has advanced by that call, and the
    caller's parameter set has not been evaluated. *)
Theorem time_calculation_warm_up_failure (c : Calculator num) (r : loc)
    (d : pdict num) (n : Z) (w : process num) (e : exn) (dt : Z) :
  (1 < n)%Z -> heap w !! r = Some d ->
  behave c (monodisperse d) (calls w) = (Raise e, dt) ->
  exists w',
    time_calculation c r n w = (Raise e, w')
    /\ calls w' = calls w ++ [(engine c, monodisperse d)]
    /\ clock w' = (clock w + dt)%Z
    /\ heap w' !! r = Some d.
Proof.
  intros Hn Hr Hb. unfold time_calculation.
  assert ((1 <? n)%Z = true) as -> by lia.
  assert (Hfresh : heap w !! fresh (dom (heap w)) = None)
    by (apply not_elem_of_dom, is_fresh).
  set (r' := fresh (dom (heap w))) in *.
  set (w1 := set_heap (<[r' := monodisperse d]> (heap w)) w).
  assert (H1 : heap w1 !! r' = Some (monodisperse d))
    by (cbn; by rewrite lookup_insert_eq).
  eexists. split.
  - apply bind_raise.
    rewrite (bind_ok _ _ _ _ _ (suppress_pd_true r d w Hr)). fold r'. fold w1.
    apply bind_raise. rewrite (call_spec c r' _ w1 H1).
    change (calls w1) with (calls w). rewrite Hb. reflexivity.
  - cbn. split; [done|]. split; [done|].
    rewrite lookup_insert_ne; [done|]. intros Heq. congruence.
Qed.

End WarmUpFailure.

(** X19 on fractions that the zeroing for [case_num = 1] leaves at 0. *)
Lemma constrain_pars_rpa_zero_total_witness :
  NoDup (dict_keys rpa_pars_empty)
  /\ exists w' d',
       constrain_pars (ML := float_lib) (rpa_model float) 0%nat
         (empty_process {[ 0%nat := rpa_pars_empty ]})
       = (Raise ZeroDivisionError, w')
       /\ heap w' !! 0%nat = Some d'
       /\ dict_get "Phi1" d' = Some (VFloat 0%float)
       /\ dict_get "Phi2" d' = Some (VFloat 0%float).
Proof.
  assert (Hnd : NoDup (dict_keys rpa_pars_empty))
    by (apply (bool_decide_unpack _); vm_compute; exact I).
  assert (Hr : heap (empty_process {[ 0%nat := rpa_pars_empty ]}) !! 0%nat
               = Some rpa_pars_empty) by reflexivity.
  assert (Hzero :
    neqb (num := float)
      (nadd (nadd (nadd (nadd (of_Z 0) (if (1 <? 5)%Z then of_Z 0 else 0.25%float))
                        (if (1 <? 2)%Z then of_Z 0 else 0.5%float))
                  0%float) 0%float)
      (of_Z 0) = true) by (vm_compute; reflexivity).
  split; [exact Hnd|].
  destruct (constrain_pars_rpa_zero_total (ML := float_lib) (rpa_model float)
              0%nat rpa_pars_empty (empty_process {[ 0%nat := rpa_pars_empty ]})
              1 0.25%float 0.5%float 0%float 0%float
              eq_refl Hr Hnd eq_refl eq_refl eq_refl eq_refl eq_refl Hzero)
    as (w' & d' & Hrun & Hd' & H1 & H2 & _).
  by exists w', d'.
Defined.

(** X20 on a calculator whose backend is missing, three evaluations. *)
Lemma time_calculation_warm_up_failure_witness :
  (1 < 3)%Z
  /\ heap demo_process !! 0%nat = Some demo_pars
  /\ exists w',
       time_calculation (missing_calculator "sasview") 0%nat 3 demo_process
       = (Raise ImportError, w')
       /\ calls w' = [("sasview"%string, monodisperse demo_pars)].
Proof.
  assert (Hr : heap demo_process !! 0%nat = Some demo_pars) by reflexivity.
  split; [lia|]. split; [exact Hr|].
  destruct (time_calculation_warm_up_failure (missing_calculator "sasview") 0%nat
              demo_pars 3 demo_process ImportError 0 ltac:(lia) Hr eq_refl)
    as (w' & Hrun & Hcalls & _).
  by exists w'.
Defined.

(* ================================================================== *)
(** * Binary64 arithmetic on real values

    The rest of the file relates the primitive float operations to the
    real numbers, through their specification in [SpecFloat]: what
    [binary_round_aux] does to a located real, and from it the rounding
    error of an addition and of a division of nonnegative numbers. *)
(* ================================================================== *)

Local Open Scope R_scope.

(* ================================================================== *)
(** * Powers of two *)
(* ================================================================== *)


Lemma pow2_pos e : 0 < pow2 e.
Proof. apply powerRZ_lt. lra. Qed.

Lemma pow2_add a b : pow2 (a + b) = pow2 a * pow2 b.
Proof. apply powerRZ_add. lra. Qed.

Lemma pow2_0 : pow2 0 = 1.
Proof. reflexivity. Qed.

Lemma pow2_1 : pow2 1 = 2.
Proof. unfold pow2. simpl. lra. Qed.

Lemma pow2_m1 : pow2 (-1) = / 2.
Proof. unfold pow2. simpl. f_equal. lra. Qed.

Lemma pow2_succ e : pow2 (e + 1) = 2 * pow2 e.
Proof. rewrite pow2_add, pow2_1. lra. Qed.

Lemma pow2_pred e : pow2 (e - 1) = pow2 e / 2.
Proof.
  replace (e - 1)%Z with (e + -1)%Z by lia. rewrite pow2_add, pow2_m1. lra.
Qed.

Lemma pow2_ge_1 k : (0 <= k)%Z -> 1 <= pow2 k.
Proof.
  intros Hk. unfold pow2. destruct k as [|p|p]; [cbn; lra| |lia].
  cbn. apply pow_R1_Rle. lra.
Qed.

Lemma pow2_le a b : (a <= b)%Z -> pow2 a <= pow2 b.
Proof.
  intros Hab. replace b with (a + (b - a))%Z by lia. rewrite pow2_add.
  pose proof (pow2_pos a). pose proof (pow2_ge_1 (b - a) ltac:(lia)). nra.
Qed.

Lemma pow2_lt a b : (a < b)%Z -> pow2 a < pow2 b.
Proof.
  intros Hab. replace b with ((b - 1) + 1)%Z by lia. rewrite pow2_succ.
  pose proof (pow2_le a (b - 1) ltac:(lia)). pose proof (pow2_pos a). lra.
Qed.

Lemma pow2_IZR k : (0 <= k)%Z -> pow2 k = IZR (2 ^ k).
Proof.
  intros Hk. destruct k as [|p|p]; [reflexivity| |lia].
  unfold pow2. change (2 ^ Z.pos p)%Z with (Z.pow_pos 2 p).
  by rewrite Zpower_pos_powerRZ.
Qed.

(** Comparison of two powers through their exponents. *)
Lemma pow2_lt_inv a b : pow2 a < pow2 b -> (a < b)%Z.
Proof.
  intros H. destruct (Z_lt_le_dec a b) as [|Hle]; [done|].
  apply pow2_le in Hle. lra.
Qed.

(* ================================================================== *)
(** * The number of binary digits *)
(* ================================================================== *)

Lemma digits2_pos_bounds (p : positive) :
  (2 ^ (Z.pos (digits2_pos p) - 1) <= Z.pos p < 2 ^ Z.pos (digits2_pos p))%Z.
Proof.
  induction p as [p IH|p IH|]; cbn [digits2_pos].
  - rewrite Pos2Z.inj_succ.
    replace (Z.succ (Z.pos (digits2_pos p)) - 1)%Z
      with (Z.succ (Z.pos (digits2_pos p) - 1)) by lia.
    rewrite !Z.pow_succ_r by lia. lia.
  - rewrite Pos2Z.inj_succ.
    replace (Z.succ (Z.pos (digits2_pos p)) - 1)%Z
      with (Z.succ (Z.pos (digits2_pos p) - 1)) by lia.
    rewrite !Z.pow_succ_r by lia. lia.
  - cbn. lia.
Qed.

Lemma Zdigits2_bounds (m : Z) :
  (0 < m)%Z ->
  pow2 (Zdigits2 m - 1) <= IZR m < pow2 (Zdigits2 m).
Proof.
  intros Hm. destruct m as [|p|p]; try lia. cbn [Zdigits2].
  pose proof (digits2_pos_bounds p) as [Hlo Hhi].
  rewrite !pow2_IZR by lia. split; [by apply IZR_le|by apply IZR_lt].
Qed.

Lemma Zdigits2_nonneg (m : Z) : (0 <= Zdigits2 m)%Z.
Proof. destruct m; cbn; lia. Qed.

(** A nonnegative integer below [2^k] has at most [k] digits. *)
Lemma Zdigits2_le (m k : Z) :
  (0 <= m)%Z -> (0 <= k)%Z -> IZR m < pow2 k -> (Zdigits2 m <= k)%Z.
Proof.
  intros Hm Hk Hlt. destruct (Z.eq_dec m 0%Z) as [->|Hne]; [cbn; lia|].
  pose proof (Zdigits2_bounds m ltac:(lia)) as [Hlo _].
  assert (pow2 (Zdigits2 m - 1) < pow2 k) by lra.
  apply pow2_lt_inv in H. lia.
Qed.

(* ================================================================== *)
(** * Shifting right and rounding to nearest even *)
(* ================================================================== *)

Lemma shr_1_located (mrs : shr_record) (x : R) :
  (0 <= shr_m mrs)%Z -> located (shr_m mrs) (loc_of_shr_record mrs) x ->
  (0 <= shr_m (shr_1 mrs))%Z
  /\ located (shr_m (shr_1 mrs)) (loc_of_shr_record (shr_1 mrs)) (x / 2).
Proof.
  destruct mrs as [m r s]. cbn [shr_m]. intros Hm Hloc.
  destruct m as [|p|p]; [| |lia].
  - destruct r, s; cbn in *; split; try lia; lra.
  - destruct p as [p|p|].
    + pose proof (IZR_POS_xI p) as E.
      assert (0 < IZR (Z.pos p)) by (apply IZR_lt; lia).
      destruct r, s; cbn [shr_1 orb shr_m loc_of_shr_record located] in *;
        (split; [lia|]); lra.
    + pose proof (IZR_POS_xO p) as E.
      destruct r, s; cbn [shr_1 orb shr_m loc_of_shr_record located] in *;
        (split; [lia|]); lra.
    + destruct r, s; cbn [shr_1 orb shr_m loc_of_shr_record located] in *;
        (split; [lia|]); lra.
Qed.

Lemma iter_shr_1_located (p : positive) : forall (mrs : shr_record) (x : R),
  (0 <= shr_m mrs)%Z -> located (shr_m mrs) (loc_of_shr_record mrs) x ->
  (0 <= shr_m (SpecFloat.iter_pos shr_1 p mrs))%Z
  /\ located (shr_m (SpecFloat.iter_pos shr_1 p mrs))
       (loc_of_shr_record (SpecFloat.iter_pos shr_1 p mrs)) (x / pow2 (Z.pos p)).
Proof.
  induction p as [p IH|p IH|]; intros mrs x Hm Hloc; cbn [SpecFloat.iter_pos].
  - destruct (shr_1_located mrs x Hm Hloc) as [Hm1 Hl1].
    destruct (IH _ _ Hm1 Hl1) as [Hm2 Hl2].
    destruct (IH _ _ Hm2 Hl2) as [Hm3 Hl3].
    split; [done|].
    replace (x / pow2 (Z.pos p~1)) with (x / 2 / pow2 (Z.pos p) / pow2 (Z.pos p));
      [done|].
    replace (Z.pos p~1) with (Z.pos p + Z.pos p + 1)%Z by lia.
    rewrite pow2_succ, pow2_add. pose proof (pow2_pos (Z.pos p)). field. lra.
  - destruct (IH _ _ Hm Hloc) as [Hm2 Hl2].
    destruct (IH _ _ Hm2 Hl2) as [Hm3 Hl3].
    split; [done|].
    replace (x / pow2 (Z.pos p~0)) with (x / pow2 (Z.pos p) / pow2 (Z.pos p));
      [done|].
    replace (Z.pos p~0) with (Z.pos p + Z.pos p)%Z by lia.
    rewrite pow2_add. pose proof (pow2_pos (Z.pos p)). field. lra.
  - rewrite pow2_1. by apply shr_1_located.
Qed.

Lemma located_record (m : Z) (l : location) :
  shr_m (shr_record_of_loc m l) = m
  /\ loc_of_shr_record (shr_record_of_loc m l) = l.
Proof. destruct l as [|[]]; by cbn. Qed.

(** A located real lies in [[m, m + 1)]. *)
Lemma located_range (m : Z) (l : location) (x : R) :
  located m l x -> IZR m <= x < IZR m + 1.
Proof. destruct l as [|[]]; cbn; lra. Qed.

(** Rounding to nearest even moves by at most one half, and not at all
    from an exact location. *)
Lemma round_nearest_even_spec (m : Z) (l : location) (x : R) :
  located m l x ->
  (m <= round_nearest_even m l <= m + 1)%Z
  /\ Rabs (IZR (round_nearest_even m l) - x) <= / 2
  /\ (l = loc_Exact -> IZR (round_nearest_even m l) = x).
Proof.
  intros Hloc. destruct l as [|[]]; cbn [round_nearest_even located] in *.
  - subst x. split; [lia|]. split; [|done].
    rewrite Rminus_diag, Rabs_R0. lra.
  - subst x. destruct (Z.even m).
    + split; [lia|]. split; [|done]. rewrite Rabs_left; lra.
    + split; [lia|]. split; [|done]. rewrite plus_IZR. rewrite Rabs_right; lra.
  - split; [lia|]. split; [|done]. rewrite Rabs_left; lra.
  - split; [lia|]. split; [|done]. rewrite plus_IZR. rewrite Rabs_right; lra.
Qed.


(* ================================================================== *)
(** * Rounding a located real to binary64 *)
(* ================================================================== *)

Lemma fexp_eq (k : Z) : fexp prec emax k = Z.max (k - 53) (-1074).
Proof. reflexivity. Qed.

Lemma located_lt_pow2 (m : Z) (l : location) (x : R) :
  (0 <= m)%Z -> located m l x -> x < pow2 (Zdigits2 m).
Proof.
  intros Hm Hloc. apply located_range in Hloc.
  destruct m as [|p|p]; [cbn [Zdigits2]; rewrite pow2_0; lra| |lia].
  cbn [Zdigits2]. pose proof (digits2_pos_bounds p) as [_ Hhi].
  rewrite pow2_IZR by lia.
  assert (IZR (Z.pos p + 1) <= IZR (2 ^ Z.pos (digits2_pos p)))
    by (apply IZR_le; lia).
  rewrite plus_IZR in H. lra.
Qed.

(** The first shift of [binary_round_aux]: the exponent becomes the
    larger of [e] and the target exponent, and the mantissa still
    locates the same real. *)
Lemma shr_fexp_located (m e : Z) (l : location) (x : R) mrs' e' :
  (0 <= m)%Z -> located m l x ->
  shr_fexp prec emax m e l = (mrs', e') ->
  e' = Z.max e (fexp prec emax (Zdigits2 m + e))
  /\ (0 <= shr_m mrs')%Z
  /\ located (shr_m mrs') (loc_of_shr_record mrs') (x * pow2 e / pow2 e')
  /\ (e' = e -> mrs' = shr_record_of_loc m l).
Proof.
  intros Hm Hloc. unfold shr_fexp, shr.
  destruct (located_record m l) as [Em El].
  pose proof (pow2_pos e) as He.
  destruct (fexp prec emax (Zdigits2 m + e) - e)%Z as [|p|p] eqn:E.
  - intros [= <- <-]. split; [lia|]. rewrite Em, El. split; [done|].
    split; [|done]. replace (x * pow2 e / pow2 e) with x by (field; lra). done.
  - intros [= <- <-]. split; [lia|].
    destruct (iter_shr_1_located p (shr_record_of_loc m l) x) as [H0 H1].
    { by rewrite Em. }
    { by rewrite Em, El. }
    split; [done|]. split; [|lia].
    replace (x * pow2 e / pow2 (e + Z.pos p)) with (x / pow2 (Z.pos p)); [done|].
    rewrite pow2_add. pose proof (pow2_pos (Z.pos p)). field. lra.
  - intros [= <- <-]. split; [lia|]. rewrite Em, El. split; [done|].
    split; [|done]. replace (x * pow2 e / pow2 e) with x by (field; lra). done.
Qed.

(** The second shift of [binary_round_aux] only renormalizes a
    mantissa that rounding carried to [2^53]: the value is kept. *)
Lemma shr_fexp_carry (mr e' : Z) :
  (0 <= mr <= 2 ^ 53)%Z -> (-1074 <= e')%Z ->
  exists mrs'' e'',
    shr_fexp prec emax mr e' loc_Exact = (mrs'', e'')
    /\ (0 <= shr_m mrs'')%Z /\ (e' <= e'')%Z
    /\ IZR (shr_m mrs'') * pow2 e'' = IZR mr * pow2 e'.
Proof.
  intros Hmr He'. destruct (Z.eq_dec mr (2 ^ 53)%Z) as [->|Hne].
  - unfold shr_fexp. change (Zdigits2 (2 ^ 53)) with 54%Z.
    replace (fexp prec emax (54 + e') - e')%Z with 1%Z by (rewrite fexp_eq; lia).
    exists (Build_shr_record 4503599627370496 false false), (e' + 1)%Z.
    split; [reflexivity|]. cbn [shr_m]. split; [lia|]. split; [lia|].
    rewrite pow2_succ. change (2 ^ 53)%Z with (2 * 4503599627370496)%Z.
    rewrite mult_IZR. lra.
  - assert (Hd : (Zdigits2 mr <= 53)%Z).
    { apply Zdigits2_le; [lia|lia|]. rewrite pow2_IZR by lia. apply IZR_lt. lia. }
    unfold shr_fexp, shr.
    destruct (fexp prec emax (Zdigits2 mr + e') - e')%Z as [|p|p] eqn:E.
    + eexists _, _. split; [reflexivity|]. cbn [shr_record_of_loc shr_m].
      split; [lia|]. split; [lia|done].
    + rewrite fexp_eq in E. lia.
    + eexists _, _. split; [reflexivity|]. cbn [shr_record_of_loc shr_m].
      split; [lia|]. split; [lia|done].
Qed.

(** [binary_round_aux] on a mantissa [m] and exponent [e] that locate
    the real [x * 2^e]: the result is a zero, a finite number or an
    infinity of sign [s], built from a mantissa [m''] and exponent [e'']
    whose value is within half a unit of the target exponent of
    [x * 2^e], and equal to it when nothing had to be shifted out. *)
Lemma round_aux_spec (s : bool) (m e : Z) (l : location) (x : R) :
  (0 <= m)%Z -> located m l x ->
  let E := Z.max e (fexp prec emax (Zdigits2 m + e)) in
  exists m'' e'',
    binary_round_aux prec emax s m e l
    = match m'' with
      | Z0 => S754_zero s
      | Z.pos p => if (e'' <=? emax - prec)%Z then S754_finite s p e''
                   else S754_infinity s
      | Z.neg _ => S754_nan
      end
    /\ (0 <= m'')%Z /\ (E <= e'')%Z
    /\ Rabs (IZR m'' * pow2 e'' - x * pow2 e) <= pow2 (E - 1)
    /\ (E = e -> l = loc_Exact -> IZR m'' * pow2 e'' = x * pow2 e).
Proof.
  intros Hm Hloc E. unfold binary_round_aux.
  destruct (shr_fexp prec emax m e l) as [mrs' e'] eqn:H1.
  destruct (shr_fexp_located m e l x mrs' e' Hm Hloc H1)
    as (He' & Hm1 & Hloc1 & Hsame).
  fold E in He'. subst e'.
  set (x1 := x * pow2 e / pow2 E) in *.
  set (m1 := shr_m mrs') in *.
  destruct (round_nearest_even_spec m1 _ x1 Hloc1) as (Hmr & Herr & Hexact).
  set (mr := round_nearest_even m1 (loc_of_shr_record mrs')) in *.
  assert (HE : (-1074 <= E)%Z) by (unfold E; rewrite fexp_eq; lia).
  pose proof (pow2_pos E) as HpE. pose proof (pow2_pos e) as Hpe.
  assert (Hx1 : x1 < pow2 53).
  { pose proof (located_lt_pow2 m l x Hm Hloc) as Hx.
    unfold x1. apply (Rmult_lt_reg_r (pow2 E)); [done|].
    replace (x * pow2 e / pow2 E * pow2 E) with (x * pow2 e) by (field; lra).
    rewrite <- pow2_add.
    apply Rlt_le_trans with (pow2 (Zdigits2 m) * pow2 e); [nra|].
    rewrite <- pow2_add. apply pow2_le. unfold E. rewrite fexp_eq. lia. }
  assert (Hm1' : (m1 < 2 ^ 53)%Z).
  { apply lt_IZR. rewrite <- pow2_IZR by lia.
    apply located_range in Hloc1. lra. }
  destruct (shr_fexp_carry mr E ltac:(lia) HE) as (mrs'' & e'' & H2 & Hm2 & He2 & Hval).
  rewrite H2. exists (shr_m mrs''), e''.
  split; [reflexivity|]. split; [done|]. split; [done|].
  assert (Hx : x * pow2 e = x1 * pow2 E) by (unfold x1; field; lra).
  rewrite Hval, Hx. split.
  - replace (IZR mr * pow2 E - x1 * pow2 E) with ((IZR mr - x1) * pow2 E) by ring.
    rewrite Rabs_mult, (Rabs_right (pow2 E)) by lra.
    rewrite pow2_pred. nra.
  - intros HEe Hl. f_equal. apply Hexact.
    rewrite (Hsame HEe). subst l. reflexivity.
Qed.


(* ================================================================== *)
(** * Addition and division of nonnegative binary64 numbers *)
(* ================================================================== *)

Lemma valid_finite (s : bool) (m : positive) (e : Z) :
  SpecFloat.valid_binary prec emax (S754_finite s m e) = true ->
  (-1074 <= e <= 971)%Z /\ (Z.pos (digits2_pos m) <= 53)%Z.
Proof.
  cbn [SpecFloat.valid_binary]. unfold bounded, canonical_mantissa.
  rewrite andb_true_iff, Z.eqb_eq, Z.leb_le, fexp_eq.
  change (emax - prec)%Z with 971%Z. lia.
Qed.

Lemma shl_align_spec (mx : positive) (ex ex' : Z) :
  IZR (Z.pos (fst (shl_align mx ex ex'))) * pow2 (snd (shl_align mx ex ex'))
  = IZR (Z.pos mx) * pow2 ex
  /\ snd (shl_align mx ex ex') = Z.min ex ex'.
Proof.
  unfold shl_align. destruct (ex' - ex)%Z as [|d|d] eqn:E; cbn [fst snd].
  - split; [done|lia].
  - split; [done|lia].
  - split; [|lia]. change (Pos.iter xO mx d) with (shift_pos d mx).
    rewrite shift_pos_correct, mult_IZR, Zpower_pos_powerRZ.
    fold (pow2 (Z.pos d)). replace ex with (Z.pos d + ex')%Z by lia.
    rewrite pow2_add. ring.
Qed.

(** Rounding an exactly known positive value whose exponent is not
    below the smallest one: the result is [+inf], and then the value
    was at least [2^971], or it is finite and within the relative
    error [2^-53]. *)
Lemma round_exact_rel (m : positive) (e : Z) :
  (-1074 <= e)%Z ->
  let X := IZR (Z.pos m) * pow2 e in
  let z := binary_round_aux prec emax false (Z.pos m) e loc_Exact in
  (z = S754_infinity false /\ pow2 971 <= X)
  \/ (sf_nonneg_finite z /\ Rabs (SF2R z - X) <= X * pow2 (-53)).
Proof.
  intros He X z.
  destruct (round_aux_spec false (Z.pos m) e loc_Exact (IZR (Z.pos m)))
    as (m'' & e'' & Hz & Hm'' & HE & Herr & Hexact); [lia|done|].
  fold z in Hz. fold X in Herr, Hexact.
  set (E := Z.max e (fexp prec emax (Zdigits2 (Z.pos m) + e))) in *.
  assert (Hmpos : (0 < Z.pos m)%Z) by lia.
  pose proof (Zdigits2_bounds (Z.pos m) Hmpos) as [Hlo _].
  pose proof (pow2_pos e) as Hpe.
  assert (Hm1 : 1 <= IZR (Z.pos m)) by (apply IZR_le; lia).
  assert (HX : 0 < X) by (unfold X; nra).
  assert (Hrel : Rabs (IZR m'' * pow2 e'' - X) <= X * pow2 (-53)).
  { destruct (Z.eq_dec E e) as [Ee|Ene].
    - rewrite (Hexact Ee eq_refl), Rminus_diag, Rabs_R0.
      pose proof (pow2_pos (-53)). nra.
    - eapply Rle_trans; [exact Herr|].
      assert (E = (Zdigits2 (Z.pos m) + e - 53)%Z) as ->
        by (unfold E in *; rewrite fexp_eq in *; lia).
      replace (Zdigits2 (Z.pos m) + e - 53 - 1)%Z
        with ((Zdigits2 (Z.pos m) - 1) + e + -53)%Z by lia.
      rewrite !pow2_add. pose proof (pow2_pos (-53)). unfold X.
      apply Rmult_le_compat_r; [lra|]. apply Rmult_le_compat_r; [lra|].
      exact Hlo. }
  pose proof (pow2_pos e'') as Hpe''.
  destruct m'' as [|p|p]; [| |lia].
  - right. rewrite Hz. split; [done|]. cbn [SF2R]. by rewrite Rmult_0_l in Hrel.
  - destruct (e'' <=? emax - prec)%Z eqn:Hle.
    + right. rewrite Hz. split; [done|]. exact Hrel.
    + left. split; [done|]. apply Z.leb_gt in Hle.
      change (emax - prec)%Z with 971%Z in Hle.
      assert (pow2 972 <= IZR (Z.pos p) * pow2 e'').
      { pose proof (pow2_le 972 e'' ltac:(lia)).
        assert (1 <= IZR (Z.pos p)) by (apply IZR_le; lia). nra. }
      assert (pow2 (-53) <= 1).
      { change 1 with (pow2 0). apply pow2_le. lia. }
      pose proof (pow2_pos (-53)).
      assert (Hv : IZR (Z.pos p) * pow2 e'' - X <= X * pow2 (-53)).
      { eapply Rle_trans; [apply Rle_abs|exact Hrel]. }
      replace 972%Z with (971 + 1)%Z in H by lia. rewrite pow2_succ in H.
      nra.
Qed.

Lemma SF2R_nonneg (x : spec_float) : sf_nonneg_finite x -> 0 <= SF2R x.
Proof.
  destruct x as [s|s| |[] m e]; cbn; try lra; try done.
  intros _. pose proof (pow2_pos e).
  assert (0 < IZR (Z.pos m)) by (apply IZR_lt; lia). nra.
Qed.

(** The sum of two nonnegative finite numbers. *)
Lemma SFadd_nonneg (x y : spec_float) :
  SpecFloat.valid_binary prec emax x = true ->
  SpecFloat.valid_binary prec emax y = true ->
  sf_nonneg_finite x -> sf_nonneg_finite y ->
  let S := SF2R x + SF2R y in
  let z := SFadd prec emax x y in
  (z = S754_infinity false /\ pow2 971 <= S)
  \/ (sf_nonneg_finite z /\ Rabs (SF2R z - S) <= S * pow2 (-53)).
Proof.
  intros Vx Vy Hx Hy S z.
  pose proof (pow2_pos (-53)) as Hu.
  pose proof (SF2R_nonneg x Hx) as Px. pose proof (SF2R_nonneg y Hy) as Py.
  assert (Hsame : forall t, sf_nonneg_finite t -> SF2R t = S -> z = t ->
            sf_nonneg_finite z /\ Rabs (SF2R z - S) <= S * pow2 (-53)).
  { intros t Ht Et ->. split; [done|]. rewrite Et, Rminus_diag, Rabs_R0.
    unfold S. nra. }
  destruct x as [sx|sx| |[] mx ex]; try done;
    destruct y as [sy|sy| |[] my ey]; try done.
  - right. destruct sx, sy; (apply (Hsame z); [done|unfold z, S; cbn; lra|done]).
  - right. apply (Hsame z); [done|unfold z, S; cbn; lra|done].
  - right. apply (Hsame z); [done|unfold z, S; cbn; lra|done].
  - destruct (valid_finite _ _ _ Vx) as [Hex _].
    destruct (valid_finite _ _ _ Vy) as [Hey _].
    unfold z, SFadd. cbn [cond_Zopp].
    set (ez := Z.min ex ey).
    destruct (shl_align_spec mx ex ez) as [V1 _].
    destruct (shl_align_spec my ey ez) as [V2 _].
    assert (E1 : snd (shl_align mx ex ez) = ez)
      by (rewrite (proj2 (shl_align_spec mx ex ez)); lia).
    assert (E2 : snd (shl_align my ey ez) = ez)
      by (rewrite (proj2 (shl_align_spec my ey ez)); lia).
    rewrite E1 in V1. rewrite E2 in V2.
    set (m1 := fst (shl_align mx ex ez)) in *.
    set (m2 := fst (shl_align my ey ez)) in *.
    change (Z.pos m1 + Z.pos m2)%Z with (Z.pos (m1 + m2)).
    cbn [binary_normalize]. unfold binary_round.
    set (f := fexp prec emax (Z.pos (digits2_pos (m1 + m2)) + ez)).
    destruct (shl_align_spec (m1 + m2) ez f) as [V3 E3].
    destruct (shl_align (m1 + m2) ez f) as [mz ez'] eqn:Hal. cbn [fst snd] in *.
    assert (HS : IZR (Z.pos mz) * pow2 ez' = S).
    { rewrite V3. unfold S. cbn [SF2R cond_Zopp].
      rewrite <- V1, <- V2, Pos2Z.inj_add, plus_IZR. ring. }
    pose proof (round_exact_rel mz ez') as Hr. cbv zeta in Hr.
    rewrite HS in Hr. apply Hr.
    subst ez'. unfold f. rewrite fexp_eq. lia.
Qed.


(** The location that the division records for a remainder [r] of a
    division by [d] is the position of [q + r / d]. *)
Lemma new_location_located (d q r : Z) :
  (0 <= r < d)%Z ->
  located q (new_location d r) (IZR q + IZR r / IZR d).
Proof.
  intros Hr. assert (Hd : 0 < IZR d) by (apply IZR_lt; lia).
  assert (Hr0 : 0 <= IZR r) by (apply IZR_le; lia).
  set (t := IZR r / IZR d).
  assert (Et : t * IZR d = IZR r) by (unfold t; field; lra).
  assert (Hhalf : forall c, (2 * r ?= d)%Z = c ->
            match c with
            | Lt => t < / 2
            | Eq => t = / 2
            | Gt => / 2 < t
            end).
  { intros c <-. destruct (Z.compare_spec (2 * r) d) as [E|E|E].
    - apply (f_equal IZR) in E. rewrite mult_IZR in E. nra.
    - apply IZR_lt in E. rewrite mult_IZR in E.
      apply (Rmult_lt_reg_r (IZR d)); [done|]. lra.
    - apply IZR_lt in E. rewrite mult_IZR in E.
      apply (Rmult_lt_reg_r (IZR d)); [done|]. lra. }
  assert (Hlt1 : t < 1).
  { assert (IZR r < IZR d) by (apply IZR_lt; lia).
    apply (Rmult_lt_reg_r (IZR d)); [done|]. lra. }
  unfold new_location, new_location_even, new_location_odd.
  destruct (Z.eq_dec r 0%Z) as [->|Er].
  - assert (t = 0) by (unfold t, Rdiv; lra).
    destruct (Z.even d); change (0 =? 0)%Z with true; cbv iota; cbn [located]; lra.
  - assert (Hrpos : 0 < t).
    { apply Rdiv_lt_0_compat; [|done]. apply IZR_lt. lia. }
    apply Z.eqb_neq in Er as Er'.
    destruct (Z.even d) eqn:Ev; rewrite Er'.
    + pose proof (Hhalf _ eq_refl) as H.
      destruct (2 * r ?= d)%Z; cbn [located]; lra.
    + assert (Hodd : (2 * r <> d)%Z).
      { intros E. rewrite <- E, Z.even_mul in Ev. discriminate. }
      pose proof (Hhalf _ eq_refl) as H.
      destruct (Z.compare_spec (2 * r + 1) d) as [E|E|E];
        destruct (Z.compare_spec (2 * r) d) as [E'|E'|E']; try lia;
        cbn [located]; lra.
Qed.

(** The quotient of a nonnegative finite number by a positive finite
    one. *)
Lemma SFdiv_nonneg (x : spec_float) (my : positive) (ey : Z) :
  SpecFloat.valid_binary prec emax x = true ->
  sf_nonneg_finite x ->
  let y := S754_finite false my ey in
  let Q := SF2R x / SF2R y in
  let z := SFdiv prec emax x y in
  (z = S754_infinity false /\ pow2 971 <= Q)
  \/ (sf_nonneg_finite z
      /\ Rabs (SF2R z - Q) <= Q * pow2 (-53) + pow2 (-1075)).
Proof.
  intros Vx Hx y Q z.
  pose proof (pow2_pos (-53)) as Hu. pose proof (pow2_pos (-1075)) as Heta.
  pose proof (pow2_pos ey) as Hpey.
  assert (Hmy : 1 <= IZR (Z.pos my)) by (apply IZR_le; lia).
  assert (Hy : 0 < SF2R y) by (cbn; nra).
  destruct x as [sx|sx| |[] mx ex]; try done.
  - right. split; [done|]. unfold z, Q. cbn [SFdiv SF2R].
    unfold Rdiv. rewrite Rmult_0_l, Rminus_diag, Rabs_R0. lra.
  - destruct (valid_finite _ _ _ Vx) as [Hex Hdx].
    pose proof (pow2_pos ex) as Hpex.
    assert (Hmx : 1 <= IZR (Z.pos mx)) by (apply IZR_le; lia).
    unfold z, SFdiv, SFdiv_core_binary. unfold y. cbv iota. cbn [xorb].
    set (d1 := Zdigits2 (Z.pos mx)). set (d2 := Zdigits2 (Z.pos my)).
    set (e' := Z.min (fexp prec emax (d1 + ex - (d2 + ey))) (ex - ey)).
    set (s := (ex - ey - e')%Z).
    assert (Hs : (0 <= s)%Z) by (unfold s, e'; lia).
    set (m' := match s with
               | 0%Z => Z.pos mx
               | Z.pos _ => Z.shiftl (Z.pos mx) s
               | Z.neg _ => 0%Z
               end).
    assert (Hm' : m' = (Z.pos mx * 2 ^ s)%Z).
    { unfold m'. destruct s as [|p|p]; [lia| |lia].
      by rewrite Z.shiftl_mul_pow2 by lia. }
    pose proof (Z_div_mod m' (Z.pos my) ltac:(lia)) as Hdiv.
    destruct (Z.div_eucl m' (Z.pos my)) as [q r]. destruct Hdiv as [Hqr Hr].
    assert (Hq : (0 <= q)%Z) by nia.
    set (xr := IZR q + IZR r / IZR (Z.pos my)).
    pose proof (new_location_located (Z.pos my) q r Hr) as Hloc. fold xr in Hloc.
    assert (HQ : xr * pow2 e' = Q).
    { unfold Q, xr, y. cbn [SF2R cond_Zopp].
      replace (IZR q + IZR r / IZR (Z.pos my))
        with (IZR m' / IZR (Z.pos my))
        by (rewrite Hqr, plus_IZR, mult_IZR; field; lra).
      rewrite Hm', mult_IZR, <- pow2_IZR by lia.
      assert (Esplit : pow2 ex = pow2 s * pow2 e' * pow2 ey)
        by (rewrite <- !pow2_add; f_equal; unfold s; lia).
      rewrite Esplit. pose proof (pow2_pos s). pose proof (pow2_pos e').
      clear - Hmx Hmy H H0 Hpey.
      generalize dependent (IZR (Z.pos mx)). generalize dependent (IZR (Z.pos my)).
      intros b Hb a Ha. field. lra. }
    assert (HQpos : 0 < Q)
      by (unfold Q, y; cbn [SF2R cond_Zopp]; apply Rdiv_lt_0_compat; nra).
    destruct (round_aux_spec false q e' (new_location (Z.pos my) r) xr Hq Hloc)
      as (m'' & e'' & Hz & Hm'' & HE & Herr & _).
    rewrite HQ in Herr.
    set (E := Z.max e' (fexp prec emax (Zdigits2 q + e'))) in *.
    (* the half unit of the target exponent is within the error bound *)
    assert (Hlow : pow2 (d1 + ex - (d2 + ey) - 1) <= Q).
    { unfold Q, y. cbn [SF2R cond_Zopp].
      pose proof (Zdigits2_bounds (Z.pos mx) ltac:(lia)) as [Hlo1 _].
      pose proof (Zdigits2_bounds (Z.pos my) ltac:(lia)) as [_ Hhi2].
      fold d1 in Hlo1. fold d2 in Hhi2.
      replace (d1 + ex - (d2 + ey) - 1)%Z with ((d1 - 1) + ex + - (d2 + ey))%Z by lia.
      rewrite !pow2_add. unfold pow2 at 3. rewrite powerRZ_neg'. fold (pow2 (d2 + ey)).
      rewrite pow2_add.
      pose proof (pow2_pos (d1 - 1)). pose proof (pow2_pos d2).
      apply Rmult_le_compat; try nra.
      - left. apply Rinv_0_lt_compat. nra.
      - apply Rinv_le_contravar; nra. }
    assert (Hbound : pow2 (E - 1) <= Q * pow2 (-53) + pow2 (-1075)).
    { assert (Hcases : (E - 1 <= -1075)%Z
                       \/ (E - 1 <= d1 + ex - (d2 + ey) - 1 + -53)%Z
                       \/ (0 < q /\ E - 1 = (Zdigits2 q - 1) + e' + -53)%Z).
      { unfold E, e'. rewrite !fexp_eq.
        destruct (Z.eq_dec q 0%Z) as [->|Hq0]; [cbn [Zdigits2]; lia|]. lia. }
      destruct Hcases as [Hc|[Hc|[Hq0 Hc]]].
      - apply pow2_le in Hc. nra.
      - apply pow2_le in Hc. rewrite pow2_add in Hc. nra.
      - rewrite Hc, !pow2_add.
        pose proof (Zdigits2_bounds q Hq0) as [Hloq _].
        apply located_range in Hloc. pose proof (pow2_pos e').
        assert (pow2 (Zdigits2 q - 1) * pow2 e' <= Q) by (rewrite <- HQ; nra).
        nra. }
    assert (Hrel : Rabs (IZR m'' * pow2 e'' - Q) <= Q * pow2 (-53) + pow2 (-1075))
      by lra.
    cbv beta iota. rewrite Hz.
    destruct m'' as [|p|p]; [| |lia].
    + right. split; [done|]. cbn [SF2R]. by rewrite Rmult_0_l in Hrel.
    + destruct (e'' <=? emax - prec)%Z eqn:Hle.
      * right. split; [done|]. exact Hrel.
      * left. split; [done|]. apply Z.leb_gt in Hle.
        change (emax - prec)%Z with 971%Z in Hle.
        assert (1 <= IZR (Z.pos p)) by (apply IZR_le; lia).
        pose proof (pow2_le (E - 1) (e'' - 1) ltac:(lia)) as H1.
        pose proof (pow2_le 971 (e'' - 1) ltac:(lia)) as H2.
        pose proof (pow2_pos (e'' - 1)).
        assert (Hv : IZR (Z.pos p) * pow2 e'' - Q <= pow2 (E - 1)).
        { eapply Rle_trans; [apply Rle_abs|exact Herr]. }
        replace e'' with ((e'' - 1) + 1)%Z in Hv at 1 by lia.
        rewrite pow2_succ in Hv. nra.
Qed.


(* ================================================================== *)
(** * Primitive floats through their specification *)
(* ================================================================== *)

Lemma Prim2SF_zero : Prim2SF 0%float = S754_zero false.
Proof. reflexivity. Qed.

Lemma float_of_Z_0 : float_of_Z 0 = 0%float.
Proof. reflexivity. Qed.

(** A float above zero is a positive finite number or [+inf]. *)
Lemma float_pos_shape (a : float) :
  (0 <? a)%float = true ->
  match Prim2SF a with
  | S754_finite false _ _ | S754_infinity false => True
  | _ => False
  end.
Proof.
  rewrite FloatAxioms.ltb_spec, Prim2SF_zero. unfold SFltb, SFcompare.
  destruct (Prim2SF a) as [s|[]| |[] m e]; try done.
Qed.

Lemma float_pos_nonneg (a : float) :
  (0 <? a)%float = true -> sf_nonneg (Prim2SF a).
Proof. intros H. apply float_pos_shape in H. by destruct (Prim2SF a) as [|[]| |[]]. Qed.

(** What [np.isfinite] accepts is a zero or a finite number. *)
Lemma float_isfinite_shape (a : float) :
  float_isfinite a = true ->
  match Prim2SF a with
  | S754_zero _ | S754_finite _ _ _ => True
  | _ => False
  end.
Proof.
  unfold float_isfinite, is_nan, is_infinity.
  rewrite negb_true_iff, orb_false_iff, negb_false_iff.
  rewrite !FloatAxioms.eqb_spec, FloatAxioms.abs_spec. intros [Hnan Hinf].
  change (Prim2SF infinity) with (S754_infinity false) in Hinf.
  destruct (Prim2SF a) as [s|s| |s m e]; try done.
Qed.

(** Conversely, zeros and finite numbers pass [np.isfinite]. *)
Lemma float_isfinite_intro (a : float) :
  sf_nonneg_finite (Prim2SF a) -> float_isfinite a = true.
Proof.
  unfold float_isfinite, is_nan, is_infinity.
  rewrite negb_true_iff, orb_false_iff, negb_false_iff.
  rewrite !FloatAxioms.eqb_spec, FloatAxioms.abs_spec.
  change (Prim2SF infinity) with (S754_infinity false).
  destruct (Prim2SF a) as [s|s| |[] m e]; try done. intros _.
  unfold SFeqb, SFcompare. cbn [SFabs].
  rewrite Z.compare_refl.
  change (PosDef.Pos.compare_cont Eq m m) with (m ?= m)%positive.
  by rewrite Pos.compare_refl.
Qed.

Lemma sf_nonneg_finite_nonneg (x : spec_float) : sf_nonneg_finite x -> sf_nonneg x.
Proof. by destruct x as [|[]| |[]]. Qed.

(** Sums of nonnegative numbers are nonnegative, and finite only when
    both terms are. *)
Lemma SFadd_nonneg_shape (x y : spec_float) :
  SpecFloat.valid_binary prec emax x = true ->
  SpecFloat.valid_binary prec emax y = true ->
  sf_nonneg x -> sf_nonneg y ->
  sf_nonneg (SFadd prec emax x y)
  /\ (sf_nonneg_finite (SFadd prec emax x y) ->
      sf_nonneg_finite x /\ sf_nonneg_finite y).
Proof.
  intros Vx Vy Hx Hy.
  destruct x as [sx|[]| |[] mx ex]; try done;
    destruct y as [sy|[]| |[] my ey]; try done;
    try (split; [done|]; cbn; tauto).
  - split; [by destruct sx, sy|done].
  - destruct (SFadd_nonneg _ _ Vx Vy I I) as [[-> _]|[H _]]; [done|].
    split; [by apply sf_nonneg_finite_nonneg|done].
Qed.

Section FloatSteps.
Implicit Types a b : float.

Lemma float_add_nonneg a b :
  sf_nonneg (Prim2SF a) -> sf_nonneg (Prim2SF b) ->
  sf_nonneg (Prim2SF (a + b)).
Proof.
  intros Ha Hb. rewrite FloatAxioms.add_spec.
  by apply SFadd_nonneg_shape; [apply Prim2SF_valid|apply Prim2SF_valid| |].
Qed.

Lemma float_add_finite a b :
  sf_nonneg (Prim2SF a) -> sf_nonneg (Prim2SF b) ->
  sf_nonneg_finite (Prim2SF (a + b)) ->
  sf_nonneg_finite (Prim2SF a) /\ sf_nonneg_finite (Prim2SF b)
  /\ Rabs (float_value (a + b) - (float_value a + float_value b))
     <= (float_value a + float_value b) * pow2 (-53).
Proof.
  intros Ha Hb Hfin. rewrite FloatAxioms.add_spec in Hfin.
  pose proof (Prim2SF_valid a) as Va. pose proof (Prim2SF_valid b) as Vb.
  destruct (proj2 (SFadd_nonneg_shape _ _ Va Vb Ha Hb) Hfin) as [Fa Fb].
  split; [done|]. split; [done|].
  unfold float_value. rewrite FloatAxioms.add_spec.
  destruct (SFadd_nonneg _ _ Va Vb Fa Fb) as [[E _]|[_ H]]; [|done].
  unfold SF64add in Hfin. by rewrite E in Hfin.
Qed.

(** A sum of nonnegative finite numbers below [2^971] does not
    overflow. *)
Lemma float_add_small a b :
  sf_nonneg_finite (Prim2SF a) -> sf_nonneg_finite (Prim2SF b) ->
  float_value a + float_value b < pow2 971 ->
  sf_nonneg_finite (Prim2SF (a + b)).
Proof.
  intros Fa Fb Hsmall. rewrite FloatAxioms.add_spec.
  destruct (SFadd_nonneg _ _ (Prim2SF_valid a) (Prim2SF_valid b) Fa Fb)
    as [[_ Hbig]|[H _]]; [|done].
  unfold float_value in Hsmall. lra.
Qed.

Lemma float_value_nonneg a : sf_nonneg_finite (Prim2SF a) -> 0 <= float_value a.
Proof. apply SF2R_nonneg. Qed.

(** A nonnegative finite number of positive value is a positive finite
    number; it does not compare equal to zero. *)
Lemma float_value_pos_shape a :
  sf_nonneg_finite (Prim2SF a) -> 0 < float_value a ->
  exists m e, Prim2SF a = S754_finite false m e.
Proof.
  unfold float_value. destruct (Prim2SF a) as [s|s| |[] m e]; try done.
  - cbn. lra.
  - intros _ _. by exists m, e.
Qed.

Lemma float_pos_value a :
  (0 <? a)%float = true -> sf_nonneg_finite (Prim2SF a) -> 0 < float_value a.
Proof.
  intros Hpos Hfin. apply float_pos_shape in Hpos. unfold float_value.
  destruct (Prim2SF a) as [s|s| |[] m e]; try done.
  cbn. pose proof (pow2_pos e).
  assert (1 <= IZR (Z.pos m)) by (apply IZR_le; lia). nra.
Qed.

Lemma float_div_nonneg a b :
  sf_nonneg_finite (Prim2SF a) -> sf_nonneg_finite (Prim2SF b) ->
  0 < float_value b ->
  float_value a / float_value b < pow2 971 ->
  sf_nonneg_finite (Prim2SF (a / b))
  /\ Rabs (float_value (a / b) - float_value a / float_value b)
     <= float_value a / float_value b * pow2 (-53) + pow2 (-1075).
Proof.
  intros Fa Fb Hb Hsmall.
  destruct (float_value_pos_shape b Fb Hb) as (m & e & Eb).
  unfold float_value in *. rewrite FloatAxioms.div_spec, Eb in *. unfold SF64div.
  destruct (SFdiv_nonneg (Prim2SF a) m e (Prim2SF_valid a) Fa) as [[_ Hbig]|H];
    [lra|done].
Qed.

(** Zero divided by a positive finite number is [+0]. *)
Lemma float_div_zero b :
  sf_nonneg_finite (Prim2SF b) -> 0 < float_value b -> (0 / b)%float = 0%float.
Proof.
  intros Fb Hb. destruct (float_value_pos_shape b Fb Hb) as (m & e & Eb).
  apply Prim2SF_inj. by rewrite FloatAxioms.div_spec, Eb, Prim2SF_zero.
Qed.

Lemma float_pos_not_zero b :
  sf_nonneg_finite (Prim2SF b) -> 0 < float_value b -> (b =? 0)%float = false.
Proof.
  intros Fb Hb. destruct (float_value_pos_shape b Fb Hb) as (m & e & Eb).
  by rewrite FloatAxioms.eqb_spec, Eb, Prim2SF_zero.
Qed.

End FloatSteps.


(* ================================================================== *)
(** * Accumulated rounding error of a sum and of its normalization *)
(* ================================================================== *)

Lemma Rabs_le_both (a b : R) : Rabs a <= b -> - b <= a <= b.
Proof. unfold Rabs. destruct (Rcase_abs a); lra. Qed.

Lemma chain_up (P s y c K : R) :
  1 <= c -> 1 <= K -> 0 <= y -> 0 <= P -> s <= P * K ->
  (s + y) * c <= (P + y) * (K * c).
Proof. intros. assert (s + y <= (P + y) * K) by nra. nra. Qed.

Lemma chain_down (P s y b K : R) :
  0 <= b -> 0 <= K <= 1 -> 0 <= y -> 0 <= P -> P * K <= s ->
  (P + y) * (K * b) <= (s + y) * b.
Proof. intros. assert ((P + y) * K <= s + y) by nra. nra. Qed.

(** Four additions of nonnegative terms, each with relative error at
    most [u]: the accumulated sum is within the factors [1 - 4u] and
    [1 + 5u] of the exact one. *)
Lemma sum_chain_bounds (u y1 y2 y3 y4 s1 s2 s3 t : R) :
  0 < u <= / 1024 ->
  0 <= y1 -> 0 <= y2 -> 0 <= y3 -> 0 <= y4 ->
  Rabs (s1 - (0 + y1)) <= (0 + y1) * u ->
  Rabs (s2 - (s1 + y2)) <= (s1 + y2) * u ->
  Rabs (s3 - (s2 + y3)) <= (s2 + y3) * u ->
  Rabs (t - (s3 + y4)) <= (s3 + y4) * u ->
  (y1 + y2 + y3 + y4) * (1 - 4 * u) <= t <= (y1 + y2 + y3 + y4) * (1 + 5 * u).
Proof.
  intros Hu P1 P2 P3 P4 H1 H2 H3 H4.
  apply Rabs_le_both in H1, H2, H3, H4.
  set (c := 1 + u). set (b := 1 - u).
  assert (Hc : 1 <= c) by (unfold c; lra).
  assert (Hb : 0 <= b <= 1) by (unfold b; lra).
  assert (U1 : s1 <= y1 * c) by (unfold c; nra).
  assert (L1 : y1 * b <= s1) by (unfold b; nra).
  assert (U2 : s2 <= (y1 + y2) * (c * c)).
  { eapply Rle_trans; [|apply chain_up; [done|done|done|done|exact U1]].
    unfold c. lra. }
  assert (L2 : (y1 + y2) * (b * b) <= s2).
  { eapply Rle_trans; [apply chain_down; [lra|done|done|done|exact L1]|].
    unfold b. lra. }
  assert (U3 : s3 <= (y1 + y2 + y3) * (c * c * c)).
  { eapply Rle_trans; [|apply chain_up; [done|nra|done|lra|exact U2]].
    unfold c. lra. }
  assert (L3 : (y1 + y2 + y3) * (b * b * b) <= s3).
  { eapply Rle_trans; [apply chain_down; [lra|nra|done|lra|exact L2]|].
    unfold b. lra. }
  assert (U4 : t <= (y1 + y2 + y3 + y4) * (c * c * c * c)).
  { eapply Rle_trans; [|apply chain_up; [done|nra|done|lra|exact U3]].
    unfold c. lra. }
  assert (L4 : (y1 + y2 + y3 + y4) * (b * b * b * b) <= t).
  { eapply Rle_trans; [apply chain_down; [lra|nra|done|lra|exact L3]|].
    unfold b. lra. }
  assert (Hc4 : c * c * c * c <= 1 + 5 * u).
  { unfold c. assert (u * u <= u / 1024) by nra.
    assert (u * u * u <= u / 1024) by nra.
    assert (u * u * u * u <= u / 1024) by nra. nra. }
  assert (Hb4 : 1 - 4 * u <= b * b * b * b).
  { unfold b. assert (0 <= u * u) by nra. assert (u * u * u <= u * u) by nra.
    assert (0 <= u * u * u * u) by nra. nra. }
  assert (HS : 0 <= y1 + y2 + y3 + y4) by lra.
  split.
  - eapply Rle_trans; [|exact L4]. by apply Rmult_le_compat_l.
  - eapply Rle_trans; [exact U4|]. by apply Rmult_le_compat_l.
Qed.

(** Four nonnegative terms whose sum was accumulated with relative
    error [u] per addition and which were then each divided by the
    accumulated sum with relative error [u] and absolute error [eta]:
    the quotients add up to 1 within [8u]. *)
Lemma normalized_sum_bound (u eta y1 y2 y3 y4 s1 s2 s3 t q1 q2 q3 q4 : R) :
  0 < u <= / 1024 -> 0 <= eta <= u / 4 ->
  0 <= y1 -> 0 <= y2 -> 0 <= y3 -> 0 <= y4 -> 0 < y1 + y2 + y3 + y4 ->
  Rabs (s1 - (0 + y1)) <= (0 + y1) * u ->
  Rabs (s2 - (s1 + y2)) <= (s1 + y2) * u ->
  Rabs (s3 - (s2 + y3)) <= (s2 + y3) * u ->
  Rabs (t - (s3 + y4)) <= (s3 + y4) * u ->
  Rabs (q1 - y1 / t) <= y1 / t * u + eta ->
  Rabs (q2 - y2 / t) <= y2 / t * u + eta ->
  Rabs (q3 - y3 / t) <= y3 / t * u + eta ->
  Rabs (q4 - y4 / t) <= y4 / t * u + eta ->
  0 < t /\ (y1 + y2 + y3 + y4) / t <= 1 + 5 * u
  /\ Rabs (q1 + q2 + q3 + q4 - 1) <= 8 * u.
Proof.
  intros Hu Heta P1 P2 P3 P4 HS H1 H2 H3 H4 Q1 Q2 Q3 Q4.
  destruct (sum_chain_bounds u y1 y2 y3 y4 s1 s2 s3 t Hu P1 P2 P3 P4 H1 H2 H3 H4)
    as [Lt Ut].
  set (S := y1 + y2 + y3 + y4) in *.
  assert (Ht : 0 < t) by nra.
  set (it := / t). assert (Hit : 0 < it) by (by apply Rinv_0_lt_compat).
  assert (Eit : t * it = 1) by (unfold it; field; lra).
  unfold Rdiv in *. fold it in Q1, Q2, Q3, Q4 |- *.
  set (r := S * it).
  assert (Hr1 : r <= 1 + 5 * u).
  { assert (S <= (1 + 5 * u) * t) by nra.
    unfold r. replace (1 + 5 * u) with ((1 + 5 * u) * t * it) by (rewrite Rmult_assoc, Eit; ring).
    apply Rmult_le_compat_r; lra. }
  assert (Hr2 : 1 - 5 * u <= r).
  { assert ((1 - 5 * u) * t <= S) by nra.
    unfold r. replace (1 - 5 * u) with ((1 - 5 * u) * t * it) by (rewrite Rmult_assoc, Eit; ring).
    apply Rmult_le_compat_r; lra. }
  split; [done|]. split; [done|].
  apply Rabs_le_both in Q1, Q2, Q3, Q4.
  assert (Er : y1 * it + y2 * it + y3 * it + y4 * it = r) by (unfold r, S; ring).
  apply Rabs_le. split; nra.
Qed.

Local Close Scope R_scope.

(* ================================================================== *)
(** * The [rpa] repair (compare.py, lines 480-489) *)
(* ================================================================== *)

Section RpaRepair.
Context {num : Type} {N : Number num} {ML : MathLib num} {G : NumpyRandom num}.

Lemma constrain_pars_rpa (mi : ModelInfo num) (r : loc) :
  id mi = "rpa"%string ->
  constrain_pars mi r
  = ((if Iq_callable mi then
        let* nonmagnetic := suppress_magnetism r true in
        ref_update r nonmagnetic
      else ret tt) ;;
     let* case_num := ref_getitem r "case_num" in
     let* below2 := lift_result (py_lt case_num (VInt 2)) in
     (if below2 then
        ref_setitem r "Phi1" (VFloat (of_Z 0)) ;;
        ref_setitem r "Phi2" (VFloat (of_Z 0))
      else
        let* case_num := ref_getitem r "case_num" in
        let* below5 := lift_result (py_lt case_num (VInt 5)) in
        if below5 then ref_setitem r "Phi1" (VFloat (of_Z 0)) else ret tt) ;;
     let* total :=
       fold_M (fun acc key =>
                 let* phi := ref_getitem r key in
                 lift_result (py_add acc phi)) phi_keys (VInt 0) in
     for_each phi_keys (fun key =>
       let* phi := ref_getitem r key in
       let* q := lift_result (py_div phi total) in
       ref_setitem r key q)).
Proof. intros Hid. unfold constrain_pars. rewrite Hid. reflexivity. Qed.

Lemma phi_key_tests key :
  ~ key ∈ phi_keys ->
  String.eqb "Phi1" key = false /\ String.eqb "Phi2" key = false
  /\ String.eqb "Phi3" key = false /\ String.eqb "Phi4" key = false.
Proof using Type.
  change phi_keys with ["Phi1"; "Phi2"; "Phi3"; "Phi4"]%string.
  intros Hkey. repeat split; apply String.eqb_neq; intros <-; apply Hkey;
    repeat first [by left | right].
Qed.

(** The zeroing step of the [rpa] branch. *)
Lemma rpa_zero_spec (w0 : process num) (r : loc) (d : pdict num)
    (a1 a2 a3 a4 : num) (k : value num) (b2 b5 : bool) :
  dict_get "Phi1" d = Some (VFloat a1) -> dict_get "Phi2" d = Some (VFloat a2) ->
  dict_get "Phi3" d = Some (VFloat a3) -> dict_get "Phi4" d = Some (VFloat a4) ->
  dict_get "case_num" d = Some k -> py_lt k (VInt 5) = Ok b5 ->
  exists d2,
    (if b2 then
       ref_setitem r "Phi1" (VFloat (of_Z 0)) ;;
       ref_setitem r "Phi2" (VFloat (of_Z 0))
     else
       let* case_num := ref_getitem r "case_num" in
       let* below5 := lift_result (py_lt case_num (VInt 5)) in
       if below5 then ref_setitem r "Phi1" (VFloat (of_Z 0)) else ret tt)
      (at_dict w0 r d)
    = (Ok tt, at_dict w0 r d2)
    /\ dict_get "Phi1" d2 = Some (VFloat (if b2 || b5 then of_Z 0 else a1))
    /\ dict_get "Phi2" d2 = Some (VFloat (if b2 then of_Z 0 else a2))
    /\ dict_get "Phi3" d2 = Some (VFloat a3)
    /\ dict_get "Phi4" d2 = Some (VFloat a4)
    /\ (forall key, ~ key ∈ phi_keys -> dict_get key d2 = dict_get key d).
Proof.
  intros H1 H2 H3 H4 Hk Hb5. destruct b2; [|destruct b5].
  - exists (dict_set "Phi2" (VFloat (of_Z 0)) (dict_set "Phi1" (VFloat (of_Z 0)) d)).
    split; [|repeat split].
    + rewrite (bind_ok _ _ _ _ _ (setitem_at w0 r d _ _)). apply setitem_at.
    + by rewrite !dict_get_set.
    + by rewrite !dict_get_set.
    + by rewrite !dict_get_set.
    + by rewrite !dict_get_set.
    + intros key Hkey. destruct (phi_key_tests key Hkey) as (E1 & E2 & _).
      by rewrite !dict_get_set, E1, E2.
  - exists (dict_set "Phi1" (VFloat (of_Z 0)) d). split; [|repeat split].
    + rewrite (bind_ok _ _ _ _ _ (getitem_at w0 r d _ _ Hk)).
      unfold lift_result. rewrite Hb5.
      rewrite (bind_ok _ _ _ true _ eq_refl). apply setitem_at.
    + by rewrite !dict_get_set.
    + by rewrite !dict_get_set.
    + by rewrite !dict_get_set.
    + by rewrite !dict_get_set.
    + intros key Hkey. destruct (phi_key_tests key Hkey) as (E1 & _).
      by rewrite !dict_get_set, E1.
  - exists d. split; [|repeat split; done].
    rewrite (bind_ok _ _ _ _ _ (getitem_at w0 r d _ _ Hk)).
    unfold lift_result. rewrite Hb5.
    by rewrite (bind_ok _ _ _ false _ eq_refl).
Qed.

Lemma div_step (w0 : process num) r (d : pdict num) key y T :
  dict_get key d = Some (VFloat y) -> neqb T (of_Z 0) = false ->
  (let* phi := ref_getitem r key in
   let* q := lift_result (py_div phi (VFloat T)) in
   ref_setitem r key q) (at_dict w0 r d)
  = (Ok tt, at_dict w0 r (dict_set key (VFloat (ndiv y T)) d)).
Proof.
  intros Hkey HT. rewrite (bind_ok _ _ _ _ _ (getitem_at w0 r d _ _ Hkey)).
  unfold lift_result, py_div, py_truediv, bind. cbn. rewrite HT. cbn.
  apply setitem_at.
Qed.

(** The renormalization of the [rpa] branch when the sum of the four
    fractions does not compare equal to zero: each fraction is divided
    by the sum. *)
Lemma rpa_normalize_spec (w0 : process num) (r : loc) (d : pdict num)
    (y1 y2 y3 y4 : num) :
  dict_get "Phi1" d = Some (VFloat y1) -> dict_get "Phi2" d = Some (VFloat y2) ->
  dict_get "Phi3" d = Some (VFloat y3) -> dict_get "Phi4" d = Some (VFloat y4) ->
  let T := nadd (nadd (nadd (nadd (of_Z 0) y1) y2) y3) y4 in
  neqb T (of_Z 0) = false ->
  exists d',
    (let* total :=
       fold_M (fun acc key =>
                 let* phi := ref_getitem r key in
                 lift_result (py_add acc phi)) phi_keys (VInt 0) in
     for_each phi_keys (fun key =>
       let* phi := ref_getitem r key in
       let* q := lift_result (py_div phi total) in
       ref_setitem r key q)) (at_dict w0 r d)
    = (Ok tt, at_dict w0 r d')
    /\ dict_get "Phi1" d' = Some (VFloat (ndiv y1 T))
    /\ dict_get "Phi2" d' = Some (VFloat (ndiv y2 T))
    /\ dict_get "Phi3" d' = Some (VFloat (ndiv y3 T))
    /\ dict_get "Phi4" d' = Some (VFloat (ndiv y4 T))
    /\ (forall key, ~ key ∈ phi_keys -> dict_get key d' = dict_get key d).
Proof.
  intros H1 H2 H3 H4 T HT.
  set (d1 := dict_set "Phi1" (VFloat (ndiv y1 T)) d).
  set (d2 := dict_set "Phi2" (VFloat (ndiv y2 T)) d1).
  set (d3 := dict_set "Phi3" (VFloat (ndiv y3 T)) d2).
  set (d4 := dict_set "Phi4" (VFloat (ndiv y4 T)) d3).
  assert (H2' : dict_get "Phi2" d1 = Some (VFloat y2))
    by (unfold d1; by rewrite dict_get_set).
  assert (H3' : dict_get "Phi3" d2 = Some (VFloat y3))
    by (unfold d2, d1; by rewrite !dict_get_set).
  assert (H4' : dict_get "Phi4" d3 = Some (VFloat y4))
    by (unfold d3, d2, d1; by rewrite !dict_get_set).
  exists d4. split; [|repeat split].
  - rewrite (bind_ok _ _ _ _ _ (rpa_total_step w0 r d y1 y2 y3 y4 H1 H2 H3 H4)).
    fold T. change phi_keys with ["Phi1"; "Phi2"; "Phi3"; "Phi4"]%string.
    cbn [for_each].
    rewrite (bind_ok _ _ _ _ _ (div_step w0 r d _ _ T H1 HT)). fold d1.
    rewrite (bind_ok _ _ _ _ _ (div_step w0 r d1 _ _ T H2' HT)). fold d2.
    rewrite (bind_ok _ _ _ _ _ (div_step w0 r d2 _ _ T H3' HT)). fold d3.
    rewrite (bind_ok _ _ _ _ _ (div_step w0 r d3 _ _ T H4' HT)). fold d4.
    reflexivity.
  - unfold d4, d3, d2, d1. by rewrite !dict_get_set.
  - unfold d4, d3, d2, d1. by rewrite !dict_get_set.
  - unfold d4, d3, d2, d1. by rewrite !dict_get_set.
  - unfold d4, d3, d2, d1. by rewrite !dict_get_set.
  - intros key Hkey. destruct (phi_key_tests key Hkey) as (E1 & E2 & E3 & E4).
    unfold d4, d3, d2, d1. by rewrite !dict_get_set, E1, E2, E3, E4.
Qed.

(** The whole [rpa] branch on a parameter set whose four fractions are
    floats and whose sum, after the zeroing, does not compare equal to
    zero: the call returns and each fraction has been divided by the
    sum. *)
Lemma constrain_pars_rpa_divides (mi : ModelInfo num) (r : loc) (d : pdict num)
    (w : process num) (a1 a2 a3 a4 : num) (k : value num) (b2 b5 : bool) :
  id mi = "rpa"%string ->
  heap w !! r = Some d -> NoDup (dict_keys d) ->
  dict_get "Phi1" d = Some (VFloat a1) -> dict_get "Phi2" d = Some (VFloat a2) ->
  dict_get "Phi3" d = Some (VFloat a3) -> dict_get "Phi4" d = Some (VFloat a4) ->
  dict_get "case_num" d = Some k ->
  py_lt k (VInt 2) = Ok b2 -> py_lt k (VInt 5) = Ok b5 ->
  let z1 := if b2 || b5 then of_Z 0 else a1 in
  let z2 := if b2 then of_Z 0 else a2 in
  let T := nadd (nadd (nadd (nadd (of_Z 0) z1) z2) a3) a4 in
  neqb T (of_Z 0) = false ->
  exists w' d',
    constrain_pars mi r w = (Ok tt, w')
    /\ heap w' !! r = Some d'
    /\ dict_get "Phi1" d' = Some (VFloat (ndiv z1 T))
    /\ dict_get "Phi2" d' = Some (VFloat (ndiv z2 T))
    /\ dict_get "Phi3" d' = Some (VFloat (ndiv a3 T))
    /\ dict_get "Phi4" d' = Some (VFloat (ndiv a4 T)).
Proof.
  intros Hid Hr Hnd H1 H2 H3 H4 Hk Hb2 Hb5 z1 z2 T HT.
  destruct (magnetism_step mi r d w Hr Hnd) as (w0 & d1 & Hmag & Hsame).
  rewrite <- (Hsame "Phi1"%string eq_refl) in H1.
  rewrite <- (Hsame "Phi2"%string eq_refl) in H2.
  rewrite <- (Hsame "Phi3"%string eq_refl) in H3.
  rewrite <- (Hsame "Phi4"%string eq_refl) in H4.
  rewrite <- (Hsame "case_num"%string eq_refl) in Hk.
  destruct (rpa_zero_spec w0 r d1 a1 a2 a3 a4 k b2 b5 H1 H2 H3 H4 Hk Hb5)
    as (d2 & Hzero & Z1 & Z2 & Z3 & Z4 & _).
  destruct (rpa_normalize_spec w0 r d2 _ _ _ _ Z1 Z2 Z3 Z4 HT)
    as (d' & Hnorm & N1 & N2 & N3 & N4 & _).
  exists (at_dict w0 r d'), d'.
  split; [|split; [apply at_dict_lookup|done]].
  rewrite (constrain_pars_rpa mi r Hid).
  rewrite (bind_ok _ _ _ _ _ Hmag).
  rewrite (bind_ok _ _ _ _ _ (getitem_at w0 r d1 _ _ Hk)).
  unfold lift_result at 1. rewrite Hb2.
  rewrite (bind_ok _ _ _ b2 _ eq_refl).
  rewrite (bind_ok _ _ _ _ _ Hzero).
  exact Hnorm.
Qed.

End RpaRepair.

Local Open Scope R_scope.


(* ================================================================== *)
(** * The repaired fractions of [rpa] in binary64 *)
(* ================================================================== *)

Lemma unit_roundoff_small : 0 < pow2 (-53) <= / 1024.
Proof.
  split; [apply pow2_pos|].
  apply Rle_trans with (pow2 (-10)); [apply pow2_le; lia|].
  unfold pow2. simpl. lra.
Qed.

Lemma underflow_small : 0 <= pow2 (-1075) <= pow2 (-53) / 4.
Proof.
  split; [left; apply pow2_pos|].
  apply Rle_trans with (pow2 (-55)); [apply pow2_le; lia|].
  replace (-55)%Z with (-53 + -2)%Z by lia. rewrite pow2_add.
  assert (pow2 (-2) = / 4) as -> by (unfold pow2; simpl; lra). lra.
Qed.

Lemma pow2_m50 : pow2 (-50) = 8 * pow2 (-53).
Proof.
  replace (-50)%Z with (3 + -53)%Z by lia. rewrite pow2_add.
  assert (pow2 3 = 8) as -> by (unfold pow2; simpl; lra). done.
Qed.

Lemma pow2_m49 : pow2 (-49) = 16 * pow2 (-53).
Proof.
  replace (-49)%Z with (4 + -53)%Z by lia. rewrite pow2_add.
  assert (pow2 4 = 16) as -> by (unfold pow2; simpl; lra). done.
Qed.

Lemma pow2_971_large : 4 <= pow2 971.
Proof.
  apply Rle_trans with (pow2 2); [unfold pow2; simpl; lra|apply pow2_le; lia].
Qed.

Lemma float_value_zero : float_value 0%float = 0.
Proof. reflexivity. Qed.

Lemma sf_nonneg_is_finite (x : spec_float) :
  sf_nonneg x ->
  match x with S754_zero _ | S754_finite _ _ _ => True | _ => False end ->
  sf_nonneg_finite x.
Proof. by destruct x as [|[]| |[]]. Qed.

(** The binary64 sum [((x1 + x2) + x3) + x4] of four nonnegative finite
    numbers whose exact sum is at most 2: no addition overflows and the
    result is within the factors [1 - 4u] and [1 + 5u] of the exact
    sum. *)
Lemma float_sum4_bounds (x1 x2 x3 x4 : float) :
  sf_nonneg_finite (Prim2SF x1) -> sf_nonneg_finite (Prim2SF x2) ->
  sf_nonneg_finite (Prim2SF x3) -> sf_nonneg_finite (Prim2SF x4) ->
  let S := float_value x1 + float_value x2 + float_value x3 + float_value x4 in
  S <= 2 ->
  sf_nonneg_finite (Prim2SF (x1 + x2 + x3 + x4)%float)
  /\ S * (1 - 4 * pow2 (-53)) <= float_value (x1 + x2 + x3 + x4)%float
     <= S * (1 + 5 * pow2 (-53)).
Proof.
  intros F1 F2 F3 F4 S HS.
  pose proof unit_roundoff_small as Hu. pose proof pow2_971_large as Hbig.
  pose proof (float_value_nonneg _ F1) as P1.
  pose proof (float_value_nonneg _ F2) as P2.
  pose proof (float_value_nonneg _ F3) as P3.
  pose proof (float_value_nonneg _ F4) as P4.
  assert (G2 : sf_nonneg_finite (Prim2SF (x1 + x2)%float))
    by (apply float_add_small; [done|done|unfold S in HS; lra]).
  destruct (float_add_finite x1 x2) as (_ & _ & E2);
    [by apply sf_nonneg_finite_nonneg|by apply sf_nonneg_finite_nonneg|done|].
  pose proof (Rabs_le_both _ _ E2) as B2.
  assert (G3 : sf_nonneg_finite (Prim2SF (x1 + x2 + x3)%float))
    by (apply float_add_small; [done|done|unfold S in HS; nra]).
  destruct (float_add_finite (x1 + x2) x3) as (_ & _ & E3);
    [by apply sf_nonneg_finite_nonneg|by apply sf_nonneg_finite_nonneg|done|].
  pose proof (Rabs_le_both _ _ E3) as B3.
  assert (G4 : sf_nonneg_finite (Prim2SF (x1 + x2 + x3 + x4)%float))
    by (apply float_add_small; [done|done|unfold S in HS; nra]).
  destruct (float_add_finite (x1 + x2 + x3) x4) as (_ & _ & E4);
    [by apply sf_nonneg_finite_nonneg|by apply sf_nonneg_finite_nonneg|done|].
  split; [done|].
  apply (sum_chain_bounds (pow2 (-53)) (float_value x1) (float_value x2)
           (float_value x3) (float_value x4) (float_value x1)
           (float_value (x1 + x2)%float) (float_value (x1 + x2 + x3)%float)
           (float_value (x1 + x2 + x3 + x4)%float) Hu P1 P2 P3 P4);
    [|done|done|done].
  replace (float_value x1 - (0 + float_value x1)) with 0 by ring.
  rewrite Rabs_R0. nra.
Qed.

(** C7.  For the model [rpa] in binary64, on a parameter set whose four
    fractions are positive and whose sum, taken after the zeroing, is
    finite: [constrain_pars] returns, having zeroed [Phi1] and [Phi2]
    when [case_num < 2] and [Phi1] when [2 <= case_num < 5], and having
    divided each fraction by the sum; the four repaired fractions are
    finite, their values add up to 1 within [2^-50], and their binary64
    sum [Phi1 + Phi2 + Phi3 + Phi4] is finite and within [2^-49] of 1. *)
Theorem rpa_fractions_sum_to_one {ML : MathLib float} {G : NumpyRandom float}
    (mi : ModelInfo float) (r : loc) (d : pdict float) (w : process float)
    (a1 a2 a3 a4 : float) (k : value float) (b2 b5 : bool) :
  id mi = "rpa"%string ->
  heap w !! r = Some d -> NoDup (dict_keys d) ->
  dict_get "Phi1" d = Some (VFloat a1) -> dict_get "Phi2" d = Some (VFloat a2) ->
  dict_get "Phi3" d = Some (VFloat a3) -> dict_get "Phi4" d = Some (VFloat a4) ->
  dict_get "case_num" d = Some k ->
  py_lt k (VInt 2) = Ok b2 -> py_lt k (VInt 5) = Ok b5 ->
  (0 <? a1)%float = true -> (0 <? a2)%float = true ->
  (0 <? a3)%float = true -> (0 <? a4)%float = true ->
  let z1 := if b2 || b5 then 0%float else a1 in
  let z2 := if b2 then 0%float else a2 in
  let total := (0 + z1 + z2 + a3 + a4)%float in
  float_isfinite total = true ->
  exists w' d' x1 x2 x3 x4 s,
    constrain_pars mi r w = (Ok tt, w')
    /\ heap w' !! r = Some d'
    /\ dict_get "Phi1" d' = Some (VFloat x1) /\ dict_get "Phi2" d' = Some (VFloat x2)
    /\ dict_get "Phi3" d' = Some (VFloat x3) /\ dict_get "Phi4" d' = Some (VFloat x4)
    /\ x1 = (z1 / total)%float /\ x2 = (z2 / total)%float
    /\ x3 = (a3 / total)%float /\ x4 = (a4 / total)%float
    /\ (b2 || b5 = true -> x1 = 0%float) /\ (b2 = true -> x2 = 0%float)
    /\ float_isfinite x1 = true /\ float_isfinite x2 = true
    /\ float_isfinite x3 = true /\ float_isfinite x4 = true
    /\ Rabs (float_value x1 + float_value x2 + float_value x3 + float_value x4 - 1)
       <= pow2 (-50)
    /\ phi_sum d' = Some s /\ float_isfinite s = true
    /\ Rabs (float_value s - 1) <= pow2 (-49).
Proof.
  intros Hid Hr Hnd H1 H2 H3 H4 Hk Hb2 Hb5 P1 P2 P3 P4 z1 z2 total Hfin.
  pose proof unit_roundoff_small as Hu. pose proof underflow_small as Heta.
  pose proof pow2_971_large as Hbig.
  (* shapes of the operands and of the partial sums *)
  assert (N0 : sf_nonneg (Prim2SF 0%float)) by done.
  assert (Nz1 : sf_nonneg (Prim2SF z1))
    by (unfold z1; destruct (b2 || b5); [done|by apply float_pos_nonneg]).
  assert (Nz2 : sf_nonneg (Prim2SF z2))
    by (unfold z2; destruct b2; [done|by apply float_pos_nonneg]).
  pose proof (float_pos_nonneg _ P3) as N3.
  pose proof (float_pos_nonneg _ P4) as N4.
  pose proof (float_add_nonneg _ _ N0 Nz1) as Nt1.
  pose proof (float_add_nonneg _ _ Nt1 Nz2) as Nt2.
  pose proof (float_add_nonneg _ _ Nt2 N3) as Nt3.
  pose proof (float_add_nonneg _ _ Nt3 N4) as Nt4.
  fold total in Nt4.
  assert (Ft : sf_nonneg_finite (Prim2SF total))
    by (apply sf_nonneg_is_finite; [done|by apply float_isfinite_shape]).
  destruct (float_add_finite _ _ Nt3 N4 Ft) as (Ft3 & F4 & E4).
  destruct (float_add_finite _ _ Nt2 N3 Ft3) as (Ft2 & F3 & E3).
  destruct (float_add_finite _ _ Nt1 Nz2 Ft2) as (Ft1 & Fz2 & E2).
  destruct (float_add_finite _ _ N0 Nz1 Ft1) as (_ & Fz1 & E1).
  rewrite float_value_zero in E1. fold total in E4.
  pose proof (float_value_nonneg _ Fz1) as V1.
  pose proof (float_value_nonneg _ Fz2) as V2.
  pose proof (float_pos_value _ P3 F3) as V3.
  pose proof (float_pos_value _ P4 F4) as V4.
  set (y1 := float_value z1) in *. set (y2 := float_value z2) in *.
  set (y3 := float_value a3) in *. set (y4 := float_value a4) in *.
  set (t := float_value total) in *.
  (* the sum is positive and not much below the exact sum *)
  destruct (sum_chain_bounds (pow2 (-53)) y1 y2 y3 y4 _ _ _ t Hu
              V1 V2 ltac:(lra) ltac:(lra) E1 E2 E3 E4) as [Lt Ut].
  assert (Ht : 0 < t) by nra.
  assert (Hquot : forall y, 0 <= y <= y1 + y2 + y3 + y4 -> y / t < pow2 971).
  { intros y Hy. apply Rlt_le_trans with 4; [|done].
    apply (Rmult_lt_reg_r t); [done|].
    replace (y / t * t) with y by (field; lra). nra. }
  destruct (float_div_nonneg z1 total Fz1 Ft Ht (Hquot y1 ltac:(lra))) as [Fx1 Q1].
  destruct (float_div_nonneg z2 total Fz2 Ft Ht (Hquot y2 ltac:(lra))) as [Fx2 Q2].
  destruct (float_div_nonneg a3 total F3 Ft Ht (Hquot y3 ltac:(lra))) as [Fx3 Q3].
  destruct (float_div_nonneg a4 total F4 Ft Ht (Hquot y4 ltac:(lra))) as [Fx4 Q4].
  fold y1 y2 y3 y4 t in Q1, Q2, Q3, Q4.
  destruct (normalized_sum_bound (pow2 (-53)) (pow2 (-1075)) y1 y2 y3 y4 _ _ _ t
              _ _ _ _ Hu Heta V1 V2 ltac:(lra) ltac:(lra) ltac:(lra)
              E1 E2 E3 E4 Q1 Q2 Q3 Q4) as (_ & _ & Hsum).
  (* the run *)
  destruct (constrain_pars_rpa_divides mi r d w a1 a2 a3 a4 k b2 b5
              Hid Hr Hnd H1 H2 H3 H4 Hk Hb2 Hb5)
    as (w' & d' & Hrun & Hd' & D1 & D2 & D3 & D4).
  { change (PrimFloat.eqb total 0 = false). by apply float_pos_not_zero. }
  change (dict_get "Phi1" d' = Some (VFloat (z1 / total)%float)) in D1.
  change (dict_get "Phi2" d' = Some (VFloat (z2 / total)%float)) in D2.
  change (dict_get "Phi3" d' = Some (VFloat (a3 / total)%float)) in D3.
  change (dict_get "Phi4" d' = Some (VFloat (a4 / total)%float)) in D4.
  set (x1 := (z1 / total)%float) in *. set (x2 := (z2 / total)%float) in *.
  set (x3 := (a3 / total)%float) in *. set (x4 := (a4 / total)%float) in *.
  exists w', d', x1, x2, x3, x4, (x1 + x2 + x3 + x4)%float.
  repeat (split; [done|]).
  apply Rabs_le_both in Hsum.
  destruct (float_sum4_bounds x1 x2 x3 x4 Fx1 Fx2 Fx3 Fx4) as (Fs & Ls & Us);
    [lra|].
  split; [|split].
  { intros E. unfold x1, z1. rewrite E. by apply float_div_zero. }
  { intros E. unfold x2, z2. rewrite E. by apply float_div_zero. }
  repeat (split; [by apply float_isfinite_intro|]).
  split; [rewrite pow2_m50; apply Rabs_le; lra|].
  split; [unfold phi_sum; by rewrite D1, D2, D3, D4|].
  split; [by apply float_isfinite_intro|].
  rewrite pow2_m49. apply Rabs_le. split; nra.
Qed.


(* ================================================================== *)
(** * Doubling in binary64, and the ranges of [parameter_range] *)
(* ================================================================== *)

(** Rounding an exactly known value of at least [2^-1074] does not give
    zero: the result is finite or infinite, with the sign asked for. *)
Lemma round_exact_signed (s : bool) (m : positive) (e : Z) :
  pow2 (-1074) <= IZR (Z.pos m) * pow2 e ->
  sf_signed s (binary_round_aux prec emax s (Z.pos m) e loc_Exact).
Proof.
  intros Hbig.
  destruct (round_aux_spec s (Z.pos m) e loc_Exact (IZR (Z.pos m)))
    as (m'' & e'' & Hz & Hm'' & HE & Herr & _); [lia|done|].
  set (E := Z.max e (fexp prec emax (Zdigits2 (Z.pos m) + e))) in *.
  rewrite Hz. destruct m'' as [|p|p]; [|by destruct (e'' <=? emax - prec)%Z|lia].
  exfalso. rewrite Rmult_0_l, Rminus_0_l, Rabs_Ropp in Herr.
  assert (Hmpos : (0 < Z.pos m)%Z) by lia.
  pose proof (Zdigits2_bounds (Z.pos m) Hmpos) as [Hlo _].
  pose proof (pow2_pos e) as Hpe.
  assert (Hm1 : 1 <= IZR (Z.pos m)) by (apply IZR_le; lia).
  rewrite Rabs_right in Herr by nra.
  assert (Hlt : pow2 (E - 1) < IZR (Z.pos m) * pow2 e); [|lra].
  assert (Hcases : (E - 1 = e - 1 \/ E - 1 = (Zdigits2 (Z.pos m) - 1) + e + -53
                    \/ E - 1 = -1075)%Z)
    by (unfold E; rewrite fexp_eq; lia).
  destruct Hcases as [->|[->| ->]].
  - rewrite pow2_pred. nra.
  - rewrite !pow2_add.
    assert (pow2 (-53) < 1).
    { change 1 with (pow2 0). apply pow2_lt. lia. }
    pose proof (pow2_pos (-53)). pose proof (pow2_pos (Zdigits2 (Z.pos m) - 1)).
    assert (0 < pow2 (Zdigits2 (Z.pos m) - 1) * pow2 e)
      by (by apply Rmult_lt_0_compat).
    apply Rlt_le_trans with (pow2 (Zdigits2 (Z.pos m) - 1) * pow2 e); [nra|].
    apply Rmult_le_compat_r; lra.
  - pose proof (pow2_lt (-1075) (-1074) ltac:(lia)). lra.
Qed.

(** Twice a finite nonzero number, in either sign: finite or infinite,
    never zero, with the sign of the product. *)
Lemma SFmul_two_signed (s2 sx : bool) (mx : positive) (ex : Z) :
  SpecFloat.valid_binary prec emax (S754_finite sx mx ex) = true ->
  sf_signed (xorb s2 sx)
    (SFmul prec emax (S754_finite s2 4503599627370496 (-51))
       (S754_finite sx mx ex)).
Proof.
  intros V. destruct (valid_finite _ _ _ V) as [Hex _].
  cbn [SFmul]. apply round_exact_signed.
  rewrite Pos2Z.inj_mul, mult_IZR.
  change (IZR (Z.pos 4503599627370496)) with (IZR (2 ^ 52)).
  rewrite <- pow2_IZR by lia.
  assert (1 <= IZR (Z.pos mx)) by (apply IZR_le; lia).
  rewrite pow2_add. pose proof (pow2_pos ex).
  assert (pow2 52 * pow2 (-51) = 2).
  { rewrite <- pow2_add. exact pow2_1. }
  pose proof (pow2_le (-1074) ex ltac:(lia)).
  pose proof (pow2_pos (-1074)).
  replace (pow2 52 * IZR (Z.pos mx) * (pow2 (-51) * pow2 ex))
    with (pow2 52 * pow2 (-51) * (IZR (Z.pos mx) * pow2 ex)) by ring.
  assert (pow2 ex <= IZR (Z.pos mx) * pow2 ex) by nra.
  rewrite H1. lra.
Qed.

Lemma SFltb_signed (x y : spec_float) :
  sf_signed true x -> sf_signed false y -> SFltb x y = true.
Proof.
  destruct x as [|sx| |sx mx ex]; try done; destruct y as [|sy| |sy my ey]; try done;
    cbn; by intros -> ->.
Qed.

Lemma SFltb_zero_signed (y : spec_float) :
  sf_signed false y -> SFltb (S754_zero false) y = true.
Proof. destruct y as [|sy| |sy my ey]; try done; cbn; by intros ->. Qed.

(** [2 * x] and [-2 * x] for a float [x] that is not zero and not NaN. *)
Lemma float_double_signed (s2 s : bool) (c x : float) :
  Prim2SF c = S754_finite s2 4503599627370496 (-51) ->
  sf_signed s (Prim2SF x) ->
  sf_signed (xorb s2 s) (Prim2SF (c * x)).
Proof.
  intros Ec Hx. rewrite FloatAxioms.mul_spec, Ec. unfold SF64mul.
  pose proof (Prim2SF_valid x) as V.
  destruct (Prim2SF x) as [|sx| |sx mx ex]; try done; cbn in Hx; subst sx.
  - reflexivity.
  - by apply SFmul_two_signed.
Qed.

Lemma float_neg_signed (x : float) :
  (x <? 0)%float = true -> sf_signed true (Prim2SF x).
Proof.
  rewrite FloatAxioms.ltb_spec, Prim2SF_zero. unfold SFltb, SFcompare.
  by destruct (Prim2SF x) as [s|[]| |[] m e].
Qed.

Lemma float_pos_signed (x : float) :
  (0 <? x)%float = true -> sf_signed false (Prim2SF x).
Proof.
  rewrite FloatAxioms.ltb_spec, Prim2SF_zero. unfold SFltb, SFcompare.
  by destruct (Prim2SF x) as [s|[]| |[] m e].
Qed.

(** X18.  In binary64 every range [parameter_range] returns is a proper
    interval: the lower bound compares below the upper bound, for every
    name and every value.  For a negative value the bounds are [2v] and
    [-2v], for a positive one 0 and [2v], also when the doubling
    overflows to an infinity; for zero and for NaN they are 0 and 1. *)
Theorem parameter_range_proper_interval (p : string) (v : value float)
    (lo hi : float) :
  parameter_range p v = Ok (lo, hi) -> (lo <? hi)%float = true.
Proof.
  unfold parameter_range.
  repeat match goal with
         | |- context [if ?b then _ else _] =>
             lazymatch b with
             | nltb _ _ => fail
             | _ => destruct b
             end
         end;
    try solve [ discriminate | intros [= <- <-]; vm_compute; reflexivity ].
  unfold result_bind. destruct (to_num v) as [x|]; cbv beta iota; [|discriminate].
  change (nltb x (of_Z 0)) with (x <? 0)%float.
  change (nltb (of_Z 0) x) with (0 <? x)%float.
  change (@of_Z float float_number 0) with 0%float.
  change (nmul (of_Z 2) x) with (2 * x)%float.
  change (nmul (of_Z (-2)) x) with (-2 * x)%float.
  destruct (x <? 0)%float eqn:Hneg.
  - intros [= <- <-]. apply float_neg_signed in Hneg.
    rewrite FloatAxioms.ltb_spec. apply SFltb_signed.
    + exact (float_double_signed false true 2 x eq_refl Hneg).
    + exact (float_double_signed true true (-2) x eq_refl Hneg).
  - destruct (0 <? x)%float eqn:Hpos.
    + intros [= <- <-]. apply float_pos_signed in Hpos.
      rewrite FloatAxioms.ltb_spec, Prim2SF_zero.
      apply SFltb_zero_signed.
      exact (float_double_signed false false 2 x eq_refl Hpos).
    + intros [= <- <-]. vm_compute. reflexivity.
Qed.

(** X18 on the value -5 under a name no rule matches. *)
Lemma parameter_range_proper_interval_witness :
  parameter_range "anything" (VFloat (-5)%float) = Ok ((-10)%float, 10%float)
  /\ (-10 <? 10)%float = true.
Proof.
  assert (H : parameter_range "anything" (VFloat (-5)%float)
              = Ok ((-10)%float, 10%float)) by (vm_compute; reflexivity).
  split; [exact H|].
  exact (parameter_range_proper_interval "anything" (VFloat (-5)%float) _ _ H).
Defined.

Local Close Scope R_scope.

(** C7 on fractions 0.25, 0.3, 0.1, 0.7 with [case_num = 3]. *)
Lemma rpa_fractions_sum_to_one_witness :
  exists w' d' x1 x2 x3 x4 s,
    constrain_pars (ML := float_lib) (rpa_model float) 0%nat
      (empty_process {[ 0%nat := rpa_pars_float ]}) = (Ok tt, w')
    /\ heap w' !! 0%nat = Some d'
    /\ dict_get "Phi1" d' = Some (VFloat x1) /\ dict_get "Phi2" d' = Some (VFloat x2)
    /\ dict_get "Phi3" d' = Some (VFloat x3) /\ dict_get "Phi4" d' = Some (VFloat x4)
    /\ x1 = 0%float
    /\ (Rabs (float_value x1 + float_value x2 + float_value x3 + float_value x4 - 1)
        <= pow2 (-50))%R
    /\ phi_sum d' = Some s
    /\ (Rabs (float_value s - 1) <= pow2 (-49))%R.
Proof.
  assert (Hnd : NoDup (dict_keys rpa_pars_float)).
  { apply (bool_decide_unpack _). vm_compute. exact I. }
  assert (Hr : heap (empty_process {[ 0%nat := rpa_pars_float ]}) !! 0%nat
               = Some rpa_pars_float) by reflexivity.
  assert (Hfin : float_isfinite
                   (0 + (if false || true then 0 else 0.25)
                    + (if false then 0 else 3 / 10) + 1 / 10 + 7 / 10)%float = true)
    by (vm_compute; reflexivity).
  destruct (rpa_fractions_sum_to_one (ML := float_lib) (rpa_model float) 0%nat
              rpa_pars_float (empty_process {[ 0%nat := rpa_pars_float ]})
              0.25%float (3 / 10)%float (1 / 10)%float (7 / 10)%float
              (VInt 3) false true eq_refl Hr Hnd eq_refl eq_refl eq_refl eq_refl
              eq_refl eq_refl eq_refl eq_refl eq_refl eq_refl eq_refl Hfin)
    as (w' & d' & x1 & x2 & x3 & x4 & s & Hrun & Hd' & G1 & G2 & G3 & G4
        & _ & _ & _ & _ & Hz1 & _ & _ & _ & _ & _ & Hsum & Hs & _ & Hfl).
  exists w', d', x1, x2, x3, x4, s.
  repeat (split; [assumption|]). split; [by apply Hz1|]. by repeat split.
Defined.

(** C7 as stated fails when the sum overflows: on four fractions
    [2^1023], which are positive, with [case_num = 7], the sum is
    [+inf], [constrain_pars] returns, and every repaired fraction is
    [2^1023 / inf = 0.0]; the four add up to 0, not to 1. *)
Lemma rpa_fractions_overflow :
  (0 <? 0x1p1023)%float = true
  /\ float_isfinite (0 + 0x1p1023 + 0x1p1023 + 0x1p1023 + 0x1p1023)%float = false
  /\ constrain_pars (ML := float_lib) (rpa_model float) 0%nat
       (empty_process {[ 0%nat := rpa_pars_huge ]})
     = (Ok tt,
        empty_process
          {[ 0%nat := [ ("case_num", VInt 7); ("Phi1", VFloat 0%float);
                        ("Phi2", VFloat 0%float); ("Phi3", VFloat 0%float);
                        ("Phi4", VFloat 0%float) ]%string ]})
  /\ phi_sum [ ("case_num", VInt 7); ("Phi1", VFloat 0%float);
               ("Phi2", VFloat 0%float); ("Phi3", VFloat 0%float);
               ("Phi4", VFloat 0%float) ]%string
     = Some 0%float
  /\ (Rabs (float_value 0 + float_value 0 + float_value 0 + float_value 0 - 1)
      = 1)%R.
Proof.
  split; [reflexivity|]. split; [vm_compute; reflexivity|].
  split; [vm_compute; reflexivity|]. split; [vm_compute; reflexivity|].
  rewrite float_value_zero. rewrite Rabs_left; lra.
Qed.

